(** * HCI medication system: the TUIO bridge (main.py)

    A shallow embedding of [main.py]: the broadcast hub, the TUIO listener
    with its object registry, the wheel / selection logic, the $1 gesture
    recognizer and the hand-tracking loop, followed by the properties of
    the specification that were checked against them.

    Numbers.  Python [float] values are read as real numbers ([R]): the
    arithmetic of the program is modelled exactly, without rounding,
    overflow or NaN.  [int] values are [Z]. *)

From Stdlib Require Import Reals ZArith String Ascii List Bool Lia Lra.
From Stdlib Require Import DecimalString.
Import ListNotations.

Open Scope R_scope.

(* ------------------------------------------------------------------ *)
(** ** Python numeric primitives *)

(** [int(x)] on a float: truncation toward zero. *)
Definition py_int (x : R) : Z :=
  if Rle_dec 0 x then Zfloor x else Zceil x.

(** [x % y] on floats: the remainder takes the sign of the divisor,
    [x - floor(x / y) * y]. *)
Definition py_mod (x y : R) : R :=
  x - IZR (Zfloor (x / y)) * y.

(** [math.hypot(dx, dy)]. *)
Definition hypot (dx dy : R) : R := sqrt (dx * dx + dy * dy).

Definition Rltb (a b : R) : bool := if Rlt_dec a b then true else false.
Definition Rleb (a b : R) : bool := if Rle_dec a b then true else false.

(** [round(x)]: nearest integer, ties to the even one.  Only the
    specification uses it. *)
Definition py_round (x : R) : Z :=
  let f := Zfloor x in
  if Rlt_dec (x - IZR f) (1 / 2) then f
  else if Rlt_dec (1 / 2) (x - IZR f) then (f + 1)%Z
  else if Z.even f then f else (f + 1)%Z.

(** [f"{n:02d}"]. *)
Definition fmt_02d (n : Z) : string :=
  let s := NilZero.string_of_int (Z.to_int n) in
  if (String.length s <? 2)%nat then String "0" s else s.

(* ------------------------------------------------------------------ *)
(** ** Configuration *)

Definition ROTATE_SYMBOL : Z := 0.
Definition SELECT_SYMBOL : Z := 1.
Definition BACK_SYMBOL : Z := 12.
Definition NURSE_MODE_SYMBOL : Z := 13.
Definition VIEW_PATIENT_INFO_SYMBOL : Z := 14.
Definition EDIT_MEDICATIONS_SYMBOL : Z := 15.

Definition MEDICATION_SYMBOLS : list (Z * string) :=
  [ (1%Z, "Paracetamol"%string);
    (2%Z, "Amoxicillin"%string);
    (3%Z, "Aspirin"%string);
    (4%Z, "Metformin"%string);
    (5%Z, "Lisinopril"%string);
    (6%Z, "Atorvastatin"%string) ].

Definition NUM_WHEEL_SECTORS : Z := Z.of_nat (List.length MEDICATION_SYMBOLS).

(** [list(MEDICATION_SYMBOLS.values())[sector]]; the index is always in
    range where the program uses it. *)
Definition medication_at (sector : Z) : string :=
  nth (Z.to_nat sector) (map snd MEDICATION_SYMBOLS) ""%string.

(** The proximity threshold written [0.08] in the selection scans. *)
Definition PROXIMITY : R := 8 / 100.

(* ------------------------------------------------------------------ *)
(** ** Records and events *)

Inductive EventKind := Add | Update | Remove.

Definition is_add (e : EventKind) : bool :=
  match e with Add => true | _ => false end.

(** [evt in ("add", "update")]. *)
Definition is_add_or_update (e : EventKind) : bool :=
  match e with Add | Update => true | Remove => false end.

(** A session id is whatever [getattr(obj, 'session_id', None)] gives. *)
Definition SessionId := option Z.

Definition session_eqb (a b : SessionId) : bool :=
  match a, b with
  | Some m, Some n => (m =? n)%Z
  | None, None => true
  | _, _ => false
  end.

(** The [record] dictionary built by [_handle_obj]. *)
Record TuioRecord := mkRecord {
  r_event : EventKind;
  r_symbol_id : Z;
  r_session_id : SessionId;
  r_x : R;
  r_y : R;
  r_angle : R
}.

(** The objects handed to [broadcast]: one constructor per ["type"]. *)
Inductive Event :=
| tuio_obj (payload : TuioRecord)
| wheel_open (x y : R) (marker : string)
| wheel_hover (sector : Z) (angle x y : R) (medication marker : string)
| wheel_select_confirm (sector : Z) (medication marker : string)
| nurse_wheel_open (x y : R)
| nurse_wheel_hover (sector : Z) (angle x y : R) (medication : string)
| nurse_wheel_select_confirm (sector : Z) (item : string)
| nurse_edit_med_select (sector : Z) (medication : string)
| back_pressed
| gesture_mode_toggled (enabled : bool)
| gesture_time_update (time : string) (minutes : Z)
| gesture_time_final (time : string) (minutes : Z).

(** The bytes [(json.dumps(obj) + "\n").encode("utf-8")]. *)
Inductive Data := JsonLine (obj : Event).

(* ------------------------------------------------------------------ *)
(** ** Shared state, locks and the effect monad *)

(** A connected client socket, named by a handle. *)
Definition Client := nat.

Inductive Lock := clients_lock | latest_objects_lock | gesture_detection_lock.

Definition lock_eqb (a b : Lock) : bool :=
  match a, b with
  | clients_lock, clients_lock
  | latest_objects_lock, latest_objects_lock
  | gesture_detection_lock, gesture_detection_lock => true
  | _, _ => false
  end.

(** What a run of the program does that the outside can observe. *)
Inductive Action :=
| Acquire (l : Lock)
| Release (l : Lock)
| JsonDumps (obj : Event)
| SendAll (c : Client) (data : Data) (ok : bool).

(** A Python [dict] keeps its keys in insertion order. *)
Definition Dict := list (SessionId * TuioRecord).

(** The module's globals.  [socket_ok c] tells whether [c.sendall]
    succeeds on the connection as it is now. *)
Record World := mkWorld {
  clients : list Client;
  socket_ok : Client -> bool;
  latest_objects : Dict;
  gesture_detection_enabled : bool
}.

Definition M (A : Type) : Type := World -> A * World * list Action.

Definition ret {A} (a : A) : M A := fun w => (a, w, []).

Definition bind {A B} (m : M A) (k : A -> M B) : M B :=
  fun w =>
    let '(a, w1, t1) := m w in
    let '(b, w2, t2) := k a w1 in
    (b, w2, t1 ++ t2).

Notation "x <- m ;; k" := (bind m (fun x => k))
  (at level 61, m at next level, right associativity).
Notation "m ;; k" := (bind m (fun _ => k))
  (at level 61, right associativity).

Definition tell (t : list Action) : M unit := fun w => (tt, w, t).
Definition get : M World := fun w => (w, w, []).
Definition put (w : World) : M unit := fun _ => (tt, w, []).

Definition when (b : bool) (m : M unit) : M unit :=
  if b then m else ret tt.

Fixpoint for_each {A} (l : list A) (body : A -> M unit) : M unit :=
  match l with
  | [] => ret tt
  | a :: l' => body a ;; for_each l' body
  end.

(** [with lock: body]. *)
Definition with_lock {A} (l : Lock) (body : M A) : M A :=
  tell [Acquire l] ;; a <- body ;; tell [Release l] ;; ret a.

Definition set_clients (cs : list Client) : M unit :=
  fun w => (tt, mkWorld cs (socket_ok w) (latest_objects w)
                        (gesture_detection_enabled w), []).

Definition set_latest_objects (d : Dict) : M unit :=
  fun w => (tt, mkWorld (clients w) (socket_ok w) d
                        (gesture_detection_enabled w), []).

Definition set_gesture_detection_enabled (b : bool) : M unit :=
  fun w => (tt, mkWorld (clients w) (socket_ok w) (latest_objects w) b, []).

Definition exec {A} (m : M A) (w : World) : World := snd (fst (m w)).
Definition trace {A} (m : M A) (w : World) : list Action := snd (m w).
Definition result {A} (m : M A) (w : World) : A := fst (fst (m w)).

(** The objects passed to [broadcast], in call order: every call
    serializes its argument with one [json.dumps]. *)
Fixpoint published (t : list Action) : list Event :=
  match t with
  | [] => []
  | JsonDumps obj :: t' => obj :: published t'
  | _ :: t' => published t'
  end.

(* ------------------------------------------------------------------ *)
(** ** broadcast *)

(** [list.remove(x)]: drops the first occurrence. *)
Fixpoint list_remove (c : Client) (l : list Client) : list Client :=
  match l with
  | [] => []
  | c' :: l' => if Nat.eqb c c' then l' else c' :: list_remove c l'
  end.

(** The sending sweep: returns [dead]. *)
Fixpoint send_loop (data : Data) (cs : list Client) (dead : list Client)
  : M (list Client) :=
  match cs with
  | [] => ret dead
  | client_socket :: cs' =>
      w <- get ;;
      let ok := socket_ok w client_socket in
      tell [SendAll client_socket data ok] ;;
      send_loop data cs' (if ok then dead else dead ++ [client_socket])
  end.

Fixpoint remove_dead (dead : list Client) : M unit :=
  match dead with
  | [] => ret tt
  | dead_client :: dead' =>
      w <- get ;;
      set_clients (list_remove dead_client (clients w)) ;;
      remove_dead dead'
  end.

Definition broadcast (obj : Event) : M unit :=
  tell [JsonDumps obj] ;;
  let data := JsonLine obj in
  with_lock clients_lock (
    w <- get ;;
    dead <- send_loop data (clients w) [] ;;
    remove_dead dead).

(* ------------------------------------------------------------------ *)
(** ** The TUIO listener and the registry *)

(** [latest_objects[session_id] = record]. *)
Fixpoint dict_set (k : SessionId) (v : TuioRecord) (d : Dict) : Dict :=
  match d with
  | [] => [(k, v)]
  | (k', v') :: d' =>
      if session_eqb k k' then (k, v) :: d' else (k', v') :: dict_set k v d'
  end.

(** [latest_objects.pop(session_id, None)]. *)
Fixpoint dict_pop (k : SessionId) (d : Dict) : Dict :=
  match d with
  | [] => []
  | (k', v') :: d' =>
      if session_eqb k k' then d' else (k', v') :: dict_pop k d'
  end.

Fixpoint dict_get (k : SessionId) (d : Dict) : option TuioRecord :=
  match d with
  | [] => None
  | (k', v') :: d' => if session_eqb k k' then Some v' else dict_get k d'
  end.

(** A TUIO object as the listener sees it: an attribute that the object
    does not have is [None]; the id attributes may hold [None]. *)
Record TuioObject := mkObject {
  fiducial_id : option (option Z);
  symbol_id : option (option Z);
  class_id : option (option Z);
  pattern_id : option (option Z);
  session_id : option Z;
  attr_x : option R;
  attr_xpos : option R;
  attr_x_pos : option R;
  attr_y : option R;
  attr_ypos : option R;
  attr_y_pos : option R;
  attr_angle : option R
}.

(** [getattr(obj, name, default)]. *)
Definition getattr {A} (attr : option A) (default : A) : A :=
  match attr with Some v => v | None => default end.

(** The loop over [possible_id_attrs]: the first attribute present. *)
Definition find_symbol_id (obj : TuioObject) : option Z :=
  match fiducial_id obj with
  | Some v => v
  | None =>
    match symbol_id obj with
    | Some v => v
    | None =>
      match class_id obj with
      | Some v => v
      | None =>
        match pattern_id obj with
        | Some v => v
        | None => None
        end
      end
    end
  end.

(** The wheel sector of an angle: [theta] and [sector]. *)
Definition wheel_sector (angle : R) : R * Z :=
  let theta := py_mod angle (2 * PI) in
  let frac := theta / (2 * PI) in
  (theta, (py_int (frac * IZR NUM_WHEEL_SECTORS) mod NUM_WHEEL_SECTORS)%Z).

(** [math.hypot(srec.x - record.x, srec.y - record.y) < 0.08]. *)
Definition near (srec record : TuioRecord) : bool :=
  let dx := r_x srec - r_x record in
  let dy := r_y srec - r_y record in
  let dist := hypot dx dy in
  Rltb dist PROXIMITY.

Definition process_logic_and_broadcast (record : TuioRecord) : M unit :=
  let sid := r_symbol_id record in
  let evt := r_event record in
  broadcast (tuio_obj record) ;;
  (* wheel logic, patient mode *)
  when ((sid =? ROTATE_SYMBOL)%Z && is_add evt)
    (broadcast (wheel_open (r_x record) (r_y record) "patient")) ;;
  when ((sid =? ROTATE_SYMBOL)%Z && is_add_or_update evt)
    (let '(theta, sector) := wheel_sector (r_angle record) in
     let medication_name := medication_at sector in
     broadcast (wheel_hover sector theta (r_x record) (r_y record)
                            medication_name "patient") ;;
     with_lock latest_objects_lock (
       w <- get ;;
       for_each (latest_objects w) (fun '(_, srec) =>
         when (r_symbol_id srec =? SELECT_SYMBOL)%Z
           (when (near srec record)
              (let selected_med := medication_at sector in
               broadcast (wheel_select_confirm sector selected_med
                                               "patient")))))) ;;
  (* wheel logic, nurse mode *)
  when ((sid =? NURSE_MODE_SYMBOL)%Z && is_add evt)
    (broadcast (nurse_wheel_open (r_x record) (r_y record))) ;;
  when ((sid =? NURSE_MODE_SYMBOL)%Z && is_add_or_update evt)
    (let '(theta, sector) := wheel_sector (r_angle record) in
     let medication_name := medication_at sector in
     broadcast (nurse_wheel_hover sector theta (r_x record) (r_y record)
                                  medication_name) ;;
     with_lock latest_objects_lock (
       w <- get ;;
       for_each (latest_objects w) (fun '(_, srec) =>
         if (r_symbol_id srec =? VIEW_PATIENT_INFO_SYMBOL)%Z then
           when (near srec record)
             (let selected_item := medication_at sector in
              broadcast (nurse_wheel_select_confirm sector selected_item))
         else if (r_symbol_id srec =? EDIT_MEDICATIONS_SYMBOL)%Z then
           when (near srec record)
             (let selected_med := medication_at sector in
              broadcast (nurse_edit_med_select sector selected_med))
         else ret tt))) ;;
  (* back *)
  when ((sid =? BACK_SYMBOL)%Z && is_add evt)
    (with_lock gesture_detection_lock
       (set_gesture_detection_enabled false) ;;
     broadcast back_pressed) ;;
  (* gesture detection, edit-medications mode *)
  when ((sid =? EDIT_MEDICATIONS_SYMBOL)%Z && is_add evt)
    (marker13_nearby <-
       with_lock latest_objects_lock (
         w <- get ;;
         ret (existsb (fun '(_, srec) =>
                         (r_symbol_id srec =? NURSE_MODE_SYMBOL)%Z
                         && near srec record)
                      (latest_objects w))) ;;
     when (negb marker13_nearby)
       (with_lock gesture_detection_lock
          (set_gesture_detection_enabled true) ;;
        w <- get ;;
        broadcast (gesture_mode_toggled (gesture_detection_enabled w)))).

(** The [record] that [_handle_obj] builds, when the object carries a
    marker id. *)
Definition make_record (event_type : EventKind) (obj : TuioObject)
  : option TuioRecord :=
  match find_symbol_id obj with
  | None => None
  | Some symbol_id =>
      let session_id := session_id obj in
      let x := getattr (attr_x obj)
                 (getattr (attr_xpos obj) (getattr (attr_x_pos obj) (1 / 2))) in
      let y := getattr (attr_y obj)
                 (getattr (attr_ypos obj) (getattr (attr_y_pos obj) (1 / 2))) in
      let angle := getattr (attr_angle obj) 0 in
      Some (mkRecord event_type symbol_id session_id x y angle)
  end.

Definition _handle_obj (event_type : EventKind) (obj : TuioObject) : M unit :=
  match make_record event_type obj with
  | None => ret tt
  | Some record =>
      let session_id := r_session_id record in
      with_lock latest_objects_lock (
        w <- get ;;
        if is_add_or_update event_type
        then set_latest_objects (dict_set session_id record (latest_objects w))
        else set_latest_objects (dict_pop session_id (latest_objects w))) ;;
      process_logic_and_broadcast record
  end.

Definition add_tuio_object (obj : TuioObject) : M unit := _handle_obj Add obj.
Definition update_tuio_object (obj : TuioObject) : M unit := _handle_obj Update obj.
Definition remove_tuio_object (obj : TuioObject) : M unit := _handle_obj Remove obj.

(** The listener called back for a sequence of tracking events. *)
Fixpoint handle_all (events : list (EventKind * TuioObject)) : M unit :=
  match events with
  | [] => ret tt
  | (event_type, obj) :: rest => _handle_obj event_type obj ;; handle_all rest
  end.

(* ------------------------------------------------------------------ *)
(** ** The $1 recognizer *)

Record Point := mkPoint { p_x : R; p_y : R }.

Inductive Exn := ZeroDivisionError | KeyError.

(** The end of a call that may raise.  [OutOfFuel] is the model's own:
    the [while] loop of [_resample] runs on a step budget. *)
Inductive Outcome (A : Type) : Type :=
| Returns (a : A)
| Raises (e : Exn)
| OutOfFuel.

Arguments Returns {A} a.
Arguments Raises {A} e.
Arguments OutOfFuel {A}.

Definition _distance (p1 p2 : Point) : R :=
  sqrt ((p_x p1 - p_x p2) ^ 2 + (p_y p1 - p_y p2) ^ 2).

(** [length += distance(points[i-1], points[i])] for [i] from 1. *)
Fixpoint _path_length (points : list Point) : R :=
  match points with
  | p :: (q :: _) as rest => _distance p q + _path_length rest
  | _ => 0
  end.

(** [list.insert(i, q)]. *)
Definition insert_at {A} (i : nat) (q : A) (l : list A) : list A :=
  firstn i l ++ q :: skipn i l.

Definition origin : Point := mkPoint 0 0.

(** The [while i < len(points)] loop of [_resample].  It returns
    [new_points] together with the list [points] as the loop leaves it:
    [points.insert] changes the caller's list. *)
Fixpoint resample_loop (fuel : nat) (interval : R) (points : list Point)
    (i : nat) (d : R) (new_points : list Point)
  : Outcome (list Point * list Point) :=
  if (i <? List.length points)%nat then
    match fuel with
    | O => OutOfFuel
    | S fuel' =>
        let a := nth (i - 1) points origin in
        let b := nth i points origin in
        let d1 := _distance a b in
        if Rleb interval (d + d1) then
          if Req_dec_T d1 0 then Raises ZeroDivisionError
          else
            let qx := p_x a + ((interval - d) / d1) * (p_x b - p_x a) in
            let qy := p_y a + ((interval - d) / d1) * (p_y b - p_y a) in
            let q := mkPoint qx qy in
            resample_loop fuel' interval (insert_at i q points) (i + 1) 0
                          (new_points ++ [q])
        else
          resample_loop fuel' interval points (i + 1) (d + d1) new_points
    end
  else Returns (new_points, points).

(** [_resample(points, n)]: the returned list and the argument list
    afterwards. *)
Definition _resample (points : list Point) (n : Z)
  : Outcome (list Point * list Point) :=
  if (List.length points <? 2)%nat then Returns (points, points)
  else if (n - 1 =? 0)%Z then Raises ZeroDivisionError
  else
    let interval := _path_length points / IZR (n - 1) in
    match resample_loop (List.length points + Z.to_nat n) interval points 1 0
                        [nth 0 points origin] with
    | Returns (new_points, points') =>
        if (Z.of_nat (List.length new_points) =? n - 1)%Z
        then Returns (new_points ++ [last points' origin], points')
        else Returns (new_points, points')
    | Raises e => Raises e
    | OutOfFuel => OutOfFuel
    end.

(** A score: a float or [float('inf')]. *)
Inductive Score := Fin (r : R) | Inf.

Definition score_ltb (a b : Score) : bool :=
  match a, b with
  | Fin x, Fin y => Rltb x y
  | Fin _, Inf => true
  | Inf, _ => false
  end.

Fixpoint sum_distances (pts1 pts2 : list Point) : R :=
  match pts1, pts2 with
  | p :: pts1', q :: pts2' => _distance p q + sum_distances pts1' pts2'
  | _, _ => 0
  end.

Definition _path_distance (pts1 pts2 : list Point) : Outcome Score :=
  if negb (List.length pts1 =? List.length pts2)%nat then Returns Inf
  else if (List.length pts1 =? 0)%nat then Raises ZeroDivisionError
  else Returns (Fin (sum_distances pts1 pts2 / INR (List.length pts1))).

Record DollarRecognizer := mkRecognizer {
  num_points : Z;
  last_gesture_time : R;
  points : list Point;
  templates : list (string * list Point)
}.

(** [Point(1.0 - i/10.0, 0.5)] and [Point(i/10.0, 0.5)] for [i] in
    [range(11)]. *)
Definition left_points : list Point :=
  map (fun i => mkPoint (1 - INR i / 10) (1 / 2)) (seq 0 11).

Definition right_points : list Point :=
  map (fun i => mkPoint (INR i / 10) (1 / 2)) (seq 0 11).

Definition _create_templates (num_points : Z)
  : Outcome (list (string * list Point)) :=
  match _resample left_points num_points with
  | Returns (left_template, _) =>
      match _resample right_points num_points with
      | Returns (right_template, _) =>
          Returns [("left"%string, left_template);
                   ("right"%string, right_template)]
      | Raises e => Raises e
      | OutOfFuel => OutOfFuel
      end
  | Raises e => Raises e
  | OutOfFuel => OutOfFuel
  end.

(** [DollarRecognizer(num_points)]. *)
Definition __init__ (num_points : Z) : Outcome DollarRecognizer :=
  match _create_templates num_points with
  | Returns templates => Returns (mkRecognizer num_points 0 [] templates)
  | Raises e => Raises e
  | OutOfFuel => OutOfFuel
  end.

(** The loop over [self.templates.items()]: [best_score], [best_gesture]
    and the keys of [scores]. *)
Fixpoint best_match (pts : list Point) (templates : list (string * list Point))
    (best_score : Score) (best_gesture : option string) (scores : list string)
  : Outcome (Score * option string * list string) :=
  match templates with
  | [] => Returns (best_score, best_gesture, scores)
  | (name, template) :: templates' =>
      match _path_distance pts template with
      | Returns distance =>
          if score_ltb distance best_score
          then best_match pts templates' distance (Some name) (name :: scores)
          else best_match pts templates' best_score best_gesture (name :: scores)
      | Raises e => Raises e
      | OutOfFuel => OutOfFuel
      end
  end.

Definition has_key (k : string) (keys : list string) : bool :=
  existsb (String.eqb k) keys.

(** [recognize()], called at time [now]; the recognizer afterwards is
    returned with the result. *)
Definition recognize (now : R) (self : DollarRecognizer)
  : Outcome (option string * DollarRecognizer) :=
  if (List.length (points self) <? 5)%nat then Returns (None, self)
  else
    match _resample (points self) (num_points self) with
    | Returns (pts, buffer) =>
        let self1 := mkRecognizer (num_points self) (last_gesture_time self)
                                  buffer (templates self) in
        match best_match pts (templates self) Inf None [] with
        | Returns (best_score, best_gesture, scores) =>
            if has_key "left" scores && has_key "right" scores then
              if score_ltb best_score (Fin (1 / 2)) then
                Returns (best_gesture,
                         mkRecognizer (num_points self) now [] (templates self))
              else Returns (None, self1)
            else Raises KeyError
        | Raises e => Raises e
        | OutOfFuel => OutOfFuel
        end
    | Raises e => Raises e
    | OutOfFuel => OutOfFuel
    end.

(* ------------------------------------------------------------------ *)
(** ** The hand-tracking loop *)

Record Landmark := mkLandmark { l_x : R; l_y : R; l_z : R }.

(** [hand_landmarks.landmark[i]]. *)
Definition HandLandmarks := nat -> Landmark.

Definition distance_3d (p1 p2 : Landmark) : R :=
  sqrt ((l_x p1 - l_x p2) ^ 2 + (l_y p1 - l_y p2) ^ 2 + (l_z p1 - l_z p2) ^ 2).

(** What one turn of the loop gets from the camera, MediaPipe, the
    keyboard and the clock. *)
Record Observation := mkObservation {
  camera_works : Z -> bool;
  success : bool;
  multi_hand_landmarks : list HandLandmarks;
  key_is_q : bool;
  current_time : R
}.

(** The local variables of [hand_tracking_thread]. *)
Record Tracker := mkTracker {
  base_time_minutes : Z;
  current_time_minutes : Z;
  last_broadcast_time : R;
  broadcast_cooldown : R;
  cap : option Z;
  hands : bool;
  gesture_active : bool;
  frame_count : Z
}.

Definition initial_tracker : Tracker :=
  mkTracker 450 450 0 (1 / 2) None false false 0.

Definition time_str (current_time_minutes : Z) : string :=
  let hours := (current_time_minutes / 60)%Z in
  let minutes := (current_time_minutes mod 60)%Z in
  (fmt_02d hours ++ ":" ++ fmt_02d minutes)%string.

Definition avg_distance (hand_landmarks : HandLandmarks) : R :=
  let thumb_tip := hand_landmarks 4%nat in
  let index_tip := hand_landmarks 8%nat in
  let middle_tip := hand_landmarks 12%nat in
  let ring_tip := hand_landmarks 16%nat in
  let pinky_tip := hand_landmarks 20%nat in
  let palm_base := hand_landmarks 0%nat in
  (distance_3d thumb_tip palm_base + distance_3d index_tip palm_base
   + distance_3d middle_tip palm_base + distance_3d ring_tip palm_base
   + distance_3d pinky_tip palm_base) / 5.

Definition is_fist (hand_landmarks : HandLandmarks) : bool :=
  Rltb (avg_distance hand_landmarks) (15 / 100).

(** The time for a hand position: lines "Map hand position to time
    adjustment" and "Keep time in valid 24-hour range". *)
Definition adjusted_minutes (base_time_minutes : Z) (hand_x : R) : Z :=
  let max_adjustment_minutes := 240 in
  let time_offset := (hand_x - 1 / 2) * 2 * max_adjustment_minutes in
  let current_time_minutes := (base_time_minutes + py_int time_offset)%Z in
  Z.max 0 (Z.min 1439 current_time_minutes).

(** The body of [for hand_landmarks in results.multi_hand_landmarks]. *)
Definition per_hand (now : R) (hand_landmarks : HandLandmarks) (t : Tracker)
  : M Tracker :=
  let wrist := hand_landmarks 0%nat in
  let hand_x := l_x wrist in
  if is_fist hand_landmarks then
    w <- with_lock clients_lock get ;;
    let client_count := List.length (clients w) in
    when (0 <? client_count)%nat
      (broadcast (gesture_time_final (time_str (current_time_minutes t))
                                     (current_time_minutes t)) ;;
       broadcast (gesture_mode_toggled false)) ;;
    with_lock gesture_detection_lock (set_gesture_detection_enabled false) ;;
    ret t
  else
    let current_time_minutes := adjusted_minutes (base_time_minutes t) hand_x in
    let t1 := mkTracker (base_time_minutes t) current_time_minutes
                        (last_broadcast_time t) (broadcast_cooldown t)
                        (cap t) (hands t) (gesture_active t) (frame_count t) in
    if Rleb (broadcast_cooldown t) (now - last_broadcast_time t) then
      broadcast (gesture_time_update (time_str current_time_minutes)
                                     current_time_minutes) ;;
      ret (mkTracker (base_time_minutes t) current_time_minutes
                     now (broadcast_cooldown t)
                     (cap t) (hands t) (gesture_active t) (frame_count t))
    else ret t1.

Fixpoint for_hands (now : R) (hs : list HandLandmarks) (t : Tracker)
  : M Tracker :=
  match hs with
  | [] => ret t
  | h :: hs' => t1 <- per_hand now h t ;; for_hands now hs' t1
  end.

(** The loop over [camera_indices_to_try]. *)
Definition open_camera (works : Z -> bool) : option Z :=
  find works [1%Z; 2%Z; 0%Z; 3%Z].

(** One turn of [while running]. *)
Definition hand_tracking_iteration (obs : Observation) (t : Tracker)
  : M Tracker :=
  w <- with_lock gesture_detection_lock get ;;
  let is_enabled := gesture_detection_enabled w in
  if negb is_enabled then
    if gesture_active t then
      broadcast (gesture_time_final (time_str (current_time_minutes t))
                                    (current_time_minutes t)) ;;
      ret (mkTracker (base_time_minutes t) (current_time_minutes t)
                     (last_broadcast_time t) (broadcast_cooldown t)
                     None (hands t) false (frame_count t))
    else ret t
  else
    let opened :=
      match cap t with
      | Some _ => Some t
      | None =>
          match open_camera (camera_works obs) with
          | None => None
          | Some c =>
              Some (mkTracker 450 450 (last_broadcast_time t)
                              (broadcast_cooldown t) (Some c) true true 0)
          end
      end in
    match opened with
    | None => ret t
    | Some t1 =>
        if hands t1 then
          if negb (success obs) then ret t1
          else
            let t2 := mkTracker (base_time_minutes t1) (current_time_minutes t1)
                                (last_broadcast_time t1) (broadcast_cooldown t1)
                                (cap t1) (hands t1) (gesture_active t1)
                                (frame_count t1 + 1) in
            t3 <- for_hands (current_time obs) (multi_hand_landmarks obs) t2 ;;
            when (key_is_q obs)
              (with_lock gesture_detection_lock
                 (set_gesture_detection_enabled false)) ;;
            ret t3
        else ret t1
    end.

(** Successive turns of the loop, with nothing else running between. *)
Fixpoint hand_tracking_thread (observations : list Observation) (t : Tracker)
  : M Tracker :=
  match observations with
  | [] => ret t
  | obs :: rest =>
      t1 <- hand_tracking_iteration obs t ;; hand_tracking_thread rest t1
  end.

(* ------------------------------------------------------------------ *)
(** ** Notions used to state the properties *)

Definition with_clients (cs : list Client) (w : World) : World :=
  mkWorld cs (socket_ok w) (latest_objects w) (gesture_detection_enabled w).

Definition sends (data : Data) (w : World) (cs : list Client) : list Action :=
  map (fun c => SendAll c data (socket_ok w c)) cs.

(** The send attempts of a trace: to whom, and what. *)
Fixpoint attempts (t : list Action) : list (Client * Data) :=
  match t with
  | [] => []
  | SendAll c data _ :: t' => (c, data) :: attempts t'
  | _ :: t' => attempts t'
  end.

(** A computation that leaves the registry as it found it. *)
Definition keeps_registry {A} (m : M A) : Prop :=
  forall w, latest_objects (exec m w) = latest_objects w.

(** The record that the registry should hold for [s] after [events],
    when it held [before]: the latest add or update with that session id,
    unless a remove came after it. *)
Fixpoint latest_for (s : SessionId) (events : list (EventKind * TuioObject))
    (before : option TuioRecord) : option TuioRecord :=
  match events with
  | [] => before
  | (event_type, obj) :: rest =>
      match make_record event_type obj with
      | Some record =>
          if session_eqb s (r_session_id record)
          then latest_for s rest
                 (if is_add_or_update event_type then Some record else None)
          else latest_for s rest before
      | None => latest_for s rest before
      end
  end.

(** A computation that leaves the registry alone and whose broadcasts are
    a function of the registry. *)
Definition emits (m : M unit) (f : Dict -> list Event) : Prop :=
  keeps_registry m /\ forall w, published (trace m w) = f (latest_objects w).

(** What the patient-wheel scan broadcasts for one registry entry. *)
Definition patient_confirms (record : TuioRecord)
    (entry : SessionId * TuioRecord) : list Event :=
  let sector := snd (wheel_sector (r_angle record)) in
  if (r_symbol_id (snd entry) =? SELECT_SYMBOL)%Z && near (snd entry) record
  then [wheel_select_confirm sector (medication_at sector) "patient"]
  else [].

(** What the nurse-wheel scan broadcasts for one registry entry. *)
Definition nurse_confirms (record : TuioRecord)
    (entry : SessionId * TuioRecord) : list Event :=
  let sector := snd (wheel_sector (r_angle record)) in
  if (r_symbol_id (snd entry) =? VIEW_PATIENT_INFO_SYMBOL)%Z then
    if near (snd entry) record
    then [nurse_wheel_select_confirm sector (medication_at sector)]
    else []
  else if (r_symbol_id (snd entry) =? EDIT_MEDICATIONS_SYMBOL)%Z then
    if near (snd entry) record
    then [nurse_edit_med_select sector (medication_at sector)]
    else []
  else [].

Definition is_wheel_select_confirm (e : Event) : bool :=
  match e with wheel_select_confirm _ _ _ => true | _ => false end.

Definition is_nurse_confirm (e : Event) : bool :=
  match e with
  | nurse_wheel_select_confirm _ _ | nurse_edit_med_select _ _ => true
  | _ => false
  end.

(** Lock discipline.  [lock_run allowed held t] follows the locks held
    along [t], newest first, and gives [None] as soon as a lock is taken
    that [allowed] refuses, or a lock is released that is not the newest. *)
Definition lock_step (allowed : list Lock -> Lock -> bool)
    (held : list Lock) (a : Action) : option (list Lock) :=
  match a with
  | Acquire l => if allowed held l then Some (l :: held) else None
  | Release l =>
      match held with
      | l' :: held' => if lock_eqb l l' then Some held' else None
      | [] => None
      end
  | _ => Some held
  end.

Fixpoint lock_run (allowed : list Lock -> Lock -> bool)
    (held : list Lock) (t : list Action) : option (list Lock) :=
  match t with
  | [] => Some held
  | a :: t' =>
      match lock_step allowed held a with
      | Some held' => lock_run allowed held' t'
      | None => None
      end
  end.

Definition holds (l : Lock) (held : list Lock) : bool :=
  existsb (lock_eqb l) held.

(** The discipline of the specification: the registry lock and the hub
    lock are never held together. *)
Definition apart (held : list Lock) (l : Lock) : bool :=
  negb (holds latest_objects_lock (l :: held)
        && holds clients_lock (l :: held)).

(** The discipline of the program: the only lock taken while another is
    held is the hub lock, inside the registry lock. *)
Definition nested (held : list Lock) (l : Lock) : bool :=
  match held with
  | [] => true
  | [latest_objects_lock] => lock_eqb l clients_lock
  | _ => false
  end.

(** A computation that takes no lock but the hub's, and releases it. *)
Definition hub_only {A} (m : M A) : Prop :=
  forall w,
    lock_run nested [] (trace m w) = Some []
    /\ lock_run nested [latest_objects_lock] (trace m w)
       = Some [latest_objects_lock].

(** A computation that follows [nested] when it starts with no lock. *)
Definition lock_safe {A} (m : M A) : Prop :=
  forall w, lock_run nested [] (trace m w) = Some [].

(** A wheel marker and a selector marker 0.05 apart, as the tracker
    reports them. *)
Definition marker_object (id session : Z) (x y angle : R) : TuioObject :=
  mkObject None None (Some (Some id)) None (Some session)
           (Some x) None None (Some y) None None (Some angle).

Definition wheel_marker : TuioObject :=
  marker_object ROTATE_SYMBOL 1 (1 / 2) (1 / 2) 0.

Definition selector_marker : TuioObject :=
  marker_object SELECT_SYMBOL 2 (53 / 100) (54 / 100) 0.

Definition wheel_record (event_type : EventKind) : TuioRecord :=
  mkRecord event_type ROTATE_SYMBOL (Some 1%Z) (1 / 2) (1 / 2) 0.

Definition selector_record : TuioRecord :=
  mkRecord Add SELECT_SYMBOL (Some 2%Z) (53 / 100) (54 / 100) 0.

(** One connected client, and the selector already on the table. *)
Definition selector_on_table : World :=
  mkWorld [7%nat] (fun _ => true) [(Some 2%Z, selector_record)] false.

(** The minutes as the specification computes them: with [round] where
    the program has [int]. *)
Definition spec_minutes (x : R) : Z :=
  Z.max 0 (Z.min 1439 (450 + py_round ((x - 1 / 2) * 2 * 240))).

Definition is_final (e : Event) : bool :=
  match e with gesture_time_final _ _ => true | _ => false end.

(** A hand held open at horizontal position [x], and a closed one. *)
Definition open_hand (x : R) : HandLandmarks :=
  fun i => match i with
           | O => mkLandmark x (1 / 2) 0
           | _ => mkLandmark x 0 0
           end.

Definition closed_hand : HandLandmarks :=
  fun _ => mkLandmark (1 / 2) (1 / 2) 0.

(** Four turns of the loop: the camera opens, a hand at the right edge,
    then a fist, then one more turn. *)
Definition commit_session : list Observation :=
  [ mkObservation (fun _ => true) true [] false 10;
    mkObservation (fun _ => true) true [open_hand 1] false 11;
    mkObservation (fun _ => true) true [closed_hand] false 12;
    mkObservation (fun _ => true) true [] false 13 ].

(** Gesture detection switched on, one client connected. *)
Definition gesture_world : World :=
  mkWorld [7%nat] (fun _ => true) [] true.

Definition with_flag (b : bool) (w : World) : World :=
  mkWorld (clients w) (socket_ok w) (latest_objects w) b.

(** The [gesture_time_final] event for the time the tracker holds. *)
Definition final_of (t : Tracker) : Event :=
  gesture_time_final (time_str (current_time_minutes t))
                     (current_time_minutes t).

(** The two broadcasts of the closed-palm branch, made when a client is
    connected. *)
Definition commit_broadcasts (t : Tracker) (w : World) : M unit :=
  when (0 <? List.length (clients w))%nat
    (broadcast (final_of t) ;; broadcast (gesture_mode_toggled false)).

Definition count_frame (t : Tracker) : Tracker :=
  mkTracker (base_time_minutes t) (current_time_minutes t)
            (last_broadcast_time t) (broadcast_cooldown t)
            (cap t) (hands t) (gesture_active t) (frame_count t + 1).

(** The point at fraction [t] of the segment from [a] to [b]: the
    [Point(qx, qy)] of [_resample]. *)
Definition lerp (a b : Point) (t : R) : Point :=
  mkPoint (p_x a + t * (p_x b - p_x a)) (p_y a + t * (p_y b - p_y a)).

(** [at_arc points s q]: [q] is the point of the polyline [points] at arc
    length [s] from its first vertex. *)
Inductive at_arc : list Point -> R -> Point -> Prop :=
| at_here p q rest t :
    0 <= t <= 1 -> at_arc (p :: q :: rest) (t * _distance p q) (lerp p q t)
| at_later p q rest s r :
    at_arc (q :: rest) s r -> at_arc (p :: q :: rest) (_distance p q + s) r.

(** The loop of [_resample] on a list split at the index: [before] is
    [points[:i-1]], [prev] is [points[i-1]] and [rest] is [points[i:]]. *)
Fixpoint walk (fuel : nat) (interval : R) (before : list Point) (prev : Point)
    (rest : list Point) (d : R) (new_points : list Point)
  : Outcome (list Point * list Point) :=
  match rest with
  | [] => Returns (new_points, before ++ [prev])
  | p :: rest' =>
      match fuel with
      | O => OutOfFuel
      | S fuel' =>
          let d1 := _distance prev p in
          if Rleb interval (d + d1) then
            if Req_dec_T d1 0 then Raises ZeroDivisionError
            else
              let q := lerp prev p ((interval - d) / d1) in
              walk fuel' interval (before ++ [prev]) q (p :: rest') 0
                   (new_points ++ [q])
          else walk fuel' interval (before ++ [prev]) p rest' (d + d1)
                    new_points
      end
  end.

(** What the loop of [_resample] keeps true, for the polyline [P] it
    started from, the interval [I], and its state: the list so far is [P]
    with points put on its segments, the points found are at the
    multiples of [I], and [d] is the way from the last of them to
    [prev]. *)
Record walk_inv (P : list Point) (I : R) (before : list Point) (prev : Point)
    (rest : list Point) (d : R) (new_points : list Point) : Prop := {
  inv_refines :
    forall s r, at_arc (before ++ prev :: rest) s r -> at_arc P s r;
  inv_total : _path_length (before ++ prev :: rest) = _path_length P;
  inv_pos :
    _path_length (before ++ [prev])
    = INR (List.length new_points - 1) * I + d;
  inv_nonempty : (1 <= List.length new_points)%nat;
  inv_d : 0 <= d < I;
  inv_arc :
    forall k, (k < List.length new_points)%nat ->
              at_arc P (INR k * I) (nth k new_points origin);
  inv_len :
    List.length (before ++ prev :: rest)
    = (List.length P + (List.length new_points - 1))%nat;
  inv_head : nth 0 new_points origin = nth 0 P origin
}.

(** The mean pointwise distance of [_path_distance], infinite when the
    counts differ. *)
Definition template_score (pts template : list Point) : Score :=
  if negb (List.length pts =? List.length template)%nat then Inf
  else Fin (sum_distances pts template / INR (List.length pts)).

(** Five points along a horizontal line far above the templates, and
    five points at one place. *)
Definition far_stroke : list Point :=
  [ mkPoint 0 2; mkPoint (1 / 4) 2; mkPoint (1 / 2) 2; mkPoint (3 / 4) 2;
    mkPoint 1 2 ].

Definition still_stroke : list Point := repeat (mkPoint (1 / 2) (1 / 2)) 5.


(* ------------------------------------------------------------------ *)
(** ** The client list: accepting and dropping connections *)

(** [tcp_acceptor], for one accepted connection: [clients.append(conn)]
    under the lock. *)
Definition accept_client (conn : Client) : M unit :=
  with_lock clients_lock (w <- get ;; set_clients (clients w ++ [conn])).

(** The [finally] block of [client_reader_thread]:
    [if conn in clients: clients.remove(conn)] under the lock. *)
Definition client_reader_exit (conn : Client) : M unit :=
  with_lock clients_lock
    (w <- get ;;
     when (existsb (Nat.eqb conn) (clients w))
          (set_clients (list_remove conn (clients w)))).

(** A record that no rule of [process_logic_and_broadcast] reacts to. *)
Definition no_rule (record : TuioRecord) : bool :=
  let sid := r_symbol_id record in
  let evt := r_event record in
  negb (((sid =? ROTATE_SYMBOL)%Z && is_add_or_update evt)
        || ((sid =? NURSE_MODE_SYMBOL)%Z && is_add_or_update evt)
        || ((sid =? BACK_SYMBOL)%Z && is_add evt)
        || ((sid =? EDIT_MEDICATIONS_SYMBOL)%Z && is_add evt)).

(** A polyline that runs one way along the x axis: to the right for
    [dir] 1, to the left for [dir] -1. *)
Fixpoint heading (dir : R) (l : list Point) : Prop :=
  match l with
  | p :: (q :: _) as rest => 0 <= dir * (p_x q - p_x p) /\ heading dir rest
  | _ => True
  end.

(** Five points of a hand moving from the right edge to the left edge at
    a quarter of the height, with a pause on the way. *)
Definition left_swipe : list Point :=
  [ mkPoint 1 (1 / 4); mkPoint (7 / 10) (1 / 4); mkPoint (7 / 10) (1 / 4);
    mkPoint (1 / 5) (1 / 4); mkPoint 0 (1 / 4) ].

(* ------------------------------------------------------------------ *)
(** ** The hand-tracking loop: what it keeps *)

(** What holds of the local variables of [hand_tracking_thread] at the
    head of every turn. *)
Definition tracker_ok (t : Tracker) : Prop :=
  base_time_minutes t = 450%Z
  /\ (0 <= current_time_minutes t <= 1439)%Z
  /\ (0 <= frame_count t)%Z
  /\ broadcast_cooldown t = 1 / 2
  /\ (gesture_active t = true <-> cap t <> None)
  /\ (cap t <> None -> hands t = true).

(** The events that the loop sends. *)
Definition loop_event (e : Event) : Prop :=
  e = gesture_mode_toggled false
  \/ exists m, (0 <= m <= 1439)%Z
       /\ (e = gesture_time_update (time_str m) m
           \/ e = gesture_time_final (time_str m) m).

(** A computation that sends only such events, and leaves the registry
    and the sockets alone, adds no client and never switches gesture
    detection on. *)
Definition quiet {A} (m : M A) : Prop :=
  forall w,
    Forall loop_event (published (trace m w))
    /\ latest_objects (exec m w) = latest_objects w
    /\ socket_ok (exec m w) = socket_ok w
    /\ incl (clients (exec m w)) (clients w)
    /\ (gesture_detection_enabled (exec m w) = true ->
        gesture_detection_enabled w = true).

(** One schedule of the listener thread and the hand-tracking thread: a
    marker event, a turn of the loop, a second marker event, a second
    turn. *)
Definition marker_session (first second : TuioRecord)
    (obs1 obs2 : Observation) (t : Tracker) : M Tracker :=
  process_logic_and_broadcast first ;;
  t1 <- hand_tracking_iteration obs1 t ;;
  process_logic_and_broadcast second ;;
  hand_tracking_iteration obs2 t1.

(** A hand moved as a whole. *)
Definition translate (dx dy dz : R) (h : HandLandmarks) : HandLandmarks :=
  fun i => mkLandmark (l_x (h i) + dx) (l_y (h i) + dy) (l_z (h i) + dz).

(** The landmarks that the closed-palm test reads next to the wrist. *)
Definition fingertips : list nat := [4; 8; 12; 16; 20]%nat.

(** The text "HH:MM" for a minute of the day, digit by digit. *)
Definition digit (d : Z) : ascii := ascii_of_nat (48 + Z.to_nat d).

Definition hh_mm (m : Z) : string :=
  String (digit (m / 600))
    (String (digit (m / 60 mod 10))
       (String ":"
          (String (digit (m mod 60 / 10))
             (String (digit (m mod 10)) EmptyString)))).

(** A computation that leaves the gesture flag as it found it. *)
Definition keeps_flag {A} (m : M A) : Prop :=
  forall w, gesture_detection_enabled (exec m w) = gesture_detection_enabled w.

(** The discipline of the hand-tracking loop and of the connection
    handlers: no lock is taken while a lock is held. *)
Definition single (held : list Lock) (l : Lock) : bool :=
  match held with
  | [] => true
  | _ :: _ => false
  end.

(** A computation that follows [single] and ends with no lock held. *)
Definition one_lock {A} (m : M A) : Prop :=
  forall w, lock_run single [] (trace m w) = Some [].

(** A computation that takes and releases no lock. *)
Definition lockless {A} (m : M A) : Prop :=
  forall w held, lock_run single held (trace m w) = Some held.


(* ================================================================== *)
(** * Properties *)

(* ------------------------------------------------------------------ *)
(** ** Numbers *)

Lemma two_pi_pos : 0 < 2 * PI.
Proof. pose proof PI_RGT_0; lra. Qed.

Lemma NUM_WHEEL_SECTORS_eq : NUM_WHEEL_SECTORS = 6%Z.
Proof. reflexivity. Qed.

Lemma Rltb_true_iff a b : Rltb a b = true <-> a < b.
Proof. unfold Rltb; destruct (Rlt_dec a b); split; intros; easy. Qed.

Lemma Rltb_false_iff a b : Rltb a b = false <-> b <= a.
Proof.
  unfold Rltb; destruct (Rlt_dec a b); split; intros; try easy; lra.
Qed.

Lemma Rleb_true_iff a b : Rleb a b = true <-> a <= b.
Proof. unfold Rleb; destruct (Rle_dec a b); split; intros; easy. Qed.

Lemma Rleb_false_iff a b : Rleb a b = false <-> b < a.
Proof.
  unfold Rleb; destruct (Rle_dec a b); split; intros; try easy; lra.
Qed.

Lemma py_int_nonneg x : 0 <= x -> py_int x = Zfloor x.
Proof. intros H; unfold py_int; destruct (Rle_dec 0 x); easy. Qed.

Lemma py_int_neg x : x < 0 -> py_int x = Zceil x.
Proof. intros H; unfold py_int; destruct (Rle_dec 0 x); [lra | easy]. Qed.

Lemma py_mod_bounds x y : 0 < y -> 0 <= py_mod x y < y.
Proof.
  intros Hy; unfold py_mod.
  destruct (Zfloor_bound (x / y)) as [Hlo Hhi].
  assert (Hx : x = x / y * y) by (field; lra).
  split.
  - apply (Rmult_le_compat_r y) in Hlo; lra.
  - apply (Rmult_lt_compat_r y) in Hhi; lra.
Qed.

Lemma py_mod_small x y : 0 <= x < y -> py_mod x y = x.
Proof.
  intros [H0 Hy]; unfold py_mod.
  rewrite (Zfloor_eq 0); [simpl; ring|].
  simpl; split.
  - apply Rmult_le_pos; [lra|]. left; apply Rinv_0_lt_compat; lra.
  - apply (Rmult_lt_reg_r y); [lra|]. field_simplify; lra.
Qed.

Lemma py_mod_self y : 0 < y -> py_mod y y = 0.
Proof.
  intros Hy; unfold py_mod.
  replace (y / y) with (IZR 1) by (field; lra).
  rewrite ZfloorZ; simpl; ring.
Qed.

(** The scaled fraction of a normalized angle lies in [[0, 6)]. *)
Lemma scaled_frac_bounds theta :
  0 <= theta < 2 * PI -> 0 <= theta / (2 * PI) * 6 < 6.
Proof.
  intros [H0 H1]; pose proof two_pi_pos as Hp.
  assert (Hf : 0 <= theta / (2 * PI) < 1).
  { split.
    - apply Rmult_le_pos; [lra|]. left; apply Rinv_0_lt_compat; lra.
    - apply (Rmult_lt_reg_r (2 * PI)); [lra|]. field_simplify; lra. }
  lra.
Qed.

Lemma wheel_sector_fst angle : fst (wheel_sector angle) = py_mod angle (2 * PI).
Proof. reflexivity. Qed.

Lemma wheel_sector_snd angle :
  snd (wheel_sector angle)
  = Zfloor (py_mod angle (2 * PI) / (2 * PI) * 6).
Proof.
  unfold wheel_sector; cbn [snd]; rewrite NUM_WHEEL_SECTORS_eq.
  pose proof (py_mod_bounds angle (2 * PI) two_pi_pos) as Hb.
  pose proof (scaled_frac_bounds _ Hb) as [Hs0 Hs1].
  rewrite py_int_nonneg by lra.
  apply Z.mod_small.
  split.
  - apply Zfloor_lub; simpl; lra.
  - assert (IZR (Zfloor (py_mod angle (2 * PI) / (2 * PI) * 6)) < IZR 6).
    { pose proof (Zfloor_bound (py_mod angle (2 * PI) / (2 * PI) * 6)); lra. }
    now apply lt_IZR.
Qed.

Lemma wheel_sector_range angle : (0 <= snd (wheel_sector angle) < 6)%Z.
Proof.
  unfold wheel_sector; cbn [snd]; rewrite NUM_WHEEL_SECTORS_eq.
  apply Z.mod_pos_bound; lia.
Qed.

Lemma wheel_sector_0 : wheel_sector 0 = (0, 0%Z).
Proof.
  assert (H : py_mod 0 (2 * PI) = 0)
    by (apply py_mod_small; pose proof two_pi_pos; lra).
  apply injective_projections.
  - rewrite wheel_sector_fst; exact H.
  - rewrite wheel_sector_snd, H.
    replace (0 / (2 * PI) * 6) with (IZR 0)
      by (simpl; field; pose proof two_pi_pos; lra).
    now rewrite ZfloorZ.
Qed.


(* ------------------------------------------------------------------ *)
(** ** The effect monad *)

Lemma trace_bind {A B} (m : M A) (k : A -> M B) w :
  trace (bind m k) w = trace m w ++ trace (k (result m w)) (exec m w).
Proof.
  unfold trace, result, exec, bind.
  destruct (m w) as [[a w1] t1]; cbn [fst snd].
  destruct (k a w1) as [[b w2] t2]; reflexivity.
Qed.

Lemma exec_bind {A B} (m : M A) (k : A -> M B) w :
  exec (bind m k) w = exec (k (result m w)) (exec m w).
Proof.
  unfold result, exec, bind.
  destruct (m w) as [[a w1] t1]; cbn [fst snd].
  destruct (k a w1) as [[b w2] t2]; reflexivity.
Qed.

Lemma result_bind {A B} (m : M A) (k : A -> M B) w :
  result (bind m k) w = result (k (result m w)) (exec m w).
Proof.
  unfold result, exec, bind.
  destruct (m w) as [[a w1] t1]; cbn [fst snd].
  destruct (k a w1) as [[b w2] t2]; reflexivity.
Qed.

Lemma run_eta {A} (m : M A) w : m w = (result m w, exec m w, trace m w).
Proof. unfold result, exec, trace; now destruct (m w) as [[a w1] t1]. Qed.

Lemma published_app t1 t2 : published (t1 ++ t2) = published t1 ++ published t2.
Proof.
  induction t1 as [|a t1 IH]; [reflexivity|].
  destruct a; cbn; now rewrite IH.
Qed.

(* ------------------------------------------------------------------ *)
(** ** broadcast *)

Lemma send_loop_run data cs : forall dead w,
  send_loop data cs dead w
  = (dead ++ filter (fun c => negb (socket_ok w c)) cs, w, sends data w cs).
Proof.
  induction cs as [|c cs IH]; intros dead w.
  - cbn; now rewrite app_nil_r.
  - cbn [send_loop]. unfold bind at 1, get. unfold bind at 1, tell.
    rewrite IH. cbn [filter sends map].
    destruct (socket_ok w c); cbn [negb].
    + reflexivity.
    + now rewrite <- app_assoc.
Qed.

Lemma remove_dead_run dead : forall w,
  remove_dead dead w
  = (tt, with_clients (fold_left (fun l c => list_remove c l) dead (clients w)) w,
     []).
Proof.
  induction dead as [|c dead IH]; intros w.
  - cbn. unfold ret, with_clients. now destruct w.
  - cbn [remove_dead]. unfold bind at 1, get. unfold bind at 1, set_clients.
    rewrite IH. reflexivity.
Qed.

Lemma list_remove_skip c pre l :
  Forall (fun c' => c' <> c) pre ->
  list_remove c (pre ++ c :: l) = pre ++ l.
Proof.
  induction 1 as [|c' pre Hc' _ IH]; cbn.
  - now rewrite Nat.eqb_refl.
  - destruct (Nat.eqb_spec c c'); [congruence|]. now rewrite IH.
Qed.

Lemma remove_failed (ok : Client -> bool) cs : forall pre,
  Forall (fun c => ok c = true) pre ->
  fold_left (fun l c => list_remove c l)
            (filter (fun c => negb (ok c)) cs) (pre ++ cs)
  = pre ++ filter ok cs.
Proof.
  induction cs as [|c cs IH]; intros pre Hpre; [reflexivity|].
  cbn [filter]. destruct (ok c) eqn:Hc; cbn [negb].
  - replace (pre ++ c :: cs) with ((pre ++ [c]) ++ cs)
      by now rewrite <- app_assoc.
    rewrite IH.
    + now rewrite <- app_assoc.
    + apply Forall_app; split; [exact Hpre|now constructor].
  - cbn [fold_left]. rewrite list_remove_skip.
    + now apply IH.
    + eapply Forall_impl; [|exact Hpre].
      intros c' Hc' ->; congruence.
Qed.

Lemma broadcast_run obj w :
  broadcast obj w
  = (tt, with_clients (filter (socket_ok w) (clients w)) w,
     JsonDumps obj :: Acquire clients_lock
       :: sends (JsonLine obj) w (clients w) ++ [Release clients_lock]).
Proof.
  unfold broadcast, with_lock.
  unfold bind at 1, tell at 1. unfold bind at 1, tell at 1.
  unfold bind at 1. unfold bind at 1, get.
  unfold bind at 1. rewrite send_loop_run.
  rewrite remove_dead_run.
  unfold bind, tell, ret. cbn [app].
  pose proof (remove_failed (socket_ok w) (clients w) [] (Forall_nil _)) as H.
  cbn [app] in H. rewrite H. now rewrite app_nil_r.
Qed.

Lemma attempts_app t1 t2 : attempts (t1 ++ t2) = attempts t1 ++ attempts t2.
Proof.
  induction t1 as [|a t1 IH]; [reflexivity|].
  destruct a; cbn; now rewrite IH.
Qed.

Lemma attempts_sends data w cs :
  attempts (sends data w cs) = map (fun c => (c, data)) cs.
Proof.
  unfold sends; induction cs as [|c cs IH]; cbn; [reflexivity|now rewrite IH].
Qed.

Lemma published_sends data w cs : published (sends data w cs) = [].
Proof. induction cs as [|c cs IH]; cbn; [reflexivity|exact IH]. Qed.

(** C8.  A publish serializes the event once, tries every client that is
    in the list when the sweep begins (each with the same bytes, whether
    or not an earlier send failed), and leaves as clients exactly those
    whose send succeeded, in their order; nothing else of the state
    changes. *)
Theorem C8_broadcast_sweep :
  forall (obj : Event) (w : World),
    let t := trace (broadcast obj) w in
    let w' := exec (broadcast obj) w in
    published t = [obj] /\
    attempts t = map (fun c => (c, JsonLine obj)) (clients w) /\
    (forall c data ok, In (SendAll c data ok) t -> ok = socket_ok w c) /\
    clients w' = filter (socket_ok w) (clients w) /\
    (forall c, In c (clients w') <->
               In c (clients w) /\ socket_ok w c = true) /\
    (forall c, In c (clients w) -> socket_ok w c = false ->
               ~ In c (clients w')) /\
    latest_objects w' = latest_objects w /\
    gesture_detection_enabled w' = gesture_detection_enabled w.
Proof.
  intros obj w t w'; subst t w'.
  unfold trace, exec; rewrite broadcast_run; cbn [fst snd].
  repeat split.
  - cbn [published]. rewrite published_app, published_sends. reflexivity.
  - cbn [attempts]. rewrite attempts_app, attempts_sends. cbn [attempts].
    now rewrite app_nil_r.
  - intros c data ok [H|[H|H]]; try discriminate.
    apply in_app_or in H as [H|[H|[]]]; [|discriminate].
    unfold sends in H; apply in_map_iff in H as (c' & Heq & _).
    now inversion Heq.
  - cbn in H. now apply filter_In in H.
  - cbn in H. now apply filter_In in H.
  - intros [H1 H2]; cbn. now apply filter_In.
  - intros c Hin Hbad H; cbn in H.
    apply filter_In in H as [_ H]; congruence.
Qed.

(* ------------------------------------------------------------------ *)
(** ** The registry *)

Lemma keeps_ret {A} (a : A) : keeps_registry (ret a).
Proof. intros w; reflexivity. Qed.

Lemma keeps_tell t : keeps_registry (tell t).
Proof. intros w; reflexivity. Qed.

Lemma keeps_get : keeps_registry get.
Proof. intros w; reflexivity. Qed.

Lemma keeps_bind {A B} (m : M A) (k : A -> M B) :
  keeps_registry m -> (forall a, keeps_registry (k a)) ->
  keeps_registry (bind m k).
Proof. intros Hm Hk w. rewrite exec_bind, Hk, Hm. reflexivity. Qed.

Lemma keeps_when b m : keeps_registry m -> keeps_registry (when b m).
Proof. destruct b; [easy|intros _; apply keeps_ret]. Qed.

Lemma keeps_with_lock {A} l (m : M A) :
  keeps_registry m -> keeps_registry (with_lock l m).
Proof.
  intros Hm; unfold with_lock.
  repeat (apply keeps_bind; [|intros ?]);
    first [apply keeps_tell | apply keeps_ret | exact Hm].
Qed.

Lemma keeps_for_each {A} (l : list A) (body : A -> M unit) :
  (forall a, keeps_registry (body a)) -> keeps_registry (for_each l body).
Proof.
  intros Hb; induction l as [|a l IH]; cbn [for_each].
  - apply keeps_ret.
  - apply keeps_bind; auto.
Qed.

Lemma keeps_broadcast obj : keeps_registry (broadcast obj).
Proof. intros w; unfold exec; now rewrite broadcast_run. Qed.

Lemma keeps_set_flag b : keeps_registry (set_gesture_detection_enabled b).
Proof. intros w; reflexivity. Qed.

Create HintDb keeps.
#[local] Hint Resolve keeps_ret keeps_tell keeps_get keeps_when keeps_with_lock
  keeps_for_each keeps_broadcast keeps_set_flag : keeps.

Ltac keeps_tac :=
  repeat first
    [ apply keeps_broadcast
    | apply keeps_when
    | apply keeps_with_lock
    | apply keeps_for_each; intros ?
    | apply keeps_ret
    | apply keeps_get
    | apply keeps_tell
    | apply keeps_set_flag
    | apply keeps_bind; [|intros ?]
    | match goal with
      | |- keeps_registry (let '(_, _) := ?p in _) => destruct p
      | |- keeps_registry (if ?b then _ else _) => destruct b
      end ].

Lemma keeps_process_logic record :
  keeps_registry (process_logic_and_broadcast record).
Proof. unfold process_logic_and_broadcast. keeps_tac. Qed.

Lemma session_eqb_eq a b : session_eqb a b = true <-> a = b.
Proof.
  destruct a as [m|], b as [n|]; cbn; split;
    try congruence; try discriminate.
  - intros H; apply Z.eqb_eq in H; congruence.
  - intros H; inversion H; apply Z.eqb_refl.
Qed.

Lemma session_eqb_refl a : session_eqb a a = true.
Proof. now apply session_eqb_eq. Qed.

Lemma session_eqb_neq a b : session_eqb a b = false <-> a <> b.
Proof.
  split.
  - intros H Heq; apply session_eqb_eq in Heq; congruence.
  - intros H; destruct (session_eqb a b) eqn:E; [|easy].
    apply session_eqb_eq in E; contradiction.
Qed.

Lemma dict_get_set s k v d :
  dict_get s (dict_set k v d)
  = if session_eqb s k then Some v else dict_get s d.
Proof.
  induction d as [|[k' v'] d IH]; cbn.
  - reflexivity.
  - destruct (session_eqb k k') eqn:Ek; cbn.
    + apply session_eqb_eq in Ek; subst k'.
      now destruct (session_eqb s k).
    + rewrite IH. destruct (session_eqb s k') eqn:Es; [|reflexivity].
      apply session_eqb_eq in Es; subst k'.
      destruct (session_eqb s k) eqn:Esk; [|reflexivity].
      apply session_eqb_eq in Esk; subst k.
      rewrite session_eqb_refl in Ek; discriminate.
Qed.

Lemma keys_dict_set k v d :
  map fst (dict_set k v d)
  = if existsb (session_eqb k) (map fst d) then map fst d
    else map fst d ++ [k].
Proof.
  induction d as [|[k' v'] d IH]; cbn; [reflexivity|].
  destruct (session_eqb k k') eqn:Ek; cbn.
  - apply session_eqb_eq in Ek; now subst.
  - rewrite IH. now destruct (existsb (session_eqb k) (map fst d)).
Qed.

Lemma existsb_session k l : existsb (session_eqb k) l = true <-> In k l.
Proof.
  rewrite existsb_exists; split.
  - intros (x & Hin & Heq); apply session_eqb_eq in Heq; now subst.
  - intros Hin; exists k; split; [easy|apply session_eqb_refl].
Qed.

Lemma NoDup_dict_set k v d :
  NoDup (map fst d) -> NoDup (map fst (dict_set k v d)).
Proof.
  intros Hnd; rewrite keys_dict_set.
  destruct (existsb (session_eqb k) (map fst d)) eqn:E; [easy|].
  apply NoDup_app; repeat split; try easy.
  - repeat constructor; easy.
  - intros x Hx [<-|[]].
    apply existsb_session in Hx; congruence.
Qed.

Lemma dict_pop_absent k d : ~ In k (map fst d) -> dict_pop k d = d.
Proof.
  induction d as [|[k' v'] d IH]; cbn; [easy|].
  intros Hn. destruct (session_eqb k k') eqn:Ek.
  - apply session_eqb_eq in Ek; subst; tauto.
  - rewrite IH; tauto.
Qed.

Lemma keys_dict_pop_incl k d x :
  In x (map fst (dict_pop k d)) -> In x (map fst d).
Proof.
  induction d as [|[k' v'] d IH]; cbn; [easy|].
  destruct (session_eqb k k'); cbn; tauto.
Qed.

Lemma NoDup_dict_pop k d :
  NoDup (map fst d) -> NoDup (map fst (dict_pop k d)).
Proof.
  induction d as [|[k' v'] d IH]; cbn; [easy|].
  intros Hnd; inversion Hnd as [|? ? Hnotin Hnd']; subst.
  destruct (session_eqb k k'); cbn; [easy|].
  constructor; [|auto].
  intros Hin; apply Hnotin; eapply keys_dict_pop_incl; eassumption.
Qed.

Lemma dict_get_None s d : dict_get s d = None <-> ~ In s (map fst d).
Proof.
  induction d as [|[k' v'] d IH]; cbn; [tauto|].
  destruct (session_eqb s k') eqn:E.
  - apply session_eqb_eq in E; subst. split; [discriminate|tauto].
  - apply session_eqb_neq in E. rewrite IH. split; [|tauto].
    intros H [H1|H1]; [congruence|tauto].
Qed.

Lemma dict_get_pop s k d :
  NoDup (map fst d) ->
  dict_get s (dict_pop k d) = if session_eqb s k then None else dict_get s d.
Proof.
  induction d as [|[k' v'] d IH]; cbn; intros Hnd.
  - now destruct (session_eqb s k).
  - inversion Hnd as [|? ? Hnotin Hnd']; subst.
    destruct (session_eqb k k') eqn:Ek.
    + apply session_eqb_eq in Ek; subst k'.
      destruct (session_eqb s k) eqn:Es; [|reflexivity].
      apply session_eqb_eq in Es; subst s.
      now apply dict_get_None.
    + cbn. rewrite IH by assumption.
      destruct (session_eqb s k') eqn:Es; [|reflexivity].
      apply session_eqb_eq in Es; subst k'.
      destruct (session_eqb s k) eqn:Esk; [|reflexivity].
      apply session_eqb_eq in Esk; subst k.
      rewrite session_eqb_refl in Ek; discriminate.
Qed.

Lemma make_record_event event_type obj record :
  make_record event_type obj = Some record ->
  r_event record = event_type /\ r_session_id record = session_id obj.
Proof.
  unfold make_record; destruct (find_symbol_id obj); [|discriminate].
  intros H; inversion H; now cbn.
Qed.

(** What one callback does to the registry. *)
Lemma handle_obj_registry event_type obj w :
  latest_objects (exec (_handle_obj event_type obj) w)
  = match make_record event_type obj with
    | None => latest_objects w
    | Some record =>
        if is_add_or_update event_type
        then dict_set (r_session_id record) record (latest_objects w)
        else dict_pop (r_session_id record) (latest_objects w)
    end.
Proof.
  unfold _handle_obj. destruct (make_record event_type obj) as [record|].
  - rewrite exec_bind, keeps_process_logic.
    unfold with_lock, exec, bind, tell, get, ret.
    destruct (is_add_or_update event_type); reflexivity.
  - reflexivity.
Qed.

Lemma handle_all_cons event_type obj rest w :
  exec (handle_all ((event_type, obj) :: rest)) w
  = exec (handle_all rest) (exec (_handle_obj event_type obj) w).
Proof. cbn [handle_all]. now rewrite exec_bind. Qed.

Lemma handle_obj_NoDup event_type obj w :
  NoDup (map fst (latest_objects w)) ->
  NoDup (map fst (latest_objects (exec (_handle_obj event_type obj) w))).
Proof.
  intros Hnd. rewrite handle_obj_registry.
  destruct (make_record event_type obj) as [record|]; [|exact Hnd].
  destruct (is_add_or_update event_type);
    auto using NoDup_dict_set, NoDup_dict_pop.
Qed.

Lemma handle_all_registry events : forall w,
  NoDup (map fst (latest_objects w)) ->
  NoDup (map fst (latest_objects (exec (handle_all events) w))) /\
  forall s,
    dict_get s (latest_objects (exec (handle_all events) w))
    = latest_for s events (dict_get s (latest_objects w)).
Proof.
  induction events as [|[event_type obj] rest IH]; intros w Hnd.
  - now split.
  - rewrite handle_all_cons.
    pose proof (handle_obj_NoDup event_type obj w Hnd) as Hnd1.
    destruct (IH _ Hnd1) as [IH1 IH2].
    split; [exact IH1|].
    intros s. rewrite IH2. cbn [latest_for].
    rewrite handle_obj_registry.
    destruct (make_record event_type obj) as [record|]; [|reflexivity].
    destruct (is_add_or_update event_type).
    + rewrite dict_get_set. now destruct (session_eqb s (r_session_id record)).
    + rewrite dict_get_pop by assumption.
      now destruct (session_eqb s (r_session_id record)).
Qed.

Lemma latest_for_app s events1 : forall events2 before,
  latest_for s (events1 ++ events2) before
  = latest_for s events2 (latest_for s events1 before).
Proof.
  induction events1 as [|[event_type obj] rest IH]; intros events2 before.
  - reflexivity.
  - cbn [app latest_for].
    destruct (make_record event_type obj) as [record|]; [|apply IH].
    destruct (session_eqb s (r_session_id record)); apply IH.
Qed.

Lemma latest_for_quiet s events :
  (forall event_type obj,
      In (event_type, obj) events ->
      is_add_or_update event_type = true -> session_id obj <> s) ->
  latest_for s events None = None.
Proof.
  induction events as [|[event_type obj] rest IH]; intros Hq; [reflexivity|].
  cbn [latest_for].
  assert (Hrest : latest_for s rest None = None)
    by (apply IH; intros e o Hin; apply Hq; now right).
  destruct (make_record event_type obj) as [record|] eqn:Hrec; [|exact Hrest].
  destruct (session_eqb s (r_session_id record)) eqn:Es; [|exact Hrest].
  destruct (is_add_or_update event_type) eqn:Ek; [|exact Hrest].
  exfalso. apply session_eqb_eq in Es.
  apply make_record_event in Hrec as [_ Hsid].
  apply (Hq event_type obj); [now left|exact Ek|congruence].
Qed.

(** C3.  After any sequence of tracking events (on a registry with one
    entry per session id to begin with), the registry has at most one
    entry per session id, and the entry of a session id is the record of
    its latest add or update, if no remove came after; a remove for a
    session id that is not in the registry changes nothing; and once a
    session id is removed, it is in no later registry scan until an add or
    an update brings it back. *)
Theorem C3_registry_latest :
  forall (events : list (EventKind * TuioObject)) (w : World),
    NoDup (map fst (latest_objects w)) ->
    let w' := exec (handle_all events) w in
    NoDup (map fst (latest_objects w')) /\
    (forall s, dict_get s (latest_objects w')
               = latest_for s events (dict_get s (latest_objects w))) /\
    (forall s, In s (map fst (latest_objects w'))
               <-> dict_get s (latest_objects w') <> None) /\
    (forall obj, ~ In (session_id obj) (map fst (latest_objects w')) ->
                 latest_objects (exec (remove_tuio_object obj) w')
                 = latest_objects w') /\
    (forall before obj after,
        events = before ++ (Remove, obj) :: after ->
        find_symbol_id obj <> None ->
        (forall event_type obj',
            In (event_type, obj') after ->
            is_add_or_update event_type = true ->
            session_id obj' <> session_id obj) ->
        ~ In (session_id obj) (map fst (latest_objects w'))).
Proof.
  intros events w Hnd w'; subst w'.
  destruct (handle_all_registry events w Hnd) as [Hnd' Hget].
  repeat split.
  - exact Hnd'.
  - exact Hget.
  - intros Hin Hnone; now apply dict_get_None in Hnone.
  - intros Hsome.
    destruct (in_dec (fun a b : SessionId =>
                        ltac:(repeat decide equality) : {a = b} + {a <> b})
                     s (map fst (latest_objects (exec (handle_all events) w))))
      as [Hin|Hnin]; [exact Hin|].
    now apply dict_get_None in Hnin.
  - intros obj Hnin.
    unfold remove_tuio_object. rewrite handle_obj_registry.
    destruct (make_record Remove obj) as [record|] eqn:Hrec; [|reflexivity].
    cbn [is_add_or_update].
    apply make_record_event in Hrec as [_ Hsid].
    apply dict_pop_absent. now rewrite Hsid.
  - intros before obj after Hev Hid Hquiet.
    apply dict_get_None. rewrite Hget, Hev, latest_for_app.
    cbn [latest_for].
    unfold make_record at 1.
    destruct (find_symbol_id obj) as [sym|]; [|contradiction].
    cbn [r_session_id is_add_or_update]. rewrite session_eqb_refl.
    now apply latest_for_quiet.
Qed.

(* ------------------------------------------------------------------ *)
(** ** What the wheel logic broadcasts *)

Lemma trace_with_lock {A} l (m : M A) w :
  trace (with_lock l m) w = Acquire l :: trace m w ++ [Release l].
Proof.
  unfold with_lock, trace, bind, tell, ret.
  destruct (m w) as [[a w1] t1]; reflexivity.
Qed.

Lemma exec_with_lock {A} l (m : M A) w : exec (with_lock l m) w = exec m w.
Proof.
  unfold with_lock, exec, bind, tell, ret.
  now destruct (m w) as [[a w1] t1].
Qed.

Lemma result_with_lock {A} l (m : M A) w :
  result (with_lock l m) w = result m w.
Proof.
  unfold with_lock, result, bind, tell, ret.
  now destruct (m w) as [[a w1] t1].
Qed.

Lemma published_with_lock {A} l (m : M A) w :
  published (trace (with_lock l m) w) = published (trace m w).
Proof.
  rewrite trace_with_lock. cbn [published].
  rewrite published_app. cbn. now rewrite app_nil_r.
Qed.

Lemma published_broadcast obj w : published (trace (broadcast obj) w) = [obj].
Proof.
  unfold trace; rewrite broadcast_run; cbn [snd published].
  now rewrite published_app, published_sends.
Qed.

Lemma emits_broadcast obj : emits (broadcast obj) (fun _ => [obj]).
Proof. split; [apply keeps_broadcast|intros w; apply published_broadcast]. Qed.

Lemma emits_ret : emits (ret tt) (fun _ => []).
Proof. split; [apply keeps_ret|reflexivity]. Qed.

Lemma emits_seq (m k : M unit) f g :
  emits m f -> emits k g -> emits (m ;; k) (fun d => f d ++ g d).
Proof.
  intros [Hm1 Hm2] [Hk1 Hk2]; split.
  - apply keeps_bind; auto.
  - intros w. rewrite trace_bind, published_app, Hm2, Hk2, Hm1. reflexivity.
Qed.

Lemma emits_ext (m : M unit) f g :
  emits m f -> (forall d, f d = g d) -> emits m g.
Proof. intros [H1 H2] Hfg; split; [exact H1|]. intros w; now rewrite H2. Qed.

Lemma emits_when b (m : M unit) f :
  emits m f -> emits (when b m) (fun d => if b then f d else []).
Proof. destruct b; [easy|intros _; apply emits_ret]. Qed.

Lemma emits_for_each {A} (l : list A) (body : A -> M unit) (f : A -> list Event) :
  (forall a, emits (body a) (fun _ => f a)) ->
  emits (for_each l body) (fun _ => flat_map f l).
Proof.
  intros Hb; induction l as [|a l IH]; cbn [for_each flat_map].
  - apply emits_ret.
  - apply (emits_seq _ _ _ _ (Hb a) IH).
Qed.

(** A scan of the registry under its lock. *)
Lemma emits_scan (body : SessionId * TuioRecord -> M unit) f :
  (forall a, emits (body a) (fun _ => f a)) ->
  emits (with_lock latest_objects_lock
           (w <- get ;; for_each (latest_objects w) body))
        (fun d => flat_map f d).
Proof.
  intros Hb; split.
  - apply keeps_with_lock, keeps_bind; [apply keeps_get|].
    intros w; apply keeps_for_each; intros a; apply Hb.
  - intros w. rewrite published_with_lock, trace_bind.
    cbn [app]. change (result get w) with w. change (exec get w) with w.
    apply (emits_for_each (latest_objects w) body f Hb).
Qed.

Lemma published_patient_wheel record w :
  r_symbol_id record = ROTATE_SYMBOL ->
  is_add_or_update (r_event record) = true ->
  published (trace (process_logic_and_broadcast record) w)
  = tuio_obj record
    :: (if is_add (r_event record)
        then [wheel_open (r_x record) (r_y record) "patient"] else [])
    ++ wheel_hover (snd (wheel_sector (r_angle record)))
                   (fst (wheel_sector (r_angle record)))
                   (r_x record) (r_y record)
                   (medication_at (snd (wheel_sector (r_angle record))))
                   "patient"
    :: flat_map (patient_confirms record) (latest_objects w).
Proof.
  intros Hsid Hevt.
  unfold process_logic_and_broadcast, patient_confirms.
  rewrite Hsid, Hevt.
  change (ROTATE_SYMBOL =? ROTATE_SYMBOL)%Z with true.
  change (ROTATE_SYMBOL =? NURSE_MODE_SYMBOL)%Z with false.
  change (ROTATE_SYMBOL =? BACK_SYMBOL)%Z with false.
  change (ROTATE_SYMBOL =? EDIT_MEDICATIONS_SYMBOL)%Z with false.
  cbn [andb when].
  destruct (wheel_sector (r_angle record)) as [theta sector].
  cbn [fst snd].
  match goal with
  | |- published (trace ?m w) = _ =>
      eassert (He : emits m _)
  end.
  { idtac.
    - apply emits_seq; [apply emits_broadcast|].
      apply emits_seq; [apply emits_when, emits_broadcast|].
      apply emits_seq.
      + apply emits_seq; [apply emits_broadcast|].
        apply emits_scan with
          (f := fun entry : SessionId * TuioRecord =>
                  if (r_symbol_id (snd entry) =? SELECT_SYMBOL)%Z
                     && near (snd entry) record
                  then [wheel_select_confirm sector (medication_at sector)
                                             "patient"]
                  else []).
        intros [k srec]; cbn [snd].
        destruct (r_symbol_id srec =? SELECT_SYMBOL)%Z; cbn [andb when];
          [|apply emits_ret].
        destruct (near srec record); cbn [when];
          [apply emits_broadcast|apply emits_ret].
      + repeat (apply emits_seq; [apply emits_ret|]). apply emits_ret. }
  destruct He as [_ He].
  rewrite He. cbn [app]. rewrite !app_nil_r. reflexivity.
Qed.

Lemma published_nurse_wheel record w :
  r_symbol_id record = NURSE_MODE_SYMBOL ->
  is_add_or_update (r_event record) = true ->
  published (trace (process_logic_and_broadcast record) w)
  = tuio_obj record
    :: (if is_add (r_event record)
        then [nurse_wheel_open (r_x record) (r_y record)] else [])
    ++ nurse_wheel_hover (snd (wheel_sector (r_angle record)))
                         (fst (wheel_sector (r_angle record)))
                         (r_x record) (r_y record)
                         (medication_at (snd (wheel_sector (r_angle record))))
    :: flat_map (nurse_confirms record) (latest_objects w).
Proof.
  intros Hsid Hevt.
  unfold process_logic_and_broadcast, nurse_confirms.
  rewrite Hsid, Hevt.
  change (NURSE_MODE_SYMBOL =? ROTATE_SYMBOL)%Z with false.
  change (NURSE_MODE_SYMBOL =? NURSE_MODE_SYMBOL)%Z with true.
  change (NURSE_MODE_SYMBOL =? BACK_SYMBOL)%Z with false.
  change (NURSE_MODE_SYMBOL =? EDIT_MEDICATIONS_SYMBOL)%Z with false.
  cbn [andb when].
  destruct (wheel_sector (r_angle record)) as [theta sector].
  cbn [fst snd].
  match goal with
  | |- published (trace ?m w) = _ => eassert (He : emits m _)
  end.
  { apply emits_seq; [apply emits_broadcast|].
    apply emits_seq; [apply emits_ret|].
    apply emits_seq; [apply emits_ret|].
    apply emits_seq; [apply emits_when, emits_broadcast|].
    apply emits_seq.
    - apply emits_seq; [apply emits_broadcast|].
      apply emits_scan with
        (f := fun entry : SessionId * TuioRecord =>
                if (r_symbol_id (snd entry) =? VIEW_PATIENT_INFO_SYMBOL)%Z then
                  if near (snd entry) record
                  then [nurse_wheel_select_confirm sector (medication_at sector)]
                  else []
                else if (r_symbol_id (snd entry) =? EDIT_MEDICATIONS_SYMBOL)%Z
                then
                  if near (snd entry) record
                  then [nurse_edit_med_select sector (medication_at sector)]
                  else []
                else []).
      intros [k srec]; cbn [snd].
      destruct (r_symbol_id srec =? VIEW_PATIENT_INFO_SYMBOL)%Z;
        [|destruct (r_symbol_id srec =? EDIT_MEDICATIONS_SYMBOL)%Z];
        try apply emits_ret;
        (destruct (near srec record); cbn [when];
         [apply emits_broadcast|apply emits_ret]).
    - repeat (apply emits_seq; [apply emits_ret|]). apply emits_ret. }
  destruct He as [_ He].
  rewrite He. cbn [app]. rewrite !app_nil_r. reflexivity.
Qed.

Lemma near_true_iff srec record :
  near srec record = true
  <-> hypot (r_x srec - r_x record) (r_y srec - r_y record) < 8 / 100.
Proof. unfold near, PROXIMITY; apply Rltb_true_iff. Qed.

Lemma near_false_iff srec record :
  near srec record = false
  <-> 8 / 100 <= hypot (r_x srec - r_x record) (r_y srec - r_y record).
Proof. unfold near, PROXIMITY; apply Rltb_false_iff. Qed.


Lemma filter_flat_map_length {A B} (p : B -> bool) (q : A -> bool)
    (f : A -> list B) (l : list A) :
  (forall a, length (filter p (f a)) = if q a then 1%nat else 0%nat) ->
  length (filter p (flat_map f l)) = length (filter q l).
Proof.
  intros Hf; induction l as [|a l IH]; cbn [flat_map filter]; [reflexivity|].
  rewrite filter_app, length_app, Hf, IH.
  now destruct (q a).
Qed.

(** C10.  On an add or update of the rotate wheel, the number of
    [wheel_select_confirm] broadcasts is the number of registry entries of
    selector role within 0.08 of the wheel marker, and each one carries
    the sector and medication of the [wheel_hover] broadcast before it.
    The nurse wheel likewise gives one confirmation per view-patient-info
    or edit-medications entry within 0.08. *)
Theorem C10_one_confirm_per_match :
  forall (record : TuioRecord) (w : World),
    is_add_or_update (r_event record) = true ->
    let events := published (trace (process_logic_and_broadcast record) w) in
    let sector := snd (wheel_sector (r_angle record)) in
    let theta := fst (wheel_sector (r_angle record)) in
    (r_symbol_id record = ROTATE_SYMBOL ->
     length (filter is_wheel_select_confirm events)
     = length (filter (fun entry : SessionId * TuioRecord =>
                         (r_symbol_id (snd entry) =? SELECT_SYMBOL)%Z
                         && near (snd entry) record)
                      (latest_objects w))
     /\ In (wheel_hover sector theta (r_x record) (r_y record)
                        (medication_at sector) "patient") events
     /\ forall e, In e events -> is_wheel_select_confirm e = true ->
                  e = wheel_select_confirm sector (medication_at sector)
                                           "patient")
    /\
    (r_symbol_id record = NURSE_MODE_SYMBOL ->
     length (filter is_nurse_confirm events)
     = length (filter (fun entry : SessionId * TuioRecord =>
                         ((r_symbol_id (snd entry) =? VIEW_PATIENT_INFO_SYMBOL)%Z
                          || (r_symbol_id (snd entry)
                              =? EDIT_MEDICATIONS_SYMBOL)%Z)
                         && near (snd entry) record)
                      (latest_objects w))
     /\ In (nurse_wheel_hover sector theta (r_x record) (r_y record)
                              (medication_at sector)) events
     /\ forall e, In e events -> is_nurse_confirm e = true ->
                  e = nurse_wheel_select_confirm sector (medication_at sector)
                  \/ e = nurse_edit_med_select sector (medication_at sector)).
Proof.
  intros record w Hevt events sector theta; subst events sector theta.
  split; intros Hsid.
  - rewrite published_patient_wheel by assumption.
    repeat split.
    + cbn [filter is_wheel_select_confirm].
      rewrite filter_app.
      replace (filter is_wheel_select_confirm
                 (if is_add (r_event record)
                  then [wheel_open (r_x record) (r_y record) "patient"]
                  else [])) with (@nil Event)
        by now destruct (is_add (r_event record)).
      cbn [app filter is_wheel_select_confirm].
      apply filter_flat_map_length.
      intros [k srec]; unfold patient_confirms; cbn [snd].
      now destruct ((r_symbol_id srec =? SELECT_SYMBOL)%Z && near srec record).
    + right. apply in_or_app; right. now left.
    + intros e [<-|He]; [discriminate|].
      apply in_app_or in He as [He|[<-|He]]; try discriminate.
      * destruct (is_add (r_event record)); [|easy].
        destruct He as [<-|[]]; discriminate.
      * intros _. apply in_flat_map in He as ([k srec] & _ & He).
        unfold patient_confirms in He; cbn [snd] in He.
        destruct ((r_symbol_id srec =? SELECT_SYMBOL)%Z && near srec record);
          [|easy].
        now destruct He as [<-|[]].
  - rewrite published_nurse_wheel by assumption.
    repeat split.
    + cbn [filter is_nurse_confirm].
      rewrite filter_app.
      replace (filter is_nurse_confirm
                 (if is_add (r_event record)
                  then [nurse_wheel_open (r_x record) (r_y record)]
                  else [])) with (@nil Event)
        by now destruct (is_add (r_event record)).
      cbn [app filter is_nurse_confirm].
      apply filter_flat_map_length.
      intros [k srec]; unfold nurse_confirms; cbn [snd].
      destruct (r_symbol_id srec =? VIEW_PATIENT_INFO_SYMBOL)%Z;
        destruct (r_symbol_id srec =? EDIT_MEDICATIONS_SYMBOL)%Z;
        now destruct (near srec record).
    + right. apply in_or_app; right. now left.
    + intros e [<-|He]; [discriminate|].
      apply in_app_or in He as [He|[<-|He]]; try discriminate.
      * destruct (is_add (r_event record)); [|easy].
        destruct He as [<-|[]]; discriminate.
      * intros _. apply in_flat_map in He as ([k srec] & _ & He).
        unfold nurse_confirms in He; cbn [snd] in He.
        destruct (r_symbol_id srec =? VIEW_PATIENT_INFO_SYMBOL)%Z;
          [|destruct (r_symbol_id srec =? EDIT_MEDICATIONS_SYMBOL)%Z];
          try easy;
          (destruct (near srec record); [|easy]);
          destruct He as [<-|[]]; auto.
Qed.

(* ------------------------------------------------------------------ *)
(** ** Locks *)

Lemma lock_run_app allowed t1 : forall held t2,
  lock_run allowed held (t1 ++ t2)
  = match lock_run allowed held t1 with
    | Some held' => lock_run allowed held' t2
    | None => None
    end.
Proof.
  induction t1 as [|a t1 IH]; intros held t2; cbn [app lock_run].
  - reflexivity.
  - destruct (lock_step allowed held a); [apply IH|reflexivity].
Qed.

Lemma lock_run_sends allowed held data w cs :
  lock_run allowed held (sends data w cs) = Some held.
Proof. unfold sends; induction cs as [|c cs IH]; cbn; [reflexivity|exact IH]. Qed.

Lemma hub_only_broadcast obj : hub_only (broadcast obj).
Proof.
  intros w; unfold trace; rewrite broadcast_run; cbn [snd].
  split; cbn [lock_run lock_step nested lock_eqb];
    rewrite lock_run_app, lock_run_sends; reflexivity.
Qed.

Lemma hub_only_ret {A} (a : A) : hub_only (ret a).
Proof. intros w; split; reflexivity. Qed.

Lemma hub_only_get : hub_only get.
Proof. intros w; split; reflexivity. Qed.

Lemma hub_only_bind {A B} (m : M A) (k : A -> M B) :
  hub_only m -> (forall a, hub_only (k a)) -> hub_only (bind m k).
Proof.
  intros Hm Hk w. rewrite trace_bind, !lock_run_app.
  destruct (Hm w) as [-> ->]. apply Hk.
Qed.

Lemma hub_only_when b m : hub_only m -> hub_only (when b m).
Proof. destruct b; [easy|intros _; apply hub_only_ret]. Qed.

Lemma hub_only_for_each {A} (l : list A) (body : A -> M unit) :
  (forall a, hub_only (body a)) -> hub_only (for_each l body).
Proof.
  intros Hb; induction l as [|a l IH]; cbn [for_each].
  - apply hub_only_ret.
  - apply hub_only_bind; auto.
Qed.

Lemma lock_safe_hub {A} (m : M A) : hub_only m -> lock_safe m.
Proof. intros Hm w; apply Hm. Qed.

Lemma lock_safe_bind {A B} (m : M A) (k : A -> M B) :
  lock_safe m -> (forall a, lock_safe (k a)) -> lock_safe (bind m k).
Proof.
  intros Hm Hk w. rewrite trace_bind, lock_run_app, Hm. apply Hk.
Qed.

Lemma lock_safe_when b m : lock_safe m -> lock_safe (when b m).
Proof. destruct b; [easy|intros _ w; reflexivity]. Qed.

(** Under the registry lock, the hub lock may be taken. *)
Lemma lock_safe_registry {A} (m : M A) :
  hub_only m -> lock_safe (with_lock latest_objects_lock m).
Proof.
  intros Hm w. rewrite trace_with_lock.
  cbn [lock_run lock_step nested]. rewrite lock_run_app.
  destruct (Hm w) as [_ ->]. reflexivity.
Qed.

Lemma lock_safe_flag b :
  lock_safe (with_lock gesture_detection_lock
               (set_gesture_detection_enabled b)).
Proof. intros w; reflexivity. Qed.

Ltac hub_tac :=
  repeat first
    [ apply hub_only_broadcast
    | apply hub_only_when
    | apply hub_only_for_each; intros [? ?]
    | apply hub_only_ret
    | apply hub_only_get
    | apply hub_only_bind; [|intros ?]
    | match goal with
      | |- hub_only (if ?b then _ else _) => destruct b
      end ].

Ltac lock_tac :=
  repeat first
    [ apply lock_safe_hub, hub_only_broadcast
    | apply lock_safe_hub, hub_only_ret
    | apply lock_safe_hub, hub_only_get
    | apply lock_safe_when
    | apply lock_safe_flag
    | apply lock_safe_registry; hub_tac
    | apply lock_safe_bind; [|intros ?]
    | match goal with
      | |- lock_safe (let '(_, _) := ?p in _) => destruct p
      end ].

Lemma lock_safe_process_logic record :
  lock_safe (process_logic_and_broadcast record).
Proof. unfold process_logic_and_broadcast. lock_tac. Qed.

Lemma lock_safe_handle_obj event_type obj :
  lock_safe (_handle_obj event_type obj).
Proof.
  unfold _handle_obj. destruct (make_record event_type obj) as [record|].
  - apply lock_safe_bind; [|intros _; apply lock_safe_process_logic].
    intros w. destruct (is_add_or_update event_type); reflexivity.
  - intros w; reflexivity.
Qed.

Lemma apart_broadcast obj w :
  lock_run apart [] (trace (broadcast obj) w) = Some [].
Proof.
  unfold trace; rewrite broadcast_run; cbn [snd].
  cbn [lock_run lock_step apart holds existsb lock_eqb andb orb negb].
  rewrite lock_run_app, lock_run_sends. reflexivity.
Qed.

Lemma apart_broadcast_under_registry obj w :
  lock_run apart [latest_objects_lock] (trace (broadcast obj) w) = None.
Proof. unfold trace; rewrite broadcast_run; reflexivity. Qed.

(** With the registry lock held, the patient scan takes the hub lock as
    soon as an entry matches. *)
Lemma apart_patient_scan record sector (l : Dict) : forall w,
  lock_run apart [latest_objects_lock]
    (trace (for_each l (fun '(_, srec) =>
       when (r_symbol_id srec =? SELECT_SYMBOL)%Z
         (when (near srec record)
            (broadcast (wheel_select_confirm sector (medication_at sector)
                                             "patient"))))) w)
  = if existsb (fun entry : SessionId * TuioRecord =>
                  (r_symbol_id (snd entry) =? SELECT_SYMBOL)%Z
                  && near (snd entry) record) l
    then None else Some [latest_objects_lock].
Proof.
  induction l as [|[k srec] l IH]; intros w; [reflexivity|].
  cbn [for_each existsb snd]. rewrite trace_bind, lock_run_app.
  destruct (r_symbol_id srec =? SELECT_SYMBOL)%Z; cbn [andb orb when].
  - destruct (near srec record); cbn [orb when].
    + now rewrite apart_broadcast_under_registry.
    + apply IH.
  - apply IH.
Qed.

Lemma patient_scan_holds_both record w :
  r_symbol_id record = ROTATE_SYMBOL ->
  is_add_or_update (r_event record) = true ->
  existsb (fun entry : SessionId * TuioRecord =>
             (r_symbol_id (snd entry) =? SELECT_SYMBOL)%Z
             && near (snd entry) record) (latest_objects w) = true ->
  lock_run apart [] (trace (process_logic_and_broadcast record) w) = None.
Proof.
  intros Hsid Hevt Hmatch.
  unfold process_logic_and_broadcast.
  rewrite Hsid, Hevt.
  change (ROTATE_SYMBOL =? ROTATE_SYMBOL)%Z with true.
  cbn [andb when].
  destruct (wheel_sector (r_angle record)) as [theta sector].
  rewrite trace_bind, lock_run_app, apart_broadcast.
  rewrite trace_bind, lock_run_app.
  match goal with
  | |- match lock_run apart [] (trace (when ?b ?m) ?w') with _ => _ end = _ =>
      replace (lock_run apart [] (trace (when b m) w')) with (Some (@nil Lock))
        by (destruct b; cbn [when]; [now rewrite apart_broadcast|reflexivity])
  end.
  rewrite trace_bind, lock_run_app.
  rewrite trace_bind, lock_run_app, apart_broadcast.
  rewrite trace_with_lock. cbn [lock_run lock_step apart holds existsb
                                lock_eqb andb orb negb].
  rewrite lock_run_app, trace_bind.
  change (result get ?w') with w'. change (exec get ?w') with w'.
  change (trace get ?w') with (@nil Action). cbn [app].
  rewrite apart_patient_scan.
  rewrite !exec_bind.
  rewrite keeps_broadcast, keeps_when, keeps_broadcast, Hmatch;
    [reflexivity|apply keeps_broadcast].
Qed.

Lemma hypot_3_4 : hypot (53 / 100 - 1 / 2) (54 / 100 - 1 / 2) = 5 / 100.
Proof. unfold hypot. apply sqrt_lem_1; lra. Qed.

Lemma selector_near event_type :
  near selector_record (wheel_record event_type) = true.
Proof.
  apply near_true_iff. cbn [r_x r_y selector_record wheel_record].
  rewrite hypot_3_4. lra.
Qed.



(* ------------------------------------------------------------------ *)
(** ** The time of a hand position *)

Lemma py_int_spec v :
  (0 <= v -> IZR (py_int v) <= v < IZR (py_int v) + 1) /\
  (v < 0 -> IZR (py_int v) - 1 < v <= IZR (py_int v)).
Proof.
  split; intros Hv.
  - rewrite py_int_nonneg by assumption. apply Zfloor_bound.
  - rewrite py_int_neg by assumption. apply Zceil_bound.
Qed.

Lemma py_int_IZR (z : Z) : py_int (IZR z) = z.
Proof.
  unfold py_int. destruct (Rle_dec 0 (IZR z)).
  - apply ZfloorZ.
  - unfold Zceil. rewrite <- opp_IZR, ZfloorZ. lia.
Qed.

Lemma py_int_bounds v (lo hi : Z) :
  IZR lo <= v <= IZR hi -> (lo <= py_int v <= hi)%Z.
Proof.
  intros [Hlo Hhi].
  destruct (py_int_spec v) as [Hpos Hneg].
  destruct (Rle_dec 0 v) as [Hv|Hv].
  - specialize (Hpos Hv). split.
    + apply Z.lt_succ_r, lt_IZR. rewrite succ_IZR. lra.
    + apply le_IZR. lra.
  - assert (Hv' : v < 0) by lra. specialize (Hneg Hv'). split.
    + apply le_IZR. lra.
    + apply Z.lt_succ_r, lt_IZR. rewrite succ_IZR. lra.
Qed.

Lemma py_round_near v : IZR (py_round v) - 1 < v < IZR (py_round v) + 1.
Proof.
  unfold py_round. pose proof (Zfloor_bound v) as Hf.
  destruct (Rlt_dec (v - IZR (Zfloor v)) (1 / 2)); [lra|].
  destruct (Rlt_dec (1 / 2) (v - IZR (Zfloor v))).
  - rewrite plus_IZR; lra.
  - destruct (Z.even (Zfloor v)); [lra|rewrite plus_IZR; lra].
Qed.

Lemma offset_0_72 : (1003 / 2000 - 1 / 2) * 2 * 240 = 72 / 100.
Proof. lra. Qed.



(* ------------------------------------------------------------------ *)
(** ** The hand-tracking loop *)

Ltac expose m w := rewrite (run_eta m w); cbv beta iota.

Lemma distance_3d_self p : distance_3d p p = 0.
Proof.
  unfold distance_3d.
  replace ((l_x p - l_x p) ^ 2 + (l_y p - l_y p) ^ 2 + (l_z p - l_z p) ^ 2)
    with 0 by ring.
  apply sqrt_0.
Qed.

Lemma is_fist_closed_hand : is_fist closed_hand = true.
Proof.
  apply Rltb_true_iff. unfold avg_distance, closed_hand.
  rewrite distance_3d_self. lra.
Qed.

Lemma is_fist_open_hand x : is_fist (open_hand x) = false.
Proof.
  apply Rltb_false_iff. unfold avg_distance, open_hand.
  assert (H : distance_3d (mkLandmark x 0 0) (mkLandmark x (1 / 2) 0) = 1 / 2).
  { unfold distance_3d; cbn [l_x l_y l_z]. apply sqrt_lem_1; lra. }
  rewrite H. lra.
Qed.

Lemma flag_broadcast obj w :
  gesture_detection_enabled (exec (broadcast obj) w)
  = gesture_detection_enabled w.
Proof. unfold exec; now rewrite broadcast_run. Qed.

Lemma clients_broadcast obj w :
  clients (exec (broadcast obj) w) = filter (socket_ok w) (clients w).
Proof. unfold exec; now rewrite broadcast_run. Qed.

Lemma socket_ok_broadcast obj w :
  socket_ok (exec (broadcast obj) w) = socket_ok w.
Proof. unfold exec; now rewrite broadcast_run. Qed.

(** The loop found disabled while a session is active. *)
Lemma iteration_disabled_active obs t w :
  gesture_detection_enabled w = false -> gesture_active t = true ->
  hand_tracking_iteration obs t w
  = (mkTracker (base_time_minutes t) (current_time_minutes t)
               (last_broadcast_time t) (broadcast_cooldown t)
               None (hands t) false (frame_count t),
     exec (broadcast (final_of t)) w,
     Acquire gesture_detection_lock :: Release gesture_detection_lock
       :: trace (broadcast (final_of t)) w).
Proof.
  intros Hf Ha. unfold hand_tracking_iteration.
  unfold bind at 1. unfold with_lock, bind, tell, get, ret. cbv beta iota.
  rewrite Hf, Ha. cbn [negb].
  fold (final_of t). expose (broadcast (final_of t)) w.
  cbn [app]. now rewrite app_nil_r.
Qed.

Lemma iteration_disabled_idle obs t w :
  gesture_detection_enabled w = false -> gesture_active t = false ->
  hand_tracking_iteration obs t w
  = (t, w, [Acquire gesture_detection_lock; Release gesture_detection_lock]).
Proof.
  intros Hf Ha. unfold hand_tracking_iteration.
  unfold bind at 1. unfold with_lock, bind, tell, get, ret. cbv beta iota.
  rewrite Hf, Ha. reflexivity.
Qed.

Lemma for_hands_one now h t w : for_hands now [h] t w = per_hand now h t w.
Proof.
  cbn [for_hands]. unfold bind, ret.
  destruct (per_hand now h t w) as [[t1 w1] tr]. now rewrite app_nil_r.
Qed.

(** A turn with the camera open and a frame read. *)
Lemma iteration_frame obs t w c :
  gesture_detection_enabled w = true ->
  cap t = Some c -> hands t = true ->
  success obs = true ->
  let F := for_hands (current_time obs) (multi_hand_landmarks obs)
                     (count_frame t) in
  hand_tracking_iteration obs t w
  = (result F w,
     (if key_is_q obs then with_flag false (exec F w) else exec F w),
     Acquire gesture_detection_lock :: Release gesture_detection_lock
       :: trace F w
       ++ (if key_is_q obs
           then [Acquire gesture_detection_lock;
                 Release gesture_detection_lock]
           else [])).
Proof.
  intros Hf Hc Hh Hs F. unfold hand_tracking_iteration.
  rewrite Hc. cbv beta iota zeta. fold (count_frame t). fold F.
  unfold bind at 1. unfold with_lock at 1. unfold bind at 1 2 3, tell, get, ret.
  cbv beta iota. rewrite Hf, Hh, Hs. cbn [negb].
  unfold bind at 1. unfold bind at 1. expose F w.
  destruct (key_is_q obs); cbn [when]; reflexivity.
Qed.

(** A turn that opens the camera. *)
Lemma iteration_open obs t w c :
  gesture_detection_enabled w = true ->
  cap t = None -> open_camera (camera_works obs) = Some c ->
  success obs = true ->
  let F := for_hands (current_time obs) (multi_hand_landmarks obs)
             (mkTracker 450 450 (last_broadcast_time t)
                        (broadcast_cooldown t) (Some c) true true 1) in
  hand_tracking_iteration obs t w
  = (result F w,
     (if key_is_q obs then with_flag false (exec F w) else exec F w),
     Acquire gesture_detection_lock :: Release gesture_detection_lock
       :: trace F w
       ++ (if key_is_q obs
           then [Acquire gesture_detection_lock;
                 Release gesture_detection_lock]
           else [])).
Proof.
  intros Hf Hc Ho Hs F. unfold hand_tracking_iteration.
  rewrite Hc, Ho. cbv beta iota zeta.
  cbn [base_time_minutes current_time_minutes last_broadcast_time
       broadcast_cooldown cap hands gesture_active frame_count Z.add].
  change (0 + 1)%Z with 1%Z. fold F.
  unfold bind at 1. unfold with_lock at 1. unfold bind at 1 2 3, tell, get, ret.
  cbv beta iota. rewrite Hf, Hs. cbn [negb].
  unfold bind at 1. unfold bind at 1. expose F w.
  destruct (key_is_q obs); cbn [when]; reflexivity.
Qed.

(** The closed palm. *)
Lemma per_hand_fist now h t w :
  is_fist h = true ->
  per_hand now h t w
  = (t, with_flag false (exec (commit_broadcasts t w) w),
     Acquire clients_lock :: Release clients_lock
       :: trace (commit_broadcasts t w) w
       ++ [Acquire gesture_detection_lock; Release gesture_detection_lock]).
Proof.
  intros Hfist. unfold per_hand. rewrite Hfist.
  unfold bind at 1. unfold with_lock at 1. unfold bind at 1 2 3, tell, get, ret.
  cbv beta iota. unfold bind at 1.
  fold (final_of t). fold (commit_broadcasts t w).
  expose (commit_broadcasts t w) w.
  unfold bind, with_lock, bind, tell, ret, set_gesture_detection_enabled.
  cbv beta iota. cbn [app]. reflexivity.
Qed.

(** An open hand. *)
Lemma per_hand_move now h t w :
  is_fist h = false ->
  let m := adjusted_minutes (base_time_minutes t) (l_x (h 0%nat)) in
  per_hand now h t w
  = if Rleb (broadcast_cooldown t) (now - last_broadcast_time t)
    then (mkTracker (base_time_minutes t) m now (broadcast_cooldown t)
                    (cap t) (hands t) (gesture_active t) (frame_count t),
          exec (broadcast (gesture_time_update (time_str m) m)) w,
          trace (broadcast (gesture_time_update (time_str m) m)) w)
    else (mkTracker (base_time_minutes t) m (last_broadcast_time t)
                    (broadcast_cooldown t)
                    (cap t) (hands t) (gesture_active t) (frame_count t),
          w, []).
Proof.
  intros Hfist m. unfold per_hand. rewrite Hfist. fold m.
  destruct (Rleb (broadcast_cooldown t) (now - last_broadcast_time t)).
  - unfold bind, ret.
    expose (broadcast (gesture_time_update (time_str m) m)) w.
    now rewrite app_nil_r.
  - reflexivity.
Qed.

Lemma published_commit_broadcasts t w :
  published (trace (commit_broadcasts t w) w)
  = match clients w with
    | [] => []
    | _ :: _ => [final_of t; gesture_mode_toggled false]
    end.
Proof.
  unfold commit_broadcasts. destruct (clients w); cbn [List.length Nat.ltb Nat.leb when].
  - reflexivity.
  - now rewrite trace_bind, published_app, !published_broadcast.
Qed.

Lemma flag_commit_broadcasts t w :
  gesture_detection_enabled (exec (commit_broadcasts t w) w)
  = gesture_detection_enabled w.
Proof.
  unfold commit_broadcasts.
  destruct (0 <? List.length (clients w))%nat; cbn [when]; [|reflexivity].
  now rewrite exec_bind, !flag_broadcast.
Qed.

Lemma exec_broadcast_settled obj w :
  forallb (socket_ok w) (clients w) = true -> exec (broadcast obj) w = w.
Proof.
  intros Hok. unfold exec; rewrite broadcast_run; cbn [fst snd].
  unfold with_clients.
  replace (filter (socket_ok w) (clients w)) with (clients w); [now destruct w|].
  induction (clients w) as [|c cs IH]; [reflexivity|].
  cbn [forallb] in Hok. apply andb_prop in Hok as [Hc Hcs].
  cbn [filter]. rewrite Hc. now rewrite <- IH.
Qed.

Lemma exec_commit_settled t w :
  forallb (socket_ok w) (clients w) = true ->
  exec (commit_broadcasts t w) w = w.
Proof.
  intros Hok. unfold commit_broadcasts.
  destruct (0 <? List.length (clients w))%nat; cbn [when]; [|reflexivity].
  rewrite exec_bind.
  rewrite (exec_broadcast_settled (final_of t)) by assumption.
  now rewrite exec_broadcast_settled by assumption.
Qed.

Lemma thread_cons obs rest t w :
  hand_tracking_thread (obs :: rest) t w
  = let '(t1, w1, tr1) := hand_tracking_iteration obs t w in
    let '(t2, w2, tr2) := hand_tracking_thread rest t1 w1 in
    (t2, w2, tr1 ++ tr2).
Proof. reflexivity. Qed.

Lemma adjusted_minutes_right : adjusted_minutes 450 1 = 690%Z.
Proof.
  unfold adjusted_minutes; cbv zeta.
  replace ((1 - 1 / 2) * 2 * IZR 240) with (IZR 240) by (simpl; lra).
  now rewrite py_int_IZR.
Qed.

(** C4, as the specification has it, fails.  The camera opens, the hand
    moves to the right edge (11:30), then closes: the closed-palm branch
    broadcasts the final time and the toggle and clears the flag, and the
    next turn of the loop, finding the flag cleared with the session still
    active, broadcasts the final time again. *)
Lemma C4_final_twice_on_commit :
  let events :=
    published (trace (hand_tracking_thread commit_session initial_tracker)
                     gesture_world) in
  events = [gesture_time_update "11:30" 690; gesture_time_final "11:30" 690;
            gesture_mode_toggled false; gesture_time_final "11:30" 690]
  /\ List.length (filter is_final events) = 2%nat.
Proof.
  assert (H : published (trace (hand_tracking_thread commit_session
                                  initial_tracker) gesture_world)
              = [gesture_time_update "11:30" 690;
                 gesture_time_final "11:30" 690;
                 gesture_mode_toggled false;
                 gesture_time_final "11:30" 690]).
  { unfold trace, commit_session.
    (* the camera opens *)
    rewrite thread_cons.
    rewrite (iteration_open _ initial_tracker gesture_world 1%Z)
      by reflexivity.
    cbv zeta. cbn [multi_hand_landmarks current_time for_hands key_is_q].
    change (result (ret ?a) ?w) with a.
    change (exec (ret ?a) ?w) with w.
    change (@trace Tracker (ret ?a) ?w) with (@nil Action).
    cbv beta iota.
    (* a hand at the right edge *)
    rewrite thread_cons.
    erewrite (iteration_frame _ _ gesture_world 1%Z) by reflexivity.
    cbv zeta. cbn [multi_hand_landmarks current_time key_is_q].
    unfold result, exec, trace. rewrite for_hands_one.
    rewrite per_hand_move by apply is_fist_open_hand.
    cbv zeta.
    cbn [count_frame base_time_minutes current_time_minutes
         last_broadcast_time broadcast_cooldown cap hands gesture_active
         frame_count initial_tracker open_hand l_x].
    rewrite adjusted_minutes_right.
    replace (Rleb (1 / 2) (11 - 0)) with true
      by (symmetry; apply Rleb_true_iff; lra).
    cbn [fst snd]. cbv beta iota.
    rewrite exec_broadcast_settled by reflexivity.
    (* the fist *)
    rewrite thread_cons.
    erewrite (iteration_frame _ _ gesture_world 1%Z) by reflexivity.
    cbv zeta. cbn [multi_hand_landmarks current_time key_is_q].
    unfold result, exec, trace. rewrite for_hands_one.
    rewrite per_hand_fist by apply is_fist_closed_hand.
    cbn [fst snd]. cbv beta iota.
    fold (exec (commit_broadcasts
      (count_frame (mkTracker 450 690 11 (1 / 2) (Some 1%Z) true true (1 + 1)))
      gesture_world) gesture_world).
    rewrite exec_commit_settled by reflexivity.
    (* the turn after *)
    rewrite thread_cons.
    rewrite iteration_disabled_active by reflexivity.
    cbn [hand_tracking_thread]. unfold ret. cbv beta iota. cbn [snd].
    change (snd (broadcast ?e ?w)) with (trace (broadcast e) w).
    cbn [app published].
    repeat (rewrite published_app; cbn [app published]).
    rewrite !published_broadcast, published_commit_broadcasts.
    reflexivity. }
  cbv zeta. rewrite H. split; reflexivity.
Qed.

(** C4, amended.  With a session active: a turn of the loop that finds
    gesture detection disabled broadcasts [gesture_time_final] once, with
    no [gesture_mode_toggled], and ends the session; a turn that sees the
    closed fist broadcasts [gesture_time_final] and then
    [gesture_mode_toggled(false)] if a client is connected (nothing if
    none is), whatever the clock and the last update time are, and clears
    the flag, the session staying active. *)
Theorem C4_final_on_commit_and_disable :
  forall (obs : Observation) (t : Tracker) (w : World),
    gesture_active t = true ->
    let run := hand_tracking_iteration obs t in
    (gesture_detection_enabled w = false ->
     published (trace run w) = [final_of t]
     /\ gesture_active (result run w) = false
     /\ cap (result run w) = None
     /\ gesture_detection_enabled (exec run w) = false)
    /\
    (gesture_detection_enabled w = true ->
     cap t <> None -> hands t = true -> success obs = true ->
     forall h, multi_hand_landmarks obs = [h] -> is_fist h = true ->
     published (trace run w)
     = match clients w with
       | [] => []
       | _ :: _ => [final_of t; gesture_mode_toggled false]
       end
     /\ gesture_detection_enabled (exec run w) = false
     /\ result run w = count_frame t
     /\ gesture_active (result run w) = true).
Proof.
  intros obs t w Hact run; subst run. split.
  - intros Hf. unfold trace, result, exec.
    rewrite iteration_disabled_active by assumption. cbn [fst snd].
    repeat split.
    + cbn [published]. apply published_broadcast.
    + rewrite flag_broadcast. exact Hf.
  - intros Hf Hcap Hh Hs h Hhs Hfist.
    destruct (cap t) as [c|] eqn:Hc; [|contradiction].
    unfold trace, result, exec.
    rewrite (iteration_frame obs t w c) by assumption.
    cbv zeta. rewrite Hhs. unfold result, exec, trace.
    rewrite for_hands_one, per_hand_fist by assumption.
    cbn [fst snd].
    repeat split.
    + cbn [published]. rewrite published_app. cbn [published].
      rewrite published_app, published_commit_broadcasts.
      change (final_of (count_frame t)) with (final_of t).
      destruct (key_is_q obs); cbn [published app];
        now rewrite !app_nil_r.
    + now destruct (key_is_q obs).
    + cbn [count_frame gesture_active]. exact Hact.
Qed.

(* ------------------------------------------------------------------ *)
(** ** Geometry of the polyline *)

Lemma sum_sqr_nonneg x y : 0 <= x ^ 2 + y ^ 2.
Proof. nra. Qed.

Lemma distance_nonneg a b : 0 <= _distance a b.
Proof. apply sqrt_pos. Qed.

Lemma distance_zero a b : _distance a b = 0 -> a = b.
Proof.
  unfold _distance; intros H.
  apply sqrt_eq_0 in H; [|apply sum_sqr_nonneg].
  destruct a as [ax ay], b as [bx by_]; cbn [p_x p_y] in H.
  rewrite <- !Rsqr_pow2 in H. apply Rplus_sqr_eq_0 in H as [H1 H2].
  f_equal; lra.
Qed.

Lemma distance_self a : _distance a a = 0.
Proof.
  unfold _distance.
  replace ((p_x a - p_x a) ^ 2 + (p_y a - p_y a) ^ 2) with 0 by ring.
  apply sqrt_0.
Qed.

Lemma sqrt_scale t x : 0 <= t -> 0 <= x -> sqrt (t * t * x) = t * sqrt x.
Proof.
  intros Ht Hx. rewrite sqrt_mult by nra. now rewrite sqrt_square.
Qed.

Lemma distance_lerp_l a b t :
  0 <= t -> _distance a (lerp a b t) = t * _distance a b.
Proof.
  intros Ht. unfold _distance, lerp; cbn [p_x p_y].
  rewrite <- sqrt_scale by (try apply sum_sqr_nonneg; assumption).
  f_equal; ring.
Qed.

Lemma distance_lerp_r a b t :
  t <= 1 -> _distance (lerp a b t) b = (1 - t) * _distance a b.
Proof.
  intros Ht. unfold _distance, lerp; cbn [p_x p_y].
  rewrite <- sqrt_scale by (try apply sum_sqr_nonneg; lra).
  f_equal; ring.
Qed.

Lemma lerp_lerp_l a b t u : lerp a (lerp a b t) u = lerp a b (u * t).
Proof. unfold lerp; cbn [p_x p_y]; f_equal; ring. Qed.

Lemma lerp_lerp_r a b t u : lerp (lerp a b t) b u = lerp a b (t + u * (1 - t)).
Proof. unfold lerp; cbn [p_x p_y]; f_equal; ring. Qed.

Lemma lerp_1 a b : lerp a b 1 = b.
Proof. destruct b; unfold lerp; cbn [p_x p_y]; f_equal; ring. Qed.

Lemma lerp_same a t : lerp a a t = a.
Proof. destruct a; unfold lerp; cbn [p_x p_y]; f_equal; ring. Qed.

Lemma path_length_cons2 p q rest :
  _path_length (p :: q :: rest) = _distance p q + _path_length (q :: rest).
Proof. reflexivity. Qed.

Lemma path_length_nonneg l : 0 <= _path_length l.
Proof.
  induction l as [|p [|q rest] IH]; try (cbn; lra).
  rewrite path_length_cons2. pose proof (distance_nonneg p q). lra.
Qed.

Lemma path_length_app l1 : forall a l2,
  _path_length (l1 ++ a :: l2)
  = _path_length (l1 ++ [a]) + _path_length (a :: l2).
Proof.
  induction l1 as [|p [|q l1] IH]; intros a l2.
  - cbn [app]. cbn [_path_length]. lra.
  - cbn [app]. rewrite !path_length_cons2. cbn [_path_length]. lra.
  - change ((p :: q :: l1) ++ a :: l2) with (p :: (q :: l1) ++ a :: l2).
    change ((p :: q :: l1) ++ [a]) with (p :: (q :: l1) ++ [a]).
    cbn [app]. rewrite !path_length_cons2.
    specialize (IH a l2). cbn [app] in IH. lra.
Qed.

Lemma path_length_snoc l a b :
  _path_length ((l ++ [a]) ++ [b]) = _path_length (l ++ [a]) + _distance a b.
Proof.
  rewrite <- app_assoc. cbn [app]. rewrite path_length_app.
  rewrite path_length_cons2. cbn [_path_length]. lra.
Qed.

(** A polyline of length zero stays at its first vertex. *)
Lemma path_length_zero p l :
  _path_length (p :: l) = 0 -> Forall (fun q => q = p) l.
Proof.
  revert p; induction l as [|q l IH]; intros p H; [constructor|].
  rewrite path_length_cons2 in H.
  pose proof (distance_nonneg p q). pose proof (path_length_nonneg (q :: l)).
  assert (Hd : _distance p q = 0) by lra.
  apply distance_zero in Hd; subst q.
  constructor; [reflexivity|]. apply IH. lra.
Qed.

Lemma last_all_same p l :
  Forall (fun q => q = p) l -> last (p :: l) origin = p.
Proof.
  induction 1 as [|q l Hq _ IH]; [reflexivity|].
  subst q. exact IH.
Qed.

Lemma at_arc_here' p q rest t s r :
  0 <= t <= 1 -> s = t * _distance p q -> r = lerp p q t ->
  at_arc (p :: q :: rest) s r.
Proof. intros Ht -> ->. now constructor. Qed.

Lemma at_arc_later' p q rest s s' r :
  at_arc (q :: rest) s' r -> s = _distance p q + s' ->
  at_arc (p :: q :: rest) s r.
Proof. intros H ->. now constructor. Qed.

Lemma at_arc_bounds l s r : at_arc l s r -> 0 <= s <= _path_length l.
Proof.
  induction 1 as [p q rest t Ht|p q rest s r _ IH];
    rewrite path_length_cons2;
    pose proof (distance_nonneg p q);
    pose proof (path_length_nonneg (q :: rest)); nra.
Qed.

(** The point at the full length is the last vertex. *)
Lemma at_arc_end l s r :
  at_arc l s r -> s = _path_length l -> r = last l origin.
Proof.
  induction 1 as [p q rest t Ht|p q rest s r H IH];
    rewrite path_length_cons2; intros Hs.
  - pose proof (distance_nonneg p q) as Hd.
    pose proof (path_length_nonneg (q :: rest)) as Hr.
    assert (Hrest : _path_length (q :: rest) = 0) by nra.
    change (last (p :: q :: rest) origin) with (last (q :: rest) origin).
    rewrite (last_all_same q rest) by now apply path_length_zero.
    destruct (Req_dec_T (_distance p q) 0) as [H0|H0].
    + apply distance_zero in H0; subst q. apply lerp_same.
    + assert (t = 1) by nra. subst t. apply lerp_1.
  - change (last (p :: q :: rest) origin) with (last (q :: rest) origin).
    apply IH. lra.
Qed.

(** The first vertex is at arc length zero. *)
Lemma at_arc_start p q rest : at_arc (p :: q :: rest) 0 p.
Proof.
  apply (at_arc_here' p q rest 0); [lra|ring|].
  destruct p; unfold lerp; cbn [p_x p_y]; f_equal; ring.
Qed.

(** A vertex is at the arc length of the path that leads to it. *)
Lemma at_arc_vertex before : forall a b rest,
  at_arc (before ++ a :: b :: rest) (_path_length (before ++ [a])) a.
Proof.
  induction before as [|p [|p' before] IH]; intros a b rest.
  - cbn [app _path_length]. apply at_arc_start.
  - cbn [app]. rewrite path_length_cons2. cbn [_path_length].
    eapply at_arc_later'; [apply at_arc_start|lra].
  - change ((p :: p' :: before) ++ a :: b :: rest)
      with (p :: (p' :: before) ++ a :: b :: rest).
    change ((p :: p' :: before) ++ [a]) with (p :: (p' :: before) ++ [a]).
    cbn [app]. rewrite path_length_cons2.
    apply at_later. apply (IH a b rest).
Qed.

(** Putting a point of a segment into the polyline moves no point of
    it. *)
Lemma at_arc_insert_here a b rest t s r :
  0 <= t <= 1 ->
  at_arc (a :: lerp a b t :: b :: rest) s r -> at_arc (a :: b :: rest) s r.
Proof.
  intros Ht H.
  inversion H as [p q rst u Hu Hp Hs Hr|p q rst s' r' H' Hp Hs Hr]; subst.
  - rewrite distance_lerp_l by lra. rewrite lerp_lerp_l.
    apply (at_arc_here' a b rest (u * t)); [nra|ring|reflexivity].
  - inversion H' as [p q rst u Hu Hp Hs Hr|p q rst s'' r'' H'' Hp Hs Hr];
      subst.
    + rewrite distance_lerp_l, distance_lerp_r by lra. rewrite lerp_lerp_r.
      apply (at_arc_here' a b rest (t + u * (1 - t)));
        [nra|ring|reflexivity].
    + rewrite distance_lerp_l, distance_lerp_r by lra.
      eapply at_arc_later'; [exact H''|ring].
Qed.

Lemma at_arc_insert before : forall a b rest t s r,
  0 <= t <= 1 ->
  at_arc (before ++ a :: lerp a b t :: b :: rest) s r ->
  at_arc (before ++ a :: b :: rest) s r.
Proof.
  induction before as [|p before IH]; intros a b rest t s r Ht H.
  - cbn [app] in *. eapply at_arc_insert_here; eassumption.
  - cbn [app] in *.
    destruct before as [|p' before].
    + cbn [app] in *.
      inversion H as [p0 q rst u Hu Hp Hs Hr|p0 q rst s' r' H' Hp Hs Hr];
        subst.
      * now constructor.
      * constructor. apply (IH a b rest t); [exact Ht|exact H'].
    + cbn [app] in *.
      inversion H as [p0 q rst u Hu Hp Hs Hr|p0 q rst s' r' H' Hp Hs Hr];
        subst.
      * now constructor.
      * constructor. apply (IH a b rest t); [exact Ht|exact H'].
Qed.

Lemma at_arc_y c l s r :
  Forall (fun p => p_y p = c) l -> at_arc l s r -> p_y r = c.
Proof.
  intros Hall H; induction H as [p q rest t Ht|p q rest s r H IH].
  - pose proof (Forall_inv Hall) as Hp.
    pose proof (Forall_inv (Forall_inv_tail Hall)) as Hq.
    cbv beta in Hp, Hq.
    unfold lerp; cbn [p_y]. rewrite Hp, Hq. ring.
  - apply IH. exact (Forall_inv_tail Hall).
Qed.

(* ------------------------------------------------------------------ *)
(** ** The resampling loop *)

Lemma resample_loop_eq fuel interval points i d new_points :
  resample_loop fuel interval points i d new_points
  = if (i <? List.length points)%nat then
      match fuel with
      | O => OutOfFuel
      | S fuel' =>
          let a := nth (i - 1) points origin in
          let b := nth i points origin in
          let d1 := _distance a b in
          if Rleb interval (d + d1) then
            if Req_dec_T d1 0 then Raises ZeroDivisionError
            else
              let q := lerp a b ((interval - d) / d1) in
              resample_loop fuel' interval (insert_at i q points) (i + 1) 0
                            (new_points ++ [q])
          else
            resample_loop fuel' interval points (i + 1) (d + d1) new_points
      end
    else Returns (new_points, points).
Proof. destruct fuel; reflexivity. Qed.

Lemma insert_at_split {A} (before : list A) a q rest :
  insert_at (List.length before + 1) q (before ++ a :: rest)
  = (before ++ [a]) ++ q :: rest.
Proof.
  unfold insert_at.
  replace (before ++ a :: rest) with ((before ++ [a]) ++ rest)
    by (now rewrite <- app_assoc).
  replace (List.length before + 1)%nat with (List.length (before ++ [a]))
    by (rewrite length_app; reflexivity).
  rewrite firstn_app, firstn_all, Nat.sub_diag, firstn_O, app_nil_r.
  rewrite skipn_app, skipn_all, Nat.sub_diag, skipn_O.
  reflexivity.
Qed.

(** The loop on indices is the loop on the split list. *)
Lemma resample_loop_walk fuel interval :
  forall before prev rest d new_points,
    resample_loop fuel interval (before ++ prev :: rest)
                  (List.length before + 1) d new_points
    = walk fuel interval before prev rest d new_points.
Proof.
  induction fuel as [|fuel IH]; intros before prev rest d new_points;
    rewrite resample_loop_eq; rewrite length_app; cbn [List.length].
  - destruct rest as [|p rest]; cbn [List.length walk].
    + replace (List.length before + 1 <? List.length before + 1)%nat
        with false by (symmetry; apply Nat.ltb_ge; lia).
      reflexivity.
    + replace (List.length before + 1
               <? List.length before + S (S (List.length rest)))%nat
        with true by (symmetry; apply Nat.ltb_lt; lia).
      reflexivity.
  - destruct rest as [|p rest]; cbn [List.length walk].
    + replace (List.length before + 1 <? List.length before + 1)%nat
        with false by (symmetry; apply Nat.ltb_ge; lia).
      reflexivity.
    + replace (List.length before + 1
               <? List.length before + S (S (List.length rest)))%nat
        with true by (symmetry; apply Nat.ltb_lt; lia).
      cbv zeta.
      replace (List.length before + 1 - 1)%nat with (List.length before)
        by lia.
      rewrite nth_middle.
      replace (nth (List.length before + 1) (before ++ prev :: p :: rest)
                   origin) with p.
      2:{ replace (before ++ prev :: p :: rest)
            with ((before ++ [prev]) ++ p :: rest)
            by (now rewrite <- app_assoc).
          replace (List.length before + 1)%nat
            with (List.length (before ++ [prev]))
            by (rewrite length_app; reflexivity).
          now rewrite nth_middle. }
      destruct (Rleb interval (d + _distance prev p)).
      * destruct (Req_dec_T (_distance prev p) 0); [reflexivity|].
        rewrite insert_at_split.
        replace (List.length before + 1 + 1)%nat
          with (List.length (before ++ [prev]) + 1)%nat
          by (rewrite length_app; reflexivity).
        apply IH.
      * replace (before ++ prev :: p :: rest)
          with ((before ++ [prev]) ++ p :: rest)
          by (now rewrite <- app_assoc).
        replace (List.length before + 1 + 1)%nat
          with (List.length (before ++ [prev]) + 1)%nat
          by (rewrite length_app; reflexivity).
        apply IH.
Qed.

Lemma path_length_insert before a b rest t :
  0 <= t <= 1 ->
  _path_length (before ++ a :: lerp a b t :: b :: rest)
  = _path_length (before ++ a :: b :: rest).
Proof.
  intros Ht.
  rewrite (path_length_app before a (lerp a b t :: b :: rest)).
  rewrite (path_length_app before a (b :: rest)).
  rewrite !path_length_cons2.
  rewrite distance_lerp_l, distance_lerp_r by lra. ring.
Qed.

Section Resampling.

Variable P : list Point.
Variable I : R.
Variable N : nat.
Hypothesis I_pos : 0 < I.
Hypothesis N_ge_2 : (2 <= N)%nat.
Hypothesis P_length : _path_length P = INR (N - 1) * I.

(** A point is put on the segment. *)
Lemma walk_inv_insert before prev p rest d new_points :
  walk_inv P I before prev (p :: rest) d new_points ->
  I <= d + _distance prev p ->
  let q := lerp prev p ((I - d) / _distance prev p) in
  _distance prev p <> 0
  /\ walk_inv P I (before ++ [prev]) q (p :: rest) 0 (new_points ++ [q])
  /\ (List.length new_points + 1 <= N)%nat.
Proof.
  intros Hinv Hreach q.
  destruct Hinv as [Href Htot Hpos Hne Hd Harc Hlen Hhead].
  pose proof (distance_nonneg prev p) as Hd1.
  assert (Hd1pos : 0 < _distance prev p) by lra.
  set (t := (I - d) / _distance prev p) in *.
  assert (Ht : 0 <= t <= 1).
  { unfold t; split.
    - apply Rmult_le_pos; [lra|]. left; now apply Rinv_0_lt_compat.
    - apply (Rmult_le_reg_r (_distance prev p)); [exact Hd1pos|].
      unfold Rdiv. rewrite Rmult_assoc, Rinv_l by lra. lra. }
  assert (Htd : t * _distance prev p = I - d).
  { unfold t, Rdiv. rewrite Rmult_assoc, Rinv_l by lra. ring. }
  assert (Hcur : (before ++ [prev]) ++ q :: p :: rest
                 = before ++ prev :: lerp prev p t :: p :: rest)
    by (now rewrite <- app_assoc).
  assert (Hq : _path_length ((before ++ [prev]) ++ [q])
               = INR (List.length new_points) * I).
  { rewrite path_length_snoc, Hpos. unfold q.
    rewrite distance_lerp_l by lra. rewrite Htd.
    replace (INR (List.length new_points))
      with (INR (List.length new_points - 1) + 1); [ring|].
    rewrite <- S_INR. f_equal. lia. }
  assert (Hat : at_arc P (INR (List.length new_points) * I) q).
  { apply Href. rewrite <- Hq.
    apply at_arc_insert with (t := t); [exact Ht|].
    rewrite <- Hcur. apply at_arc_vertex. }
  assert (Hbound : (List.length new_points + 1 <= N)%nat).
  { apply at_arc_bounds in Hat. rewrite P_length in Hat.
    assert (INR (List.length new_points) <= INR (N - 1)) by nra.
    apply INR_le in H. lia. }
  split; [lra|]. split; [|exact Hbound].
  constructor.
  - intros s r H. apply Href.
    apply at_arc_insert with (t := t); [exact Ht|]. now rewrite <- Hcur.
  - rewrite Hcur, path_length_insert by exact Ht. exact Htot.
  - rewrite Hq, length_app. cbn [List.length].
    replace (List.length new_points + 1 - 1)%nat
      with (List.length new_points) by lia.
    ring.
  - rewrite length_app. lia.
  - lra.
  - intros k Hk. rewrite length_app in Hk. cbn [List.length] in Hk.
    destruct (Nat.eq_dec k (List.length new_points)) as [->|Hneq].
    + rewrite nth_middle. exact Hat.
    + rewrite app_nth1 by lia. apply Harc. lia.
  - rewrite Hcur, !length_app in *. cbn [List.length] in *. lia.
  - rewrite app_nth1 by lia. exact Hhead.
Qed.

(** The loop moves on to the next vertex. *)
Lemma walk_inv_advance before prev p rest d new_points :
  walk_inv P I before prev (p :: rest) d new_points ->
  d + _distance prev p < I ->
  walk_inv P I (before ++ [prev]) p rest (d + _distance prev p) new_points.
Proof.
  intros Hinv Hshort.
  destruct Hinv as [Href Htot Hpos Hne Hd Harc Hlen Hhead].
  pose proof (distance_nonneg prev p) as Hd1.
  assert (Hcur : (before ++ [prev]) ++ p :: rest
                 = before ++ prev :: p :: rest)
    by (now rewrite <- app_assoc).
  constructor; try assumption.
  - now rewrite Hcur.
  - now rewrite Hcur.
  - rewrite path_length_snoc, Hpos. ring.
  - lra.
  - now rewrite Hcur.
Qed.

(** At the end of the list, all the points are found. *)
Lemma walk_inv_done before prev d new_points :
  walk_inv P I before prev [] d new_points ->
  List.length new_points = N.
Proof.
  intros [Href Htot Hpos Hne Hd Harc Hlen Hhead].
  rewrite Htot, P_length in Hpos.
  assert (Hlo : INR (List.length new_points - 1) <= INR (N - 1)) by nra.
  assert (Hhi : INR (N - 1) < INR (List.length new_points - 1) + 1) by nra.
  apply INR_le in Hlo. rewrite <- S_INR in Hhi. apply INR_lt in Hhi. lia.
Qed.

(** The loop returns, with a budget of one step per vertex and per
    point. *)
Lemma walk_returns fuel : forall before prev rest d new_points,
  walk_inv P I before prev rest d new_points ->
  (List.length rest + (N - List.length new_points) <= fuel)%nat ->
  exists new_points' points',
    walk fuel I before prev rest d new_points
    = Returns (new_points', points')
    /\ List.length new_points' = N
    /\ (forall k, (k < N)%nat ->
                  at_arc P (INR k * I) (nth k new_points' origin))
    /\ nth 0 new_points' origin = nth 0 P origin
    /\ (forall s r, at_arc points' s r -> at_arc P s r)
    /\ _path_length points' = _path_length P
    /\ List.length points' = (List.length P + (N - 1))%nat.
Proof.
  induction fuel as [|fuel IH]; intros before prev rest d new_points Hinv Hfuel.
  - destruct rest as [|p rest]; [|cbn [List.length] in Hfuel; lia].
    pose proof (walk_inv_done _ _ _ _ Hinv) as Hn.
    destruct Hinv as [Href Htot Hpos Hne Hd Harc Hlen Hhead].
    exists new_points, (before ++ [prev]). cbn [walk].
    rewrite Hn in *. repeat split; try assumption.
  - destruct rest as [|p rest].
    + pose proof (walk_inv_done _ _ _ _ Hinv) as Hn.
      destruct Hinv as [Href Htot Hpos Hne Hd Harc Hlen Hhead].
      exists new_points, (before ++ [prev]). cbn [walk].
      rewrite Hn in *. repeat split; try assumption.
    + cbn [walk]. cbv zeta.
      destruct (Rleb I (d + _distance prev p)) eqn:Hreach.
      * apply Rleb_true_iff in Hreach.
        destruct (walk_inv_insert _ _ _ _ _ _ Hinv Hreach)
          as (Hd1 & Hinv' & Hbound).
        destruct (Req_dec_T (_distance prev p) 0) as [H0|_];
          [contradiction|].
        apply IH; [exact Hinv'|].
        rewrite length_app. cbn [List.length] in *. lia.
      * apply Rleb_false_iff in Hreach.
        apply IH; [now apply walk_inv_advance|].
        cbn [List.length] in Hfuel. lia.
Qed.

End Resampling.

Lemma nth_pred_length {A} (l : list A) d :
  l <> [] -> nth (List.length l - 1) l d = last l d.
Proof.
  intros Hl. destruct (exists_last Hl) as (l' & a & ->).
  rewrite length_app. cbn [List.length].
  replace (List.length l' + 1 - 1)%nat with (List.length l') by lia.
  now rewrite nth_middle, last_last.
Qed.

(** What [_resample] gives for a stroke of positive length. *)
Lemma resample_spec (points : list Point) (n : Z) :
  (2 <= List.length points)%nat -> 0 < _path_length points -> (2 <= n)%Z ->
  let interval := _path_length points / IZR (n - 1) in
  exists new_points points',
    _resample points n = Returns (new_points, points')
    /\ List.length new_points = Z.to_nat n
    /\ (forall k, (k < Z.to_nat n)%nat ->
                  at_arc points (INR k * interval) (nth k new_points origin))
    /\ nth 0 new_points origin = nth 0 points origin
    /\ last new_points origin = last points origin
    /\ (forall s r, at_arc points' s r -> at_arc points s r)
    /\ _path_length points' = _path_length points
    /\ List.length points' = (List.length points + (Z.to_nat n - 1))%nat.
Proof.
  intros Hlen Hpos Hn interval.
  assert (Hn1 : IZR (n - 1) = INR (Z.to_nat n - 1)).
  { rewrite INR_IZR_INZ. f_equal. lia. }
  assert (Hn1pos : 0 < IZR (n - 1)) by (apply IZR_lt; lia).
  assert (HI : 0 < interval).
  { unfold interval. apply Rmult_lt_0_compat; [exact Hpos|].
    now apply Rinv_0_lt_compat. }
  assert (HL : _path_length points = INR (Z.to_nat n - 1) * interval).
  { unfold interval. rewrite <- Hn1. field. lra. }
  destruct points as [|p0 [|p1 tl]]; try (cbn [List.length] in Hlen; lia).
  assert (Hinv : walk_inv (p0 :: p1 :: tl) interval [] p0 (p1 :: tl) 0 [p0]).
  { constructor; cbn [app List.length nth]; try easy.
    - cbn [_path_length]. simpl INR. ring.
    - intros k Hk. assert (k = 0%nat) by lia. subst k.
      simpl INR. rewrite Rmult_0_l. apply at_arc_start. }
  destruct (walk_returns (p0 :: p1 :: tl) interval (Z.to_nat n) HI
              ltac:(lia) HL
              (List.length (p0 :: p1 :: tl) + Z.to_nat n)
              [] p0 (p1 :: tl) 0 [p0] Hinv)
    as (new_points & points' & Hwalk & Hcount & Harc & Hhead & Href
        & Htot & Hlen').
  { cbn [List.length]. lia. }
  exists new_points, points'.
  assert (Hrun : _resample (p0 :: p1 :: tl) n = Returns (new_points, points')).
  { unfold _resample.
    replace (List.length (p0 :: p1 :: tl) <? 2)%nat with false
      by (symmetry; apply Nat.ltb_ge; cbn [List.length]; lia).
    replace (n - 1 =? 0)%Z with false by (symmetry; apply Z.eqb_neq; lia).
    cbv zeta. fold interval.
    change (nth 0 (p0 :: p1 :: tl) origin) with p0.
    pose proof (resample_loop_walk
                  (List.length (p0 :: p1 :: tl) + Z.to_nat n) interval
                  [] p0 (p1 :: tl) 0 [p0]) as Heq.
    cbn [app List.length Nat.add] in Heq.
    cbn [List.length Nat.add]. rewrite Heq.
    cbn [List.length Nat.add] in Hwalk. rewrite Hwalk.
    replace (Z.of_nat (List.length new_points) =? n - 1)%Z with false
      by (symmetry; apply Z.eqb_neq; lia).
    reflexivity. }
  repeat split; try assumption.
  rewrite <- nth_pred_length
    by (intros ->; cbn [List.length] in Hcount; lia).
  rewrite Hcount.
  apply (at_arc_end (p0 :: p1 :: tl) (INR (Z.to_nat n - 1) * interval)).
  - apply Harc. lia.
  - now rewrite HL.
Qed.


(* ------------------------------------------------------------------ *)
(** ** The recognizer *)

Lemma path_length_pos p q rest : p <> q -> 0 < _path_length (p :: q :: rest).
Proof.
  intros Hpq. rewrite path_length_cons2.
  pose proof (distance_nonneg p q) as Hd.
  pose proof (path_length_nonneg (q :: rest)) as Hr.
  destruct (Req_dec_T (_distance p q) 0) as [H0|H0]; [|lra].
  apply distance_zero in H0. contradiction.
Qed.

Lemma distance_ge_dy a b : Rabs (p_y a - p_y b) <= _distance a b.
Proof.
  unfold _distance. rewrite <- sqrt_Rsqr_abs.
  apply sqrt_le_1_alt. rewrite Rsqr_pow2.
  pose proof (pow2_ge_0 (p_x a - p_x b)). lra.
Qed.

Lemma sum_distances_apart c1 c2 l1 : forall l2,
  Forall (fun p => p_y p = c1) l1 -> Forall (fun p => p_y p = c2) l2 ->
  List.length l1 = List.length l2 ->
  INR (List.length l1) * Rabs (c1 - c2) <= sum_distances l1 l2.
Proof.
  induction l1 as [|p l1 IH]; intros [|q l2] H1 H2 Hlen;
    try discriminate.
  - cbn. lra.
  - cbn [sum_distances List.length]. rewrite S_INR.
    pose proof (distance_ge_dy p q) as Hd.
    rewrite (Forall_inv H1), (Forall_inv H2) in Hd.
    specialize (IH l2 (Forall_inv_tail H1) (Forall_inv_tail H2)
                   ltac:(now inversion Hlen)).
    lra.
Qed.

Lemma path_distance_score pts template :
  pts <> [] -> _path_distance pts template = Returns (template_score pts template).
Proof.
  intros Hpts. unfold _path_distance, template_score.
  destruct (negb (List.length pts =? List.length template)%nat);
    [reflexivity|].
  destruct pts; [contradiction|reflexivity].
Qed.

(** Scores are ordered, with [Inf] on top. *)
Lemma score_le_trans a b c :
  score_ltb b a = false -> score_ltb c b = false -> score_ltb c a = false.
Proof.
  destruct a, b, c; cbn; try congruence; try reflexivity.
  rewrite !Rltb_false_iff. lra.
Qed.

Lemma score_ltb_irrefl a : score_ltb a a = false.
Proof. destruct a; cbn; [apply Rltb_false_iff; lra|reflexivity]. Qed.

Lemma score_ltb_le a b : score_ltb a b = true -> score_ltb b a = false.
Proof.
  destruct a, b; cbn; try congruence; try reflexivity.
  rewrite Rltb_true_iff, Rltb_false_iff. lra.
Qed.

(** The loop over the templates keeps the first template of least
    score. *)
Lemma best_match_spec pts templates :
  pts <> [] ->
  forall best_score best_gesture scores,
  exists best_score' best_gesture',
    best_match pts templates best_score best_gesture scores
    = Returns (best_score', best_gesture',
               rev (map fst templates) ++ scores)
    /\ score_ltb best_score best_score' = false
    /\ (forall name t, In (name, t) templates ->
                       score_ltb (template_score pts t) best_score' = false)
    /\ ((best_score' = best_score /\ best_gesture' = best_gesture)
        \/ exists name t,
             In (name, t) templates /\ best_gesture' = Some name
             /\ best_score' = template_score pts t
             /\ score_ltb best_score' best_score = true).
Proof.
  intros Hpts.
  induction templates as [|[name t] templates IH];
    intros best_score best_gesture scores.
  - exists best_score, best_gesture. cbn [best_match map rev app].
    repeat split.
    + apply score_ltb_irrefl.
    + intros ? ? [].
    + now left.
  - cbn [best_match]. rewrite path_distance_score by assumption.
    cbn [map rev fst]. rewrite <- app_assoc. cbn [app].
    destruct (score_ltb (template_score pts t) best_score) eqn:Hlt.
    + destruct (IH (template_score pts t) (Some name) (name :: scores))
        as (bs & bg & Hrun & Hle & Hmin & Hwho).
      exists bs, bg. rewrite Hrun. repeat split.
      * eapply score_le_trans; [exact Hle|]. now apply score_ltb_le.
      * intros name' t' [Heq|Hin]; [|now apply (Hmin name')].
        inversion Heq; subst. exact Hle.
      * right. destruct Hwho as [[-> ->]|(name' & t' & Hin & Hg & Hs & Hlt')].
        -- exists name, t. repeat split; auto. now left.
        -- exists name', t'. repeat split; auto; [now right|].
           destruct bs as [x|], (template_score pts t) as [y|],
                    best_score as [z|];
             cbn in *; try congruence; try reflexivity.
           rewrite Rltb_true_iff in *. lra.
    + destruct (IH best_score best_gesture (name :: scores))
        as (bs & bg & Hrun & Hle & Hmin & Hwho).
      exists bs, bg. rewrite Hrun. repeat split.
      * exact Hle.
      * intros name' t' [Heq|Hin]; [|now apply (Hmin name')].
        inversion Heq; subst.
        eapply score_le_trans; [exact Hle|exact Hlt].
      * destruct Hwho as [[-> ->]|(name' & t' & Hin & Hg & Hs & Hlt')].
        -- now left.
        -- right. exists name', t'. repeat split; auto. now right.
Qed.

Lemma left_points_length : List.length left_points = 11%nat.
Proof. reflexivity. Qed.

Lemma right_points_length : List.length right_points = 11%nat.
Proof. reflexivity. Qed.

Lemma left_points_y : Forall (fun p => p_y p = 1 / 2) left_points.
Proof. unfold left_points. apply Forall_map. now apply Forall_forall. Qed.

Lemma right_points_y : Forall (fun p => p_y p = 1 / 2) right_points.
Proof. unfold right_points. apply Forall_map. now apply Forall_forall. Qed.

Lemma left_points_pos : 0 < _path_length left_points.
Proof.
  unfold left_points. cbn [seq map]. apply path_length_pos.
  intros H. inversion H as [Hx]. simpl in Hx. lra.
Qed.

Lemma right_points_pos : 0 < _path_length right_points.
Proof.
  unfold right_points. cbn [seq map]. apply path_length_pos.
  intros H. inversion H as [Hx]. simpl in Hx. lra.
Qed.

(** The points that [_resample] returns are on the level of the stroke. *)
Lemma resample_level c points n new_points points' :
  (2 <= List.length points)%nat -> 0 < _path_length points -> (2 <= n)%Z ->
  Forall (fun p => p_y p = c) points ->
  _resample points n = Returns (new_points, points') ->
  Forall (fun p => p_y p = c) new_points.
Proof.
  intros Hlen Hpos Hn Hy Hrun.
  destruct (resample_spec points n Hlen Hpos Hn)
    as (new_points0 & points0 & Hrun0 & Hcount & Harc & _).
  rewrite Hrun in Hrun0. inversion Hrun0; subst new_points0 points0.
  apply Forall_nth. intros k d Hk.
  rewrite (nth_indep _ d origin Hk).
  eapply at_arc_y; [exact Hy|]. apply Harc. now rewrite <- Hcount.
Qed.

(** The two templates: 64 points each, on the level 0.5. *)
Lemma create_templates_spec :
  exists left_template right_template,
    _create_templates 64
    = Returns [("left"%string, left_template);
               ("right"%string, right_template)]
    /\ List.length left_template = 64%nat
    /\ List.length right_template = 64%nat
    /\ Forall (fun p => p_y p = 1 / 2) left_template
    /\ Forall (fun p => p_y p = 1 / 2) right_template.
Proof.
  assert (Hl : (2 <= List.length left_points)%nat)
    by (rewrite left_points_length; lia).
  assert (Hr : (2 <= List.length right_points)%nat)
    by (rewrite right_points_length; lia).
  destruct (resample_spec left_points 64 Hl left_points_pos ltac:(lia))
    as (tl & pl & Hrunl & Hcountl & _).
  destruct (resample_spec right_points 64 Hr right_points_pos ltac:(lia))
    as (tr & pr & Hrunr & Hcountr & _).
  exists tl, tr. unfold _create_templates. rewrite Hrunl, Hrunr.
  repeat split; try assumption.
  - exact (resample_level (1 / 2) left_points 64 tl pl Hl left_points_pos
                           ltac:(lia) left_points_y Hrunl).
  - exact (resample_level (1 / 2) right_points 64 tr pr Hr right_points_pos
                           ltac:(lia) right_points_y Hrunr).
Qed.

(** What [recognize] does with a captured stroke of positive length. *)
Lemma recognize_spec (now : R) (self : DollarRecognizer) :
  (5 <= List.length (points self))%nat ->
  0 < _path_length (points self) ->
  num_points self = 64%Z ->
  _create_templates 64 = Returns (templates self) ->
  exists pts buffer found self',
    _resample (points self) 64 = Returns (pts, buffer)
    /\ recognize now self = Returns (found, self')
    /\ List.length buffer = (List.length (points self) + 63)%nat
    /\ (forall s r, at_arc buffer s r -> at_arc (points self) s r)
    /\ templates self' = templates self
    /\ match found with
       | Some name =>
           exists t,
             In (name, t) (templates self)
             /\ score_ltb (template_score pts t) (Fin (1 / 2)) = true
             /\ (forall name' t', In (name', t') (templates self) ->
                   score_ltb (template_score pts t') (template_score pts t)
                   = false)
             /\ points self' = []
             /\ last_gesture_time self' = now
       | None =>
           (forall name' t', In (name', t') (templates self) ->
              score_ltb (template_score pts t') (Fin (1 / 2)) = false)
           /\ points self' = buffer
           /\ last_gesture_time self' = last_gesture_time self
       end.
Proof.
  intros Hlen Hpos Hnum Htemplates.
  destruct (resample_spec (points self) 64 ltac:(lia) Hpos ltac:(lia))
    as (pts & buffer & Hrun & Hcount & _ & _ & _ & Href & _ & Hbuf).
  assert (Hpts : pts <> [])
    by (intros ->; cbn [List.length] in Hcount; lia).
  destruct create_templates_spec as (tl & tr & Hbuilt & _).
  rewrite Htemplates in Hbuilt. inversion Hbuilt as [Ht].
  destruct (best_match_spec pts (templates self) Hpts Inf None [])
    as (bs & bg & Hbest & _ & Hmin & Hwho).
  exists pts, buffer.
  unfold recognize.
  replace (List.length (points self) <? 5)%nat with false
    by (symmetry; apply Nat.ltb_ge; lia).
  rewrite Hnum, Hrun, Hbest.
  assert (Hkeys : has_key "left" (rev (map fst (templates self)) ++ [])
                  && has_key "right" (rev (map fst (templates self)) ++ [])
                  = true) by (rewrite Ht; reflexivity).
  rewrite Hkeys.
  destruct (score_ltb bs (Fin (1 / 2))) eqn:Hgood.
  - destruct Hwho as [[-> ->]|(name & t & Hin & -> & -> & _)];
      [discriminate|].
    eexists (Some name), _. repeat split; cbn [templates points
                                               last_gesture_time]; auto.
    exists t. repeat split; auto.
  - eexists None, _. repeat split; cbn [templates points last_gesture_time];
      auto.
    intros name' t' Hin.
    eapply score_le_trans; [exact Hgood|]. now apply (Hmin name').
Qed.

Lemma far_stroke_pos : 0 < _path_length far_stroke.
Proof.
  unfold far_stroke. apply path_length_pos.
  intros H. inversion H. lra.
Qed.

Lemma far_stroke_y : Forall (fun p => p_y p = 2) far_stroke.
Proof. unfold far_stroke. repeat constructor. Qed.

(** Points on the level 2 are at least 1.5 away from both templates. *)
Lemma far_scores templates pts :
  _create_templates 64 = Returns templates ->
  List.length pts = 64%nat -> Forall (fun p => p_y p = 2) pts ->
  forall name t, In (name, t) templates ->
    score_ltb (template_score pts t) (Fin (1 / 2)) = false.
Proof.
  intros Htemplates Hcount Hy name t Hin.
  destruct create_templates_spec as (tl & tr & Hbuilt & Hl & Hr & Hyl & Hyr).
  rewrite Htemplates in Hbuilt. inversion Hbuilt as [Ht].
  rewrite Ht in Hin.
  assert (Hfar : forall t', List.length t' = 64%nat ->
                   Forall (fun p => p_y p = 1 / 2) t' ->
                   score_ltb (template_score pts t') (Fin (1 / 2)) = false).
  { intros t' Hlen' Hy'. unfold template_score. rewrite Hcount, Hlen'.
    cbn [Nat.eqb negb score_ltb]. apply Rltb_false_iff.
    pose proof (sum_distances_apart 2 (1 / 2) pts t' Hy Hy'
                  ltac:(congruence)) as Hsum.
    rewrite Hcount in Hsum.
    replace (Rabs (2 - 1 / 2)) with (3 / 2) in Hsum
      by (rewrite Rabs_right; lra).
    assert (H64 : INR 64 = 64) by (rewrite INR_IZR_INZ; reflexivity).
    rewrite H64 in *.
    apply (Rmult_le_reg_r 64); [lra|].
    unfold Rdiv at 2. rewrite Rmult_assoc, Rinv_l by lra. lra. }
  destruct Hin as [Heq|[Heq|[]]]; inversion Heq; subst; now apply Hfar.
Qed.

Lemma far_resampled :
  exists pts buffer,
    _resample far_stroke 64 = Returns (pts, buffer)
    /\ List.length pts = 64%nat
    /\ Forall (fun p => p_y p = 2) pts
    /\ List.length buffer = 68%nat.
Proof.
  destruct (resample_spec far_stroke 64
              ltac:(cbn [far_stroke List.length]; lia)
              far_stroke_pos ltac:(lia))
    as (pts & buffer & Hrun & Hc & _ & _ & _ & _ & _ & Hbuf).
  exists pts, buffer. split; [exact Hrun|]. split; [exact Hc|]. split.
  - apply (resample_level 2 far_stroke 64 pts buffer);
      [cbn [far_stroke List.length]; lia|exact far_stroke_pos|lia
      |exact far_stroke_y|exact Hrun].
  - rewrite Hbuf. reflexivity.
Qed.

Lemma still_stroke_length_0 : _path_length still_stroke = 0.
Proof.
  unfold still_stroke; cbn [repeat].
  rewrite !path_length_cons2, !distance_self. cbn [_path_length]. lra.
Qed.

(** A stroke that does not move makes [_resample] divide by zero. *)
Lemma resample_degenerate points n :
  (2 <= List.length points)%nat -> _path_length points = 0 -> (2 <= n)%Z ->
  _resample points n = Raises ZeroDivisionError.
Proof.
  intros Hlen Hzero Hn.
  destruct points as [|p0 [|p1 tl]]; try (cbn [List.length] in Hlen; lia).
  assert (Hd : _distance p0 p1 = 0).
  { rewrite path_length_cons2 in Hzero.
    pose proof (distance_nonneg p0 p1).
    pose proof (path_length_nonneg (p1 :: tl)). lra. }
  unfold _resample.
  replace (List.length (p0 :: p1 :: tl) <? 2)%nat with false
    by (symmetry; apply Nat.ltb_ge; exact Hlen).
  replace (n - 1 =? 0)%Z with false by (symmetry; apply Z.eqb_neq; lia).
  cbv zeta. rewrite Hzero.
  pose proof (resample_loop_walk
                (List.length (p0 :: p1 :: tl) + Z.to_nat n) (0 / IZR (n - 1))
                [] p0 (p1 :: tl) 0 [p0]) as Heq.
  cbn [app List.length Nat.add] in Heq.
  cbn [List.length Nat.add nth]. rewrite Heq.
  cbn [walk]. cbv zeta. rewrite Hd.
  replace (Rleb (0 / IZR (n - 1)) (0 + 0)) with true
    by (symmetry; apply Rleb_true_iff; unfold Rdiv; lra).
  destruct (Req_dec_T 0 0); [reflexivity|contradiction].
Qed.

Lemma recognize_raises now self e :
  (5 <= List.length (points self))%nat ->
  _resample (points self) (num_points self) = Raises e ->
  recognize now self = Raises e.
Proof.
  intros Hlen Hraise. unfold recognize.
  replace (List.length (points self) <? 5)%nat with false
    by (symmetry; apply Nat.ltb_ge; exact Hlen).
  now rewrite Hraise.
Qed.



(* ------------------------------------------------------------------ *)
(** ** Instances *)



Lemma C3_registry_latest_witness :
  NoDup (map fst (latest_objects gesture_world))
  /\ ~ In (Some 1%Z)
          (map fst (latest_objects
                      (exec (handle_all [(Add, wheel_marker);
                                         (Update, wheel_marker);
                                         (Remove, wheel_marker)])
                            gesture_world))).
Proof.
  assert (Hnd : NoDup (map fst (latest_objects gesture_world)))
    by constructor.
  split; [exact Hnd|].
  destruct (C3_registry_latest
              [(Add, wheel_marker); (Update, wheel_marker);
               (Remove, wheel_marker)] gesture_world Hnd)
    as (_ & _ & _ & _ & Hgone).
  apply (Hgone [(Add, wheel_marker); (Update, wheel_marker)] wheel_marker []).
  - reflexivity.
  - discriminate.
  - intros event_type obj' [].
Defined.

Lemma C4_final_on_commit_and_disable_witness :
  let t := mkTracker 450 690 11 (1 / 2) (Some 1%Z) true true 2 in
  let obs := mkObservation (fun _ => true) true [closed_hand] false 12 in
  gesture_active t = true
  /\ published (trace (hand_tracking_iteration obs t) gesture_world)
     = [final_of t; gesture_mode_toggled false]
  /\ published (trace (hand_tracking_iteration obs t)
                      (with_flag false gesture_world))
     = [final_of t].
Proof.
  intros t obs.
  destruct (C4_final_on_commit_and_disable obs t gesture_world eq_refl)
    as [_ Hcommit].
  destruct (C4_final_on_commit_and_disable obs t (with_flag false gesture_world)
              eq_refl) as [Hoff _].
  split; [reflexivity|]. split.
  - assert (Hcap : cap t <> None) by discriminate.
    destruct (Hcommit eq_refl Hcap eq_refl eq_refl closed_hand eq_refl
                      is_fist_closed_hand) as [H _].
    exact H.
  - destruct (Hoff eq_refl) as [H _]. exact H.
Defined.


Lemma C10_one_confirm_per_match_witness :
  is_add_or_update (r_event (wheel_record Add)) = true
  /\ List.length
       (filter is_wheel_select_confirm
          (published (trace (process_logic_and_broadcast (wheel_record Add))
                            selector_on_table))) = 1%nat.
Proof.
  split; [reflexivity|].
  destruct (C10_one_confirm_per_match (wheel_record Add) selector_on_table
              eq_refl) as [Hp _].
  destruct (Hp eq_refl) as [Hcount _].
  rewrite Hcount.
  cbn [latest_objects selector_on_table filter snd].
  rewrite selector_near. reflexivity.
Defined.




(* ================================================================== *)
(** * Further properties of the program *)

(* ------------------------------------------------------------------ *)
(** ** The wheel *)

Lemma py_mod_period x y (k : Z) : y <> 0 -> py_mod (x + IZR k * y) y = py_mod x y.
Proof.
  intros Hy. unfold py_mod.
  replace ((x + IZR k * y) / y) with (x / y + IZR k) by (field; exact Hy).
  rewrite Zfloor_addz, plus_IZR. ring.
Qed.


(** X2.  The list index of the wheel logic is always in range: the
    medication of the sector of any angle is the table entry of id
    [sector + 1]. *)
Theorem X2_medication_in_table :
  forall angle : R,
    let sector := snd (wheel_sector angle) in
    In ((sector + 1)%Z, medication_at sector) MEDICATION_SYMBOLS.
Proof.
  intros angle sector.
  pose proof (wheel_sector_range angle) as Hr. fold sector in Hr.
  assert (Hs : (sector = 0 \/ sector = 1 \/ sector = 2 \/ sector = 3
                \/ sector = 4 \/ sector = 5)%Z) by lia.
  repeat destruct Hs as [Hs|Hs]; rewrite Hs; cbn; tauto.
Qed.

(* ------------------------------------------------------------------ *)
(** ** The rules of the interaction logic *)

Lemma bind_ret_tt (m : M unit) w : (m ;; ret tt) w = m w.
Proof.
  unfold bind, ret. destruct (m w) as [[[] w1] t1]. now rewrite app_nil_r.
Qed.

Lemma exec_ret {A} (a : A) w : exec (ret a) w = w.
Proof. reflexivity. Qed.

Lemma trace_ret {A} (a : A) w : trace (ret a) w = [].
Proof. reflexivity. Qed.

Lemma result_ret {A} (a : A) w : result (ret a) w = a.
Proof. reflexivity. Qed.

Lemma exec_set_flag b w :
  exec (set_gesture_detection_enabled b) w = with_flag b w.
Proof. reflexivity. Qed.

Lemma trace_set_flag b w : trace (set_gesture_detection_enabled b) w = [].
Proof. reflexivity. Qed.

Lemma latest_objects_broadcast obj w :
  latest_objects (exec (broadcast obj) w) = latest_objects w.
Proof. apply keeps_broadcast. Qed.

(** X3.  A remove event, an event of a marker that is none of the four
    command markers, and an update of the back or edit-medications marker
    do nothing but broadcast the raw [tuio_obj] record: the run is the
    run of that one broadcast. *)
Theorem X3_raw_event_only :
  forall (record : TuioRecord) (w : World),
    no_rule record = true ->
    process_logic_and_broadcast record w = broadcast (tuio_obj record) w.
Proof.
  intros record w H.
  unfold process_logic_and_broadcast, no_rule in *. cbv zeta in *.
  destruct (r_event record);
    destruct (r_symbol_id record =? ROTATE_SYMBOL)%Z;
    destruct (r_symbol_id record =? NURSE_MODE_SYMBOL)%Z;
    destruct (r_symbol_id record =? BACK_SYMBOL)%Z;
    destruct (r_symbol_id record =? EDIT_MEDICATIONS_SYMBOL)%Z;
    cbn [andb orb negb is_add is_add_or_update] in H; try discriminate H;
    cbn [andb when is_add is_add_or_update];
    unfold bind, ret;
    destruct (broadcast (tuio_obj record) w) as [[[] w1] t1];
    cbn [app]; now rewrite !app_nil_r.
Qed.

Lemma X3_raw_event_only_witness :
  no_rule (mkRecord Remove ROTATE_SYMBOL (Some 1%Z) (1 / 2) (1 / 2) 0) = true
  /\ process_logic_and_broadcast
       (mkRecord Remove ROTATE_SYMBOL (Some 1%Z) (1 / 2) (1 / 2) 0)
       selector_on_table
     = broadcast
         (tuio_obj (mkRecord Remove ROTATE_SYMBOL (Some 1%Z) (1 / 2) (1 / 2) 0))
         selector_on_table.
Proof.
  split; [reflexivity|].
  apply (X3_raw_event_only
           (mkRecord Remove ROTATE_SYMBOL (Some 1%Z) (1 / 2) (1 / 2) 0)
           selector_on_table).
  reflexivity.
Defined.

Ltac run_simpl :=
  repeat first
    [ rewrite trace_bind | rewrite exec_bind | rewrite result_bind
    | rewrite exec_with_lock | rewrite result_with_lock
    | rewrite published_with_lock | rewrite published_app
    | rewrite published_broadcast | rewrite flag_broadcast
    | rewrite latest_objects_broadcast
    | rewrite exec_ret | rewrite trace_ret | rewrite result_ret
    | rewrite exec_set_flag | rewrite trace_set_flag
    | progress cbn [when andb negb published app is_add is_add_or_update] ].

(** The back marker put down. *)
Lemma back_add_run :
  forall (record : TuioRecord) (w : World),
    r_symbol_id record = BACK_SYMBOL ->
    r_event record = Add ->
    let run := process_logic_and_broadcast record in
    published (trace run w) = [tuio_obj record; back_pressed]
    /\ gesture_detection_enabled (exec run w) = false
    /\ latest_objects (exec run w) = latest_objects w.
Proof.
  intros record w Hsid Hevt run; subst run.
  split; [|split; [|apply keeps_process_logic]].
  - unfold process_logic_and_broadcast. cbv zeta. rewrite Hsid, Hevt.
    change (BACK_SYMBOL =? ROTATE_SYMBOL)%Z with false.
    change (BACK_SYMBOL =? NURSE_MODE_SYMBOL)%Z with false.
    change (BACK_SYMBOL =? BACK_SYMBOL)%Z with true.
    change (BACK_SYMBOL =? EDIT_MEDICATIONS_SYMBOL)%Z with false.
    run_simpl. reflexivity.
  - unfold process_logic_and_broadcast. cbv zeta. rewrite Hsid, Hevt.
    change (BACK_SYMBOL =? ROTATE_SYMBOL)%Z with false.
    change (BACK_SYMBOL =? NURSE_MODE_SYMBOL)%Z with false.
    change (BACK_SYMBOL =? BACK_SYMBOL)%Z with true.
    change (BACK_SYMBOL =? EDIT_MEDICATIONS_SYMBOL)%Z with false.
    run_simpl. reflexivity.
Qed.

(** X4.  Putting down the back marker broadcasts the raw record and then
    [back_pressed], and leaves gesture detection switched off, whatever it
    was and whatever is on the table; the registry is as the listener left
    it. *)
Theorem X4_back_pressed :
  forall (record : TuioRecord) (w : World),
    r_symbol_id record = BACK_SYMBOL ->
    r_event record = Add ->
    let run := process_logic_and_broadcast record in
    published (trace run w) = [tuio_obj record; back_pressed]
    /\ gesture_detection_enabled (exec run w) = false
    /\ latest_objects (exec run w) = latest_objects w.
Proof.
  intros record w Hsid Hevt. exact (back_add_run record w Hsid Hevt).
Qed.

Lemma X4_back_pressed_witness :
  let record := mkRecord Add BACK_SYMBOL (Some 3%Z) (1 / 2) (1 / 2) 0 in
  r_symbol_id record = BACK_SYMBOL /\ r_event record = Add
  /\ gesture_detection_enabled
       (exec (process_logic_and_broadcast record) gesture_world) = false.
Proof.
  intros record. split; [reflexivity|]. split; [reflexivity|].
  destruct (X4_back_pressed record gesture_world eq_refl eq_refl)
    as (_ & Hflag & _).
  exact Hflag.
Defined.

(** The edit-medications marker put down. *)
Lemma edit_add_run :
  forall (record : TuioRecord) (w : World),
    r_symbol_id record = EDIT_MEDICATIONS_SYMBOL ->
    r_event record = Add ->
    let run := process_logic_and_broadcast record in
    let marker13_nearby :=
      existsb (fun entry : SessionId * TuioRecord =>
                 (r_symbol_id (snd entry) =? NURSE_MODE_SYMBOL)%Z
                 && near (snd entry) record) (latest_objects w) in
    published (trace run w)
    = tuio_obj record
      :: (if marker13_nearby then [] else [gesture_mode_toggled true])
    /\ gesture_detection_enabled (exec run w)
       = (if marker13_nearby then gesture_detection_enabled w else true)
    /\ latest_objects (exec run w) = latest_objects w.
Proof.
  intros record w Hsid Hevt run nearby; subst run.
  assert (Hscan : forall d : Dict,
             existsb (fun '(_, srec) =>
                        (r_symbol_id srec =? NURSE_MODE_SYMBOL)%Z
                        && near srec record) d
             = existsb (fun entry : SessionId * TuioRecord =>
                          (r_symbol_id (snd entry) =? NURSE_MODE_SYMBOL)%Z
                          && near (snd entry) record) d).
  { induction d as [|[k srec] d IH]; cbn [existsb snd];
      [reflexivity|now rewrite IH]. }
  split; [|split; [|apply keeps_process_logic]].
  - unfold process_logic_and_broadcast. cbv zeta. rewrite Hsid, Hevt.
    change (EDIT_MEDICATIONS_SYMBOL =? ROTATE_SYMBOL)%Z with false.
    change (EDIT_MEDICATIONS_SYMBOL =? NURSE_MODE_SYMBOL)%Z with false.
    change (EDIT_MEDICATIONS_SYMBOL =? BACK_SYMBOL)%Z with false.
    change (EDIT_MEDICATIONS_SYMBOL =? EDIT_MEDICATIONS_SYMBOL)%Z with true.
    run_simpl.
    change (result get ?w') with w'. change (exec get ?w') with w'.
    change (trace get ?w') with (@nil Action).
    run_simpl. rewrite Hscan. fold nearby.
    destruct nearby; run_simpl; [reflexivity|].
    change (result get ?w') with w'. change (exec get ?w') with w'.
    change (trace get ?w') with (@nil Action).
    run_simpl. reflexivity.
  - unfold process_logic_and_broadcast. cbv zeta. rewrite Hsid, Hevt.
    change (EDIT_MEDICATIONS_SYMBOL =? ROTATE_SYMBOL)%Z with false.
    change (EDIT_MEDICATIONS_SYMBOL =? NURSE_MODE_SYMBOL)%Z with false.
    change (EDIT_MEDICATIONS_SYMBOL =? BACK_SYMBOL)%Z with false.
    change (EDIT_MEDICATIONS_SYMBOL =? EDIT_MEDICATIONS_SYMBOL)%Z with true.
    run_simpl.
    change (result get ?w') with w'. change (exec get ?w') with w'.
    run_simpl. rewrite Hscan. fold nearby.
    destruct nearby; run_simpl; [reflexivity|].
    change (result get ?w') with w'. change (exec get ?w') with w'.
    run_simpl. reflexivity.
Qed.

(** X5.  Putting down the edit-medications marker broadcasts the raw
    record; then, unless a nurse-mode marker of the registry is within
    0.08 of it, it switches gesture detection on and broadcasts
    [gesture_mode_toggled] with [enabled] true.  With a nurse-mode marker
    that near, nothing more is broadcast and the flag is left as it
    was. *)
Theorem X5_edit_marker_enables_gestures :
  forall (record : TuioRecord) (w : World),
    r_symbol_id record = EDIT_MEDICATIONS_SYMBOL ->
    r_event record = Add ->
    let run := process_logic_and_broadcast record in
    let marker13_nearby :=
      existsb (fun entry : SessionId * TuioRecord =>
                 (r_symbol_id (snd entry) =? NURSE_MODE_SYMBOL)%Z
                 && near (snd entry) record) (latest_objects w) in
    published (trace run w)
    = tuio_obj record
      :: (if marker13_nearby then [] else [gesture_mode_toggled true])
    /\ gesture_detection_enabled (exec run w)
       = (if marker13_nearby then gesture_detection_enabled w else true)
    /\ latest_objects (exec run w) = latest_objects w.
Proof.
  intros record w Hsid Hevt. exact (edit_add_run record w Hsid Hevt).
Qed.

Lemma X5_edit_marker_enables_gestures_witness :
  let record := mkRecord Add EDIT_MEDICATIONS_SYMBOL (Some 4%Z) (1 / 2) (1 / 2) 0 in
  r_symbol_id record = EDIT_MEDICATIONS_SYMBOL /\ r_event record = Add
  /\ gesture_detection_enabled
       (exec (process_logic_and_broadcast record)
             (with_flag false gesture_world)) = true.
Proof.
  intros record. split; [reflexivity|]. split; [reflexivity|].
  destruct (X5_edit_marker_enables_gestures record
              (with_flag false gesture_world) eq_refl eq_refl)
    as (_ & Hflag & _).
  exact Hflag.
Defined.

Lemma handle_obj_dropped event_type obj w :
  find_symbol_id obj = None -> _handle_obj event_type obj w = (tt, w, []).
Proof.
  intros Hid. unfold _handle_obj, make_record. now rewrite Hid.
Qed.

(** X6.  Callbacks for objects without a marker id (none of the four id
    attributes, or the first one present holding [None]) are dropped: such
    a callback takes no lock, broadcasts nothing and changes nothing, and a
    sequence of callbacks runs exactly as the sequence without them. *)
Theorem X6_objects_without_id_dropped :
  forall (events : list (EventKind * TuioObject)) (w : World),
    handle_all events w
    = handle_all
        (filter (fun '(_, obj) =>
                   match find_symbol_id obj with
                   | Some _ => true
                   | None => false
                   end) events) w.
Proof.
  induction events as [|[event_type obj] rest IH]; intros w; [reflexivity|].
  cbn [filter]. destruct (find_symbol_id obj) as [symbol|] eqn:Hid.
  - cbn [handle_all]. unfold bind.
    destruct (_handle_obj event_type obj w) as [[[] w1] t1].
    now rewrite IH.
  - cbn [handle_all]. unfold bind.
    rewrite (handle_obj_dropped event_type obj w Hid). cbn [app].
    rewrite IH. now destruct (handle_all _ w) as [[[] w2] t2].
Qed.

Lemma published_process_logic_head record w :
  exists rest,
    published (trace (process_logic_and_broadcast record) w)
    = tuio_obj record :: rest.
Proof.
  unfold process_logic_and_broadcast. cbv zeta.
  rewrite trace_bind, published_app, published_broadcast.
  eexists. reflexivity.
Qed.

(** X7.  A callback for an object with a marker id first broadcasts
    [tuio_obj] with the record built from the object (its position
    defaulting to 0.5 and its angle to 0 where the object has none); on an
    add or update that same record is what the registry then holds for the
    object's session id, and on a remove the session id is in the registry
    no more. *)
Theorem X7_record_broadcast_and_stored :
  forall (event_type : EventKind) (obj : TuioObject) (w : World)
         (symbol : Z),
    find_symbol_id obj = Some symbol ->
    NoDup (map fst (latest_objects w)) ->
    let record :=
      mkRecord event_type symbol (session_id obj)
        (getattr (attr_x obj)
           (getattr (attr_xpos obj) (getattr (attr_x_pos obj) (1 / 2))))
        (getattr (attr_y obj)
           (getattr (attr_ypos obj) (getattr (attr_y_pos obj) (1 / 2))))
        (getattr (attr_angle obj) 0) in
    let w' := exec (_handle_obj event_type obj) w in
    (exists rest,
        published (trace (_handle_obj event_type obj) w)
        = tuio_obj record :: rest)
    /\ dict_get (session_id obj) (latest_objects w')
       = (if is_add_or_update event_type then Some record else None)
    /\ (forall s, s <> session_id obj ->
                  dict_get s (latest_objects w')
                  = dict_get s (latest_objects w)).
Proof.
  intros event_type obj w symbol Hid Hnd record w'; subst w'.
  assert (Hrec : make_record event_type obj = Some record).
  { unfold make_record. now rewrite Hid. }
  split; [|split].
  - unfold _handle_obj. rewrite Hrec.
    rewrite trace_bind, published_app, published_with_lock.
    destruct (published_process_logic_head record
                (exec (with_lock latest_objects_lock
                         (w0 <- get ;;
                          (if is_add_or_update event_type
                           then set_latest_objects
                                  (dict_set (r_session_id record) record
                                            (latest_objects w0))
                           else set_latest_objects
                                  (dict_pop (r_session_id record)
                                            (latest_objects w0))))) w))
      as (rest & Hrest).
    rewrite Hrest.
    exists rest.
    replace (published (trace (w0 <- get ;; _) w)) with (@nil Event);
      [reflexivity|].
    rewrite trace_bind, published_app.
    now destruct (is_add_or_update event_type).
  - rewrite handle_obj_registry, Hrec.
    change (r_session_id record) with (session_id obj).
    destruct (is_add_or_update event_type).
    + now rewrite dict_get_set, session_eqb_refl.
    + now rewrite dict_get_pop, session_eqb_refl.
  - intros s Hs. rewrite handle_obj_registry, Hrec.
    change (r_session_id record) with (session_id obj).
    apply session_eqb_neq in Hs.
    destruct (is_add_or_update event_type).
    + now rewrite dict_get_set, Hs.
    + now rewrite dict_get_pop, Hs.
Qed.

Lemma X7_record_broadcast_and_stored_witness :
  find_symbol_id wheel_marker = Some ROTATE_SYMBOL
  /\ NoDup (map fst (latest_objects selector_on_table))
  /\ dict_get (Some 1%Z)
       (latest_objects (exec (_handle_obj Add wheel_marker) selector_on_table))
     = Some (wheel_record Add).
Proof.
  assert (Hnd : NoDup (map fst (latest_objects selector_on_table)))
    by (repeat constructor; intros []).
  split; [reflexivity|]. split; [exact Hnd|].
  destruct (X7_record_broadcast_and_stored Add wheel_marker selector_on_table
              ROTATE_SYMBOL eq_refl Hnd) as (_ & Hget & _).
  exact Hget.
Defined.

(* ------------------------------------------------------------------ *)
(** ** The client list *)

Lemma filter_idem {A} (f : A -> bool) l : filter f (filter f l) = filter f l.
Proof.
  induction l as [|a l IH]; [reflexivity|].
  cbn [filter]. destruct (f a) eqn:E; [|exact IH].
  cbn [filter]. now rewrite E, IH.
Qed.

(** X8.  A client whose send failed is removed once and for all: in a
    second publish (the connections being as they were) only the clients
    that survived the first are tried, every send succeeds, and the client
    list stays as the first publish left it. *)
Theorem X8_dead_clients_stay_removed :
  forall (first second : Event) (w : World),
    let w1 := exec (broadcast first) w in
    let t2 := trace (broadcast second) w1 in
    attempts t2
    = map (fun c => (c, JsonLine second)) (filter (socket_ok w) (clients w))
    /\ (forall c data ok, In (SendAll c data ok) t2 -> ok = true)
    /\ clients (exec (broadcast second) w1) = clients w1.
Proof.
  intros first second w w1 t2; subst w1 t2.
  unfold trace at 1 2, exec at 1. rewrite !broadcast_run. cbn [fst snd].
  rewrite clients_broadcast.
  cbn [with_clients clients socket_ok].
  repeat split.
  - cbn [attempts]. rewrite attempts_app, attempts_sends. cbn [attempts].
    now rewrite app_nil_r.
  - intros c data ok [H|[H|H]]; try discriminate.
    apply in_app_or in H as [H|[H|[]]]; [|discriminate].
    unfold sends in H; apply in_map_iff in H as (c' & Heq & Hin).
    inversion Heq; subst. rewrite socket_ok_broadcast.
    now apply filter_In in Hin.
  - rewrite !clients_broadcast, socket_ok_broadcast. apply filter_idem.
Qed.

Lemma list_remove_in c c' l :
  In c' (list_remove c l) -> In c' l.
Proof.
  induction l as [|a l IH]; cbn [list_remove]; [easy|].
  destruct (Nat.eqb c a); cbn [In]; tauto.
Qed.

Lemma list_remove_other c c' l :
  c' <> c -> In c' l -> In c' (list_remove c l).
Proof.
  intros Hne. induction l as [|a l IH]; cbn [list_remove In]; [easy|].
  destruct (Nat.eqb_spec c a) as [->|Hca]; cbn [In]; intuition congruence.
Qed.

Lemma list_remove_NoDup c l :
  NoDup l -> NoDup (list_remove c l) /\ ~ In c (list_remove c l).
Proof.
  induction 1 as [|a l Ha Hnd [IH1 IH2]]; cbn [list_remove].
  - split; [constructor|easy].
  - destruct (Nat.eqb_spec c a) as [->|Hca].
    + now split.
    + split.
      * constructor; [|exact IH1].
        intros Hin; apply Ha. eapply list_remove_in; eassumption.
      * intros [Heq|Hin]; [congruence|contradiction].
Qed.

Lemma list_remove_last c l :
  ~ In c l -> list_remove c (l ++ [c]) = l.
Proof.
  induction l as [|a l IH]; cbn [list_remove app In]; intros Hn.
  - now rewrite Nat.eqb_refl.
  - destruct (Nat.eqb_spec c a) as [->|Hca]; [tauto|].
    rewrite IH; tauto.
Qed.

Lemma existsb_eqb_in c l : existsb (Nat.eqb c) l = true <-> In c l.
Proof.
  rewrite existsb_exists. split.
  - intros (x & Hin & Heq). apply Nat.eqb_eq in Heq. now subst.
  - intros Hin. exists c. split; [exact Hin|apply Nat.eqb_refl].
Qed.

Lemma clients_accept conn w :
  clients (exec (accept_client conn) w) = clients w ++ [conn].
Proof. reflexivity. Qed.

Lemma clients_reader_exit conn w :
  clients (exec (client_reader_exit conn) w)
  = if existsb (Nat.eqb conn) (clients w)
    then list_remove conn (clients w) else clients w.
Proof.
  unfold client_reader_exit. rewrite exec_with_lock, exec_bind.
  change (result get w) with w. change (exec get w) with w.
  now destruct (existsb (Nat.eqb conn) (clients w)).
Qed.



(* ------------------------------------------------------------------ *)
(** ** Distances between strokes *)

Lemma distance_sym a b : _distance a b = _distance b a.
Proof. unfold _distance. f_equal. ring. Qed.

Lemma sum_distances_sym l1 : forall l2,
  sum_distances l1 l2 = sum_distances l2 l1.
Proof.
  induction l1 as [|p l1 IH]; intros [|q l2]; cbn [sum_distances];
    try reflexivity.
  now rewrite distance_sym, IH.
Qed.

Lemma sum_distances_nonneg l1 : forall l2, 0 <= sum_distances l1 l2.
Proof.
  induction l1 as [|p l1 IH]; intros [|q l2]; cbn [sum_distances];
    try lra.
  pose proof (distance_nonneg p q). specialize (IH l2). lra.
Qed.

Lemma sum_distances_self l : sum_distances l l = 0.
Proof.
  induction l as [|p l IH]; cbn [sum_distances]; [reflexivity|].
  rewrite distance_self, IH. ring.
Qed.

Lemma sum_distances_zero l1 : forall l2,
  List.length l1 = List.length l2 -> sum_distances l1 l2 = 0 -> l1 = l2.
Proof.
  induction l1 as [|p l1 IH]; intros [|q l2] Hlen Hsum;
    try discriminate; [reflexivity|].
  cbn [sum_distances] in Hsum.
  pose proof (distance_nonneg p q). pose proof (sum_distances_nonneg l1 l2).
  assert (Hd : _distance p q = 0) by lra.
  apply distance_zero in Hd. subst q.
  f_equal. apply IH; [now inversion Hlen|lra].
Qed.

Lemma INR_length_pos {A} (l : list A) : l <> [] -> 0 < INR (List.length l).
Proof.
  destruct l; [contradiction|]. intros _. cbn [List.length].
  rewrite S_INR. pose proof (pos_INR (List.length l)). lra.
Qed.



(* ------------------------------------------------------------------ *)
(** ** Resampling *)

Lemma path_length_same p l :
  Forall (fun q => q = p) l -> _path_length (p :: l) = 0.
Proof.
  induction 1 as [|q l Hq _ IH]; [reflexivity|].
  subst q. rewrite path_length_cons2, distance_self, IH. ring.
Qed.



(* ------------------------------------------------------------------ *)
(** ** Strokes along a horizontal line *)

Lemma distance_on_line dir p q :
  dir = 1 \/ dir = -1 -> p_y p = p_y q -> 0 <= dir * (p_x q - p_x p) ->
  _distance p q = dir * (p_x q - p_x p).
Proof.
  intros Hdir Hy Hx. unfold _distance.
  replace ((p_x p - p_x q) ^ 2 + (p_y p - p_y q) ^ 2)
    with (Rsqr (dir * (p_x q - p_x p))).
  - now apply sqrt_Rsqr.
  - unfold Rsqr. rewrite Hy. destruct Hdir; subst dir; ring.
Qed.

Lemma distance_vertical p q :
  p_x p = p_x q -> _distance p q = Rabs (p_y p - p_y q).
Proof.
  intros Hx. unfold _distance. rewrite <- sqrt_Rsqr_abs. f_equal.
  unfold Rsqr. rewrite Hx. ring.
Qed.

Lemma at_arc_heading dir c l s r :
  dir = 1 \/ dir = -1 -> Forall (fun p => p_y p = c) l -> heading dir l ->
  at_arc l s r -> r = mkPoint (p_x (hd origin l) + dir * s) c.
Proof.
  intros Hdir Hall Hhead H.
  induction H as [p q rest t Ht|p q rest s r H IH].
  - pose proof (Forall_inv Hall) as Hp.
    pose proof (Forall_inv (Forall_inv_tail Hall)) as Hq.
    cbv beta in Hp, Hq. destruct Hhead as [Hx _].
    rewrite (distance_on_line dir p q Hdir ltac:(congruence) Hx).
    unfold lerp. cbn [hd]. rewrite Hp, Hq.
    f_equal; destruct Hdir; subst dir; ring.
  - pose proof (Forall_inv Hall) as Hp.
    pose proof (Forall_inv (Forall_inv_tail Hall)) as Hq.
    cbv beta in Hp, Hq. destruct Hhead as [Hx Hrest].
    rewrite (IH (Forall_inv_tail Hall) Hrest).
    rewrite (distance_on_line dir p q Hdir ltac:(congruence) Hx).
    cbn [hd]. f_equal. destruct Hdir; subst dir; ring.
Qed.

Lemma path_length_heading dir c l :
  dir = 1 \/ dir = -1 -> Forall (fun p => p_y p = c) l -> heading dir l ->
  l <> [] ->
  _path_length l = dir * (p_x (last l origin) - p_x (hd origin l)).
Proof.
  intros Hdir Hall Hhead Hne.
  induction l as [|p [|q rest] IH]; [contradiction| |].
  - cbn. ring.
  - pose proof (Forall_inv Hall) as Hp.
    pose proof (Forall_inv (Forall_inv_tail Hall)) as Hq.
    cbv beta in Hp, Hq. destruct Hhead as [Hx Hrest].
    rewrite path_length_cons2.
    rewrite (IH (Forall_inv_tail Hall) Hrest ltac:(discriminate)).
    rewrite (distance_on_line dir p q Hdir ltac:(congruence) Hx).
    change (last (p :: q :: rest) origin) with (last (q :: rest) origin).
    cbn [hd]. ring.
Qed.

(** Resampling a stroke that runs one way along a horizontal line gives
    64 evenly spaced points of that line. *)
Lemma resample_on_line dir c points :
  dir = 1 \/ dir = -1 -> (2 <= List.length points)%nat ->
  Forall (fun p => p_y p = c) points -> heading dir points ->
  0 < _path_length points ->
  exists new_points points',
    _resample points 64 = Returns (new_points, points')
    /\ List.length new_points = 64%nat
    /\ forall k, (k < 64)%nat ->
         nth k new_points origin
         = mkPoint (p_x (hd origin points)
                    + dir * (INR k * (_path_length points / 63))) c.
Proof.
  intros Hdir Hlen Hall Hhead Hpos.
  destruct (resample_spec points 64 Hlen Hpos ltac:(lia))
    as (new_points & points' & Hrun & Hcount & Harc & _).
  exists new_points, points'. split; [exact Hrun|].
  split; [exact Hcount|].
  intros k Hk.
  exact (at_arc_heading dir c points _ _ Hdir Hall Hhead (Harc k Hk)).
Qed.

Lemma left_points_heading : heading (-1) left_points.
Proof. unfold left_points. cbn [seq map heading p_x]. simpl INR.
  repeat split; lra. Qed.

Lemma right_points_heading : heading 1 right_points.
Proof. unfold right_points. cbn [seq map heading p_x]. simpl INR.
  repeat split; lra. Qed.

Lemma left_points_length_1 : _path_length left_points = 1.
Proof.
  rewrite (path_length_heading (-1) (1 / 2) left_points
             ltac:(now right) left_points_y left_points_heading
             ltac:(discriminate)).
  unfold left_points. cbn [seq map last hd p_x]. simpl INR. lra.
Qed.

Lemma right_points_length_1 : _path_length right_points = 1.
Proof.
  rewrite (path_length_heading 1 (1 / 2) right_points
             ltac:(now left) right_points_y right_points_heading
             ltac:(discriminate)).
  unfold right_points. cbn [seq map last hd p_x]. simpl INR. lra.
Qed.

(** The two templates, point by point. *)
Lemma templates_points :
  exists left_template right_template,
    _create_templates 64
    = Returns [("left"%string, left_template);
               ("right"%string, right_template)]
    /\ List.length left_template = 64%nat
    /\ List.length right_template = 64%nat
    /\ (forall k, (k < 64)%nat ->
          nth k left_template origin = mkPoint (1 - INR k / 63) (1 / 2))
    /\ (forall k, (k < 64)%nat ->
          nth k right_template origin = mkPoint (INR k / 63) (1 / 2))
    /\ Forall (fun p => p_y p = 1 / 2) left_template
    /\ Forall (fun p => p_y p = 1 / 2) right_template.
Proof.
  destruct (resample_on_line (-1) (1 / 2) left_points ltac:(now right)
              ltac:(rewrite left_points_length; lia)
              left_points_y left_points_heading left_points_pos)
    as (tl & bl & Hrunl & Hcl & Hpl).
  destruct (resample_on_line 1 (1 / 2) right_points ltac:(now left)
              ltac:(rewrite right_points_length; lia)
              right_points_y right_points_heading right_points_pos)
    as (tr & br & Hrunr & Hcr & Hpr).
  exists tl, tr. unfold _create_templates. rewrite Hrunl, Hrunr.
  split; [reflexivity|]. split; [exact Hcl|]. split; [exact Hcr|].
  split; [|split; [|split]].
  - intros k Hk. rewrite (Hpl k Hk), left_points_length_1.
    unfold left_points. cbn [seq map hd p_x]. simpl (INR 0).
    f_equal. lra.
  - intros k Hk. rewrite (Hpr k Hk), right_points_length_1.
    unfold right_points. cbn [seq map hd p_x]. simpl (INR 0).
    f_equal. lra.
  - exact (resample_level (1 / 2) left_points 64 tl bl
             ltac:(rewrite left_points_length; lia) left_points_pos
             ltac:(lia) left_points_y Hrunl).
  - exact (resample_level (1 / 2) right_points 64 tr br
             ltac:(rewrite right_points_length; lia) right_points_pos
             ltac:(lia) right_points_y Hrunr).
Qed.

(* ------------------------------------------------------------------ *)
(** ** The decision of [recognize] *)

Lemma template_score_64 pts t :
  List.length pts = 64%nat -> List.length t = 64%nat ->
  template_score pts t = Fin (sum_distances pts t / 64).
Proof.
  intros Hp Ht. unfold template_score. rewrite Hp, Ht.
  cbn [Nat.eqb negb]. rewrite INR_IZR_INZ. reflexivity.
Qed.

Lemma best_match_two pts tl tr :
  List.length pts = 64%nat -> List.length tl = 64%nat ->
  List.length tr = 64%nat ->
  best_match pts [("left"%string, tl); ("right"%string, tr)] Inf None []
  = Returns
      (if Rltb (sum_distances pts tr / 64) (sum_distances pts tl / 64)
       then (Fin (sum_distances pts tr / 64), Some "right"%string)
       else (Fin (sum_distances pts tl / 64), Some "left"%string),
       ["right"%string; "left"%string]).
Proof.
  intros Hp Hl Hr.
  assert (Hne : pts <> []) by (intros ->; discriminate Hp).
  cbn [best_match].
  rewrite !path_distance_score by exact Hne.
  rewrite !template_score_64 by assumption.
  cbn [score_ltb].
  now destruct (Rltb (sum_distances pts tr / 64) (sum_distances pts tl / 64)).
Qed.

(** With the two templates, [recognize] on a stroke that can be resampled
    compares the two mean distances with each other and the better one
    with the threshold. *)
Lemma recognize_decision now self tl tr :
  (5 <= List.length (points self))%nat ->
  0 < _path_length (points self) ->
  num_points self = 64%Z ->
  templates self = [("left"%string, tl); ("right"%string, tr)] ->
  List.length tl = 64%nat -> List.length tr = 64%nat ->
  exists pts buffer,
    _resample (points self) 64 = Returns (pts, buffer)
    /\ List.length pts = 64%nat
    /\ recognize now self
       = Returns
           (if Rltb (sum_distances pts tr / 64) (sum_distances pts tl / 64)
            then
              if Rltb (sum_distances pts tr / 64) (1 / 2)
              then (Some "right"%string,
                    mkRecognizer 64 now [] (templates self))
              else (None, mkRecognizer 64 (last_gesture_time self) buffer
                                       (templates self))
            else
              if Rltb (sum_distances pts tl / 64) (1 / 2)
              then (Some "left"%string,
                    mkRecognizer 64 now [] (templates self))
              else (None, mkRecognizer 64 (last_gesture_time self) buffer
                                       (templates self))).
Proof.
  intros Hlen Hpos Hnum Ht Hl Hr.
  destruct (resample_spec (points self) 64 ltac:(lia) Hpos ltac:(lia))
    as (pts & buffer & Hrun & Hcount & _).
  exists pts, buffer. split; [exact Hrun|]. split; [exact Hcount|].
  unfold recognize.
  replace (List.length (points self) <? 5)%nat with false
    by (symmetry; apply Nat.ltb_ge; lia).
  rewrite Hnum, Hrun. rewrite Ht at 1.
  rewrite (best_match_two pts tl tr Hcount Hl Hr).
  replace (has_key "left" ["right"%string; "left"%string]
           && has_key "right" ["right"%string; "left"%string])
    with true by reflexivity.
  destruct (Rltb (sum_distances pts tr / 64) (sum_distances pts tl / 64));
    cbn [score_ltb];
    match goal with |- context [Rltb ?x (1 / 2)] =>
      destruct (Rltb x (1 / 2)) end; reflexivity.
Qed.



(* ------------------------------------------------------------------ *)
(** ** Swipes *)

Lemma distance_gt_dy a b :
  p_x a <> p_x b -> Rabs (p_y a - p_y b) < _distance a b.
Proof.
  intros Hx. unfold _distance. rewrite <- sqrt_Rsqr_abs.
  apply sqrt_lt_1_alt. split; [apply Rle_0_sqr|].
  assert (0 < Rsqr (p_x a - p_x b)) by (apply Rsqr_pos_lt; lra).
  unfold Rsqr in *. lra.
Qed.

Lemma sum_distances_const g l1 : forall l2,
  List.length l1 = List.length l2 ->
  (forall k, (k < List.length l1)%nat ->
     _distance (nth k l1 origin) (nth k l2 origin) = g) ->
  sum_distances l1 l2 = INR (List.length l1) * g.
Proof.
  induction l1 as [|p l1 IH]; intros [|q l2] Hlen H; try discriminate.
  - cbn. ring.
  - cbn [sum_distances List.length]. rewrite S_INR.
    rewrite (IH l2).
    + pose proof (H 0%nat ltac:(cbn [List.length]; lia)) as H0.
      cbn [nth] in H0. rewrite H0. ring.
    + now inversion Hlen.
    + intros k Hk. apply (H (S k)). cbn [List.length]. lia.
Qed.

Lemma sum_distances_gt c1 c2 p l1 q l2 :
  Forall (fun p => p_y p = c1) (p :: l1) ->
  Forall (fun p => p_y p = c2) (q :: l2) ->
  List.length l1 = List.length l2 -> p_x p <> p_x q ->
  INR (S (List.length l1)) * Rabs (c1 - c2)
  < sum_distances (p :: l1) (q :: l2).
Proof.
  intros H1 H2 Hlen Hx. cbn [sum_distances]. rewrite S_INR.
  pose proof (sum_distances_apart c1 c2 l1 l2 (Forall_inv_tail H1)
                (Forall_inv_tail H2) Hlen) as Htail.
  pose proof (distance_gt_dy p q Hx) as Hhead.
  rewrite (Forall_inv H1), (Forall_inv H2) in Hhead. lra.
Qed.

Lemma INR_64 : INR 64 = 64.
Proof. rewrite INR_IZR_INZ. reflexivity. Qed.

Lemma Rabs_half c : 0 < c < 1 -> Rabs (c - 1 / 2) < 1 / 2.
Proof. intros Hc. unfold Rabs. destruct (Rcase_abs _); lra. Qed.



(* ------------------------------------------------------------------ *)
(** ** Strokes away from the templates *)

Lemma at_arc_band lo hi l s r :
  Forall (fun p => lo <= p_y p <= hi) l -> at_arc l s r ->
  lo <= p_y r <= hi.
Proof.
  intros Hall H; induction H as [p q rest t Ht|p q rest s r H IH].
  - pose proof (Forall_inv Hall) as Hp.
    pose proof (Forall_inv (Forall_inv_tail Hall)) as Hq.
    cbv beta in Hp, Hq. unfold lerp; cbn [p_y]. nra.
  - apply IH. exact (Forall_inv_tail Hall).
Qed.

Lemma at_arc_above lo l s r :
  Forall (fun p => lo <= p_y p) l -> at_arc l s r -> lo <= p_y r.
Proof.
  intros Hall H; induction H as [p q rest t Ht|p q rest s r H IH].
  - pose proof (Forall_inv Hall) as Hp.
    pose proof (Forall_inv (Forall_inv_tail Hall)) as Hq.
    cbv beta in Hp, Hq. unfold lerp; cbn [p_y]. nra.
  - apply IH. exact (Forall_inv_tail Hall).
Qed.

Lemma at_arc_below hi l s r :
  Forall (fun p => p_y p <= hi) l -> at_arc l s r -> p_y r <= hi.
Proof.
  intros Hall H; induction H as [p q rest t Ht|p q rest s r H IH].
  - pose proof (Forall_inv Hall) as Hp.
    pose proof (Forall_inv (Forall_inv_tail Hall)) as Hq.
    cbv beta in Hp, Hq. unfold lerp; cbn [p_y]. nra.
  - apply IH. exact (Forall_inv_tail Hall).
Qed.

(** What holds of every point of the stroke's polyline holds of the
    resampled points. *)
Lemma resample_points (P : Point -> Prop) points n new_points points' :
  (2 <= List.length points)%nat -> 0 < _path_length points -> (2 <= n)%Z ->
  (forall s r, at_arc points s r -> P r) ->
  _resample points n = Returns (new_points, points') ->
  Forall P new_points.
Proof.
  intros Hlen Hpos Hn HP Hrun.
  destruct (resample_spec points n Hlen Hpos Hn)
    as (new_points0 & points0 & Hrun0 & Hcount & Harc & _).
  rewrite Hrun in Hrun0. inversion Hrun0. subst new_points0 points0.
  apply Forall_forall. intros r Hin.
  destruct (In_nth _ _ origin Hin) as (k & Hk & <-).
  rewrite Hcount in Hk. exact (HP _ _ (Harc k Hk)).
Qed.

Lemma sum_distances_far g c l1 : forall l2,
  Forall (fun p => g <= Rabs (p_y p - c)) l1 ->
  Forall (fun p => p_y p = c) l2 ->
  List.length l1 = List.length l2 ->
  INR (List.length l1) * g <= sum_distances l1 l2.
Proof.
  induction l1 as [|p l1 IH]; intros [|q l2] H1 H2 Hlen;
    try discriminate.
  - cbn. lra.
  - cbn [sum_distances List.length]. rewrite S_INR.
    pose proof (IH l2 (Forall_inv_tail H1) (Forall_inv_tail H2)
                  ltac:(now inversion Hlen)) as Htail.
    pose proof (distance_ge_dy p q) as Hd.
    pose proof (Forall_inv H1) as Hp. cbv beta in Hp.
    rewrite (Forall_inv H2) in Hd. lra.
Qed.






(* ------------------------------------------------------------------ *)
(** ** The hand-tracking loop *)

Lemma quiet_ret {A} (a : A) : quiet (ret a).
Proof.
  intros w. repeat split; try constructor; auto. apply incl_refl.
Qed.

Lemma quiet_get : quiet get.
Proof.
  intros w. repeat split; try constructor; auto. apply incl_refl.
Qed.

Lemma quiet_acquire l : quiet (tell [Acquire l]).
Proof.
  intros w. repeat split; try constructor; auto. apply incl_refl.
Qed.

Lemma quiet_release l : quiet (tell [Release l]).
Proof.
  intros w. repeat split; try constructor; auto. apply incl_refl.
Qed.

Lemma quiet_bind {A B} (m : M A) (k : A -> M B) :
  quiet m -> (forall a, quiet (k a)) -> quiet (bind m k).
Proof.
  intros Hm Hk w.
  destruct (Hm w) as (He & Hr & Hs & Hc & Hf).
  destruct (Hk (result m w) (exec m w)) as (He' & Hr' & Hs' & Hc' & Hf').
  rewrite trace_bind, exec_bind, published_app.
  repeat split.
  - apply Forall_app. now split.
  - congruence.
  - congruence.
  - eapply incl_tran; eassumption.
  - auto.
Qed.

Lemma quiet_when b m : quiet m -> quiet (when b m).
Proof. destruct b; [easy|intros _; apply quiet_ret]. Qed.

Lemma quiet_with_lock {A} l (m : M A) : quiet m -> quiet (with_lock l m).
Proof.
  intros Hm; unfold with_lock.
  repeat (apply quiet_bind; [|intros ?]);
    first [apply quiet_acquire | apply quiet_release | apply quiet_ret
          | exact Hm].
Qed.

Lemma quiet_broadcast e : loop_event e -> quiet (broadcast e).
Proof.
  intros He w.
  rewrite published_broadcast, latest_objects_broadcast,
    socket_ok_broadcast, clients_broadcast, flag_broadcast.
  repeat split; auto.
  intros c Hc. now apply filter_In in Hc.
Qed.

Lemma quiet_clear_flag : quiet (set_gesture_detection_enabled false).
Proof.
  intros w. repeat split; try constructor; auto; try apply incl_refl.
  cbn. discriminate.
Qed.

Lemma adjusted_minutes_range base x :
  (0 <= adjusted_minutes base x <= 1439)%Z.
Proof. unfold adjusted_minutes. cbv zeta. lia. Qed.

Lemma loop_event_final m :
  (0 <= m <= 1439)%Z -> loop_event (gesture_time_final (time_str m) m).
Proof. intros Hm. right. exists m. auto. Qed.

Lemma loop_event_update m :
  (0 <= m <= 1439)%Z -> loop_event (gesture_time_update (time_str m) m).
Proof. intros Hm. right. exists m. auto. Qed.

Lemma loop_event_off : loop_event (gesture_mode_toggled false).
Proof. now left. Qed.

Ltac quiet_tac :=
  repeat first
    [ apply quiet_broadcast;
      first [ apply loop_event_off
            | apply loop_event_final; assumption
            | apply loop_event_update; apply adjusted_minutes_range ]
    | apply quiet_when
    | apply quiet_with_lock
    | apply quiet_ret
    | apply quiet_get
    | apply quiet_clear_flag
    | apply quiet_bind; [|intros ?] ].

Lemma quiet_per_hand now h t :
  (0 <= current_time_minutes t <= 1439)%Z -> quiet (per_hand now h t).
Proof.
  intros Hday. unfold per_hand.
  destruct (is_fist h); [quiet_tac|].
  destruct (Rleb (broadcast_cooldown t) (now - last_broadcast_time t));
    quiet_tac.
Qed.

(** One hand changes the stored time and the time of the last update,
    nothing else. *)
Lemma per_hand_fields now h t w :
  let t' := result (per_hand now h t) w in
  base_time_minutes t' = base_time_minutes t
  /\ broadcast_cooldown t' = broadcast_cooldown t
  /\ cap t' = cap t /\ hands t' = hands t
  /\ gesture_active t' = gesture_active t
  /\ frame_count t' = frame_count t
  /\ ((0 <= current_time_minutes t <= 1439)%Z ->
      (0 <= current_time_minutes t' <= 1439)%Z).
Proof.
  cbv zeta. unfold result.
  destruct (is_fist h) eqn:Hfist.
  - rewrite per_hand_fist by assumption. cbn [fst]. tauto.
  - rewrite per_hand_move by assumption. cbv zeta.
    destruct (Rleb (broadcast_cooldown t) (now - last_broadcast_time t));
      cbn [fst base_time_minutes broadcast_cooldown cap hands gesture_active
           frame_count current_time_minutes];
      repeat split; try apply adjusted_minutes_range; auto.
Qed.

Lemma for_hands_fields now hs : forall t w,
  let t' := result (for_hands now hs t) w in
  base_time_minutes t' = base_time_minutes t
  /\ broadcast_cooldown t' = broadcast_cooldown t
  /\ cap t' = cap t /\ hands t' = hands t
  /\ gesture_active t' = gesture_active t
  /\ frame_count t' = frame_count t
  /\ ((0 <= current_time_minutes t <= 1439)%Z ->
      (0 <= current_time_minutes t' <= 1439)%Z).
Proof.
  induction hs as [|h hs IH]; intros t w; cbv zeta.
  - cbn [for_hands]. rewrite result_ret. tauto.
  - cbn [for_hands]. rewrite result_bind.
    destruct (per_hand_fields now h t w) as (H1 & H2 & H3 & H4 & H5 & H6 & H7).
    destruct (IH (result (per_hand now h t) w) (exec (per_hand now h t) w))
      as (I1 & I2 & I3 & I4 & I5 & I6 & I7).
    do 6 (split; [congruence|]). auto.
Qed.

Lemma quiet_bind_at {A B} (m : M A) (k : A -> M B) :
  quiet m -> (forall w, quiet (k (result m w))) -> quiet (bind m k).
Proof.
  intros Hm Hk w.
  destruct (Hm w) as (He & Hr & Hs & Hc & Hf).
  destruct (Hk w (exec m w)) as (He' & Hr' & Hs' & Hc' & Hf').
  rewrite trace_bind, exec_bind, published_app.
  repeat split.
  - apply Forall_app. now split.
  - congruence.
  - congruence.
  - eapply incl_tran; eassumption.
  - auto.
Qed.

Lemma quiet_for_hands now hs : forall t,
  (0 <= current_time_minutes t <= 1439)%Z -> quiet (for_hands now hs t).
Proof.
  induction hs as [|h hs IH]; intros t Hday; cbn [for_hands].
  - apply quiet_ret.
  - apply quiet_bind_at; [now apply quiet_per_hand|].
    intros w. apply IH. now apply per_hand_fields.
Qed.

(** The turns of the loop that do nothing. *)
Lemma iteration_no_camera obs t w :
  gesture_detection_enabled w = true ->
  cap t = None -> open_camera (camera_works obs) = None ->
  hand_tracking_iteration obs t w
  = (t, w, [Acquire gesture_detection_lock; Release gesture_detection_lock]).
Proof.
  intros Hf Hc Ho. unfold hand_tracking_iteration.
  rewrite Hc, Ho.
  unfold bind at 1. unfold with_lock, bind, tell, get, ret. cbv beta iota.
  rewrite Hf. reflexivity.
Qed.

Lemma iteration_frame_lost obs t w c :
  gesture_detection_enabled w = true ->
  cap t = Some c -> hands t = true -> success obs = false ->
  hand_tracking_iteration obs t w
  = (t, w, [Acquire gesture_detection_lock; Release gesture_detection_lock]).
Proof.
  intros Hf Hc Hh Hs. unfold hand_tracking_iteration.
  rewrite Hc.
  unfold bind at 1. unfold with_lock, bind, tell, get, ret. cbv beta iota.
  rewrite Hf, Hh, Hs. reflexivity.
Qed.

Lemma iteration_open_lost obs t w c :
  gesture_detection_enabled w = true ->
  cap t = None -> open_camera (camera_works obs) = Some c ->
  success obs = false ->
  hand_tracking_iteration obs t w
  = (mkTracker 450 450 (last_broadcast_time t) (broadcast_cooldown t)
               (Some c) true true 0,
     w, [Acquire gesture_detection_lock; Release gesture_detection_lock]).
Proof.
  intros Hf Hc Ho Hs. unfold hand_tracking_iteration.
  rewrite Hc, Ho.
  unfold bind at 1. unfold with_lock, bind, tell, get, ret. cbv beta iota.
  rewrite Hf, Hs. reflexivity.
Qed.

Lemma tracker_ok_for_hands now hs t w :
  tracker_ok t -> tracker_ok (result (for_hands now hs t) w).
Proof.
  intros (Hb & Hday & Hfc & Hcd & Hact & Hh).
  destruct (for_hands_fields now hs t w)
    as (H1 & H2 & H3 & H4 & H5 & H6 & H7).
  unfold tracker_ok. rewrite H1, H2, H3, H4, H5, H6. auto 10.
Qed.

Lemma tracker_ok_iteration obs t w :
  tracker_ok t -> tracker_ok (result (hand_tracking_iteration obs t) w).
Proof.
  intros Hok. pose proof Hok as (Hb & Hday & Hfc & Hcd & Hact & Hh).
  unfold result.
  destruct (gesture_detection_enabled w) eqn:Hf.
  - destruct (cap t) as [c|] eqn:Hc.
    + assert (Hhands : hands t = true) by (apply Hh; discriminate).
      destruct (success obs) eqn:Hs.
      * rewrite (iteration_frame obs t w c) by assumption.
        cbv zeta. cbn [fst]. apply tracker_ok_for_hands.
        unfold tracker_ok, count_frame.
        cbn [base_time_minutes current_time_minutes frame_count
             broadcast_cooldown gesture_active cap hands].
        rewrite Hc in *. repeat split; auto; try lia; apply Hact.
      * rewrite (iteration_frame_lost obs t w c) by assumption.
        cbn [fst]. exact Hok.
    + destruct (open_camera (camera_works obs)) as [c|] eqn:Ho.
      * assert (Hnew : forall n, (0 <= n)%Z ->
                  tracker_ok (mkTracker 450 450 (last_broadcast_time t)
                                (broadcast_cooldown t) (Some c) true true n)).
        { intros n Hn. unfold tracker_ok.
          cbn [base_time_minutes current_time_minutes frame_count
               broadcast_cooldown gesture_active cap hands].
          repeat split; auto; try lia; discriminate. }
        destruct (success obs) eqn:Hs.
        -- rewrite (iteration_open obs t w c) by assumption.
           cbv zeta. cbn [fst]. apply tracker_ok_for_hands.
           apply Hnew. lia.
        -- rewrite (iteration_open_lost obs t w c) by assumption.
           cbn [fst]. apply Hnew. lia.
      * rewrite iteration_no_camera by assumption. cbn [fst]. exact Hok.
  - destruct (gesture_active t) eqn:Ha.
    + rewrite iteration_disabled_active by assumption. cbn [fst].
      unfold tracker_ok.
      cbn [base_time_minutes current_time_minutes frame_count
           broadcast_cooldown gesture_active cap hands].
      repeat split; auto; try lia; try discriminate; try contradiction.
    + rewrite iteration_disabled_idle by assumption. cbn [fst]. exact Hok.
Qed.

Lemma quiet_iteration obs t :
  (0 <= current_time_minutes t <= 1439)%Z ->
  quiet (hand_tracking_iteration obs t).
Proof.
  intros Hday. unfold hand_tracking_iteration.
  apply quiet_bind; [apply quiet_with_lock, quiet_get|]. intros w0.
  destruct (negb (gesture_detection_enabled w0)).
  - destruct (gesture_active t); quiet_tac.
  - assert (Hframe : forall t1,
              (0 <= current_time_minutes t1 <= 1439)%Z ->
              quiet
                (if hands t1
                 then
                   if negb (success obs) then ret t1
                   else
                     t3 <- for_hands (current_time obs)
                             (multi_hand_landmarks obs)
                             (mkTracker (base_time_minutes t1)
                                (current_time_minutes t1)
                                (last_broadcast_time t1)
                                (broadcast_cooldown t1) (cap t1) (hands t1)
                                (gesture_active t1) (frame_count t1 + 1)) ;;
                     when (key_is_q obs)
                       (with_lock gesture_detection_lock
                          (set_gesture_detection_enabled false)) ;;
                     ret t3
                 else ret t1)).
    { intros t1 Hday1.
      destruct (hands t1); [|apply quiet_ret].
      destruct (negb (success obs)); [apply quiet_ret|].
      apply quiet_bind; [now apply quiet_for_hands|]. intros t3.
      quiet_tac. }
    destruct (cap t) as [c|].
    + now apply Hframe.
    + destruct (open_camera (camera_works obs)) as [c|];
        [|apply quiet_ret].
      apply Hframe. cbn [current_time_minutes]. lia.
Qed.

Lemma tracker_ok_initial : tracker_ok initial_tracker.
Proof.
  unfold tracker_ok, initial_tracker.
  cbn [base_time_minutes current_time_minutes frame_count
       broadcast_cooldown gesture_active cap hands].
  repeat split; try lia; try discriminate; try contradiction.
Qed.

(** X17.  What the hand-tracking loop keeps, over any number of turns and
    whatever the camera, the hands, the keyboard and the clock do.  The
    local variables stay as they should be: the base time is 450, the
    stored time lies in 0..1439, the cooldown is 0.5, a session is active
    exactly while a camera is held, and the hand detector exists when a
    camera is held.  The loop sends only [gesture_time_update] and
    [gesture_time_final] events, each with a minute value in 0..1439 and
    the text made from that very value, and [gesture_mode_toggled] with
    [enabled] false.  It leaves the registry alone, adds no client, and
    never switches gesture detection on. *)
Theorem X17_loop_invariant :
  forall (observations : list Observation) (t : Tracker) (w : World),
    tracker_ok t ->
    let run := hand_tracking_thread observations t in
    tracker_ok (result run w)
    /\ Forall loop_event (published (trace run w))
    /\ latest_objects (exec run w) = latest_objects w
    /\ incl (clients (exec run w)) (clients w)
    /\ (gesture_detection_enabled (exec run w) = true ->
        gesture_detection_enabled w = true).
Proof.
  intros observations. cbv zeta.
  induction observations as [|obs rest IH]; intros t w Hok.
  - cbn [hand_tracking_thread]. rewrite result_ret, trace_ret, exec_ret.
    split; [exact Hok|]. split; [constructor|]. split; [reflexivity|].
    split; [apply incl_refl|auto].
  - cbn [hand_tracking_thread].
    rewrite result_bind, trace_bind, exec_bind, published_app.
    pose proof (tracker_ok_iteration obs t w Hok) as Hok1.
    destruct (quiet_iteration obs t ltac:(apply Hok) w)
      as (He & Hr & _ & Hc & Hf).
    destruct (IH (result (hand_tracking_iteration obs t) w)
                 (exec (hand_tracking_iteration obs t) w) Hok1)
      as (Hok2 & He2 & Hr2 & Hc2 & Hf2).
    split; [exact Hok2|]. split; [apply Forall_app; now split|].
    split; [congruence|]. split; [eapply incl_tran; eassumption|auto].
Qed.

Lemma X17_loop_invariant_witness :
  tracker_ok initial_tracker
  /\ tracker_ok (result (hand_tracking_thread commit_session initial_tracker)
                        gesture_world)
  /\ Forall loop_event
       (published (trace (hand_tracking_thread commit_session initial_tracker)
                         gesture_world)).
Proof.
  split; [exact tracker_ok_initial|].
  destruct (X17_loop_invariant commit_session initial_tracker gesture_world
              tracker_ok_initial) as (H1 & H2 & _).
  split; [exact H1|exact H2].
Defined.

Lemma last_default {A} (l : list A) (d d' : A) :
  l <> [] -> last l d = last l d'.
Proof.
  induction l as [|a [|b l] IH]; intros Hne; [contradiction|reflexivity|].
  change (last (b :: l) d = last (b :: l) d'). apply IH. discriminate.
Qed.

(** Open hands within the cooldown: nothing is sent, the stored time
    follows the hands. *)
Lemma for_hands_still now hs : forall t w,
  Forall (fun h => is_fist h = false) hs ->
  Rleb (broadcast_cooldown t) (now - last_broadcast_time t) = false ->
  for_hands now hs t w
  = (mkTracker (base_time_minutes t)
       (last (map (fun h => adjusted_minutes (base_time_minutes t)
                                             (l_x (h 0%nat))) hs)
             (current_time_minutes t))
       (last_broadcast_time t) (broadcast_cooldown t)
       (cap t) (hands t) (gesture_active t) (frame_count t),
     w, []).
Proof.
  induction hs as [|h hs IH]; intros t w Hopen Hcool.
  - cbn [for_hands map last]. now destruct t.
  - cbn [for_hands]. unfold bind.
    rewrite (per_hand_move now h t w (Forall_inv Hopen)). cbv zeta.
    rewrite Hcool.
    rewrite IH; [|exact (Forall_inv_tail Hopen)|exact Hcool].
    cbn [base_time_minutes current_time_minutes last_broadcast_time
         broadcast_cooldown cap hands gesture_active frame_count app].
    destruct hs as [|h0 hs]; [reflexivity|].
    cbn [map]. do 2 f_equal. f_equal.
    change (last (?a :: ?b :: ?l) ?d) with (last (b :: l) d).
    apply last_default. discriminate.
Qed.



(** X19.  Opening the camera.  A turn of the loop that finds gesture
    detection on and no camera held tries the camera indices 1, 2, 0, 3
    in this order and takes the first that works.  If none works, the
    turn changes nothing and sends nothing.  Otherwise a session starts:
    the camera is held, the session is active, the base time is back at
    450 and the frame counter at 0, to which the first frame adds 1 if
    it can be read; if it cannot, nothing is sent and the stored time is
    450.  The time of the last update is not reset. *)
Theorem X19_camera_opening :
  forall (obs : Observation) (t : Tracker) (w : World),
    gesture_detection_enabled w = true ->
    cap t = None ->
    let works := camera_works obs in
    let run := hand_tracking_iteration obs t in
    (open_camera works = None
     <-> works 1%Z = false /\ works 2%Z = false /\ works 0%Z = false
         /\ works 3%Z = false)
    /\ (open_camera works = None ->
        run w = (t, w, [Acquire gesture_detection_lock;
                        Release gesture_detection_lock]))
    /\ (forall c, open_camera works = Some c ->
          (c = 1%Z
           \/ (c = 2%Z /\ works 1%Z = false)
           \/ (c = 0%Z /\ works 1%Z = false /\ works 2%Z = false)
           \/ (c = 3%Z /\ works 1%Z = false /\ works 2%Z = false
               /\ works 0%Z = false))
          /\ works c = true
          /\ cap (result run w) = Some c
          /\ gesture_active (result run w) = true
          /\ hands (result run w) = true
          /\ base_time_minutes (result run w) = 450%Z
          /\ frame_count (result run w) = (if success obs then 1 else 0)%Z
          /\ (success obs = false ->
              run w = (mkTracker 450 450 (last_broadcast_time t)
                                 (broadcast_cooldown t) (Some c) true true 0,
                       w, [Acquire gesture_detection_lock;
                           Release gesture_detection_lock]))).
Proof.
  intros obs t w Hf Hc works run. subst run.
  split; [|split].
  - unfold open_camera. cbn [find]. fold works.
    destruct (works 1%Z), (works 2%Z), (works 0%Z), (works 3%Z);
      split; try discriminate; try tauto; intros (? & ? & ? & ?);
      discriminate.
  - intros Ho. now apply iteration_no_camera.
  - intros c Ho.
    split; [|split].
    + unfold open_camera in Ho. cbn [find] in Ho. fold works in Ho.
      destruct (works 1%Z); [inversion Ho; auto|].
      destruct (works 2%Z); [inversion Ho; auto|].
      destruct (works 0%Z); [inversion Ho; auto 6|].
      destruct (works 3%Z); [inversion Ho; auto 8|discriminate].
    + unfold open_camera in Ho. now apply find_some in Ho.
    + destruct (success obs) eqn:Hs.
      * unfold result. rewrite (iteration_open obs t w c) by assumption.
        cbv zeta. cbn [fst].
        destruct (for_hands_fields (current_time obs)
                    (multi_hand_landmarks obs)
                    (mkTracker 450 450 (last_broadcast_time t)
                               (broadcast_cooldown t) (Some c) true true 1) w)
          as (H1 & H2 & H3 & H4 & H5 & H6 & _).
        cbv zeta in H1, H3, H4, H5, H6.
        rewrite H1, H3, H4, H5, H6.
        repeat split; discriminate.
      * unfold result. rewrite (iteration_open_lost obs t w c) by assumption.
        cbn [fst cap gesture_active hands base_time_minutes frame_count].
        repeat split.
Qed.

Lemma X19_camera_opening_witness :
  let obs := mkObservation (fun c => (c =? 0)%Z) false [] false 10 in
  gesture_detection_enabled gesture_world = true
  /\ cap initial_tracker = None
  /\ open_camera (camera_works obs) = Some 0%Z
  /\ cap (result (hand_tracking_iteration obs initial_tracker) gesture_world)
     = Some 0%Z.
Proof.
  intros obs. split; [reflexivity|]. split; [reflexivity|].
  split; [reflexivity|].
  destruct (X19_camera_opening obs initial_tracker gesture_world
              eq_refl eq_refl) as (_ & _ & Hopen).
  destruct (Hopen 0%Z eq_refl) as (_ & _ & Hcap & _).
  exact Hcap.
Defined.

(** The camera opens on a frame with one open hand. *)
Lemma iteration_open_move obs t w c h :
  gesture_detection_enabled w = true ->
  cap t = None -> open_camera (camera_works obs) = Some c ->
  success obs = true -> multi_hand_landmarks obs = [h] ->
  is_fist h = false -> key_is_q obs = false ->
  let m := adjusted_minutes 450 (l_x (h 0%nat)) in
  hand_tracking_iteration obs t w
  = if Rleb (broadcast_cooldown t) (current_time obs - last_broadcast_time t)
    then (mkTracker 450 m (current_time obs) (broadcast_cooldown t)
                    (Some c) true true 1,
          exec (broadcast (gesture_time_update (time_str m) m)) w,
          Acquire gesture_detection_lock :: Release gesture_detection_lock
            :: trace (broadcast (gesture_time_update (time_str m) m)) w)
    else (mkTracker 450 m (last_broadcast_time t) (broadcast_cooldown t)
                    (Some c) true true 1,
          w, [Acquire gesture_detection_lock;
              Release gesture_detection_lock]).
Proof.
  intros Hf Hc Ho Hs Hhs Hopen Hq m.
  rewrite (iteration_open obs t w c) by assumption. cbv zeta.
  rewrite Hhs, Hq. unfold result, exec, trace.
  rewrite for_hands_one, per_hand_move by assumption. cbv zeta.
  cbn [base_time_minutes current_time_minutes last_broadcast_time
       broadcast_cooldown cap hands gesture_active frame_count].
  fold m.
  destruct (Rleb (broadcast_cooldown t)
                 (current_time obs - last_broadcast_time t));
    cbn [fst snd app]; now rewrite ?app_nil_r.
Qed.

(** X20.  A session ended with the back marker.  In the schedule where
    the edit-medications marker is put down away from any nurse-mode
    marker, the loop then takes a turn in which the camera opens on one
    open hand, the back marker is put down, and the loop takes one more
    turn: the clients are sent the edit marker's record,
    [gesture_mode_toggled] with [enabled] true, the time update of the
    hand if the cooldown allows it, the back marker's record,
    [back_pressed], and at last [gesture_time_final] with the time of
    the hand, but no [gesture_mode_toggled] with [enabled] false.  The
    session is then closed and gesture detection is off. *)
Theorem X20_back_ends_session :
  forall (edit back : TuioRecord) (obs1 obs2 : Observation)
         (h : HandLandmarks) (c : Z) (t : Tracker) (w : World),
    r_symbol_id edit = EDIT_MEDICATIONS_SYMBOL -> r_event edit = Add ->
    existsb (fun entry : SessionId * TuioRecord =>
               (r_symbol_id (snd entry) =? NURSE_MODE_SYMBOL)%Z
               && near (snd entry) edit) (latest_objects w) = false ->
    r_symbol_id back = BACK_SYMBOL -> r_event back = Add ->
    cap t = None -> open_camera (camera_works obs1) = Some c ->
    success obs1 = true -> multi_hand_landmarks obs1 = [h] ->
    is_fist h = false -> key_is_q obs1 = false ->
    let m := adjusted_minutes 450 (l_x (h 0%nat)) in
    let run := marker_session edit back obs1 obs2 t in
    published (trace run w)
    = [tuio_obj edit; gesture_mode_toggled true]
      ++ (if Rleb (broadcast_cooldown t)
                  (current_time obs1 - last_broadcast_time t)
          then [gesture_time_update (time_str m) m] else [])
      ++ [tuio_obj back; back_pressed; gesture_time_final (time_str m) m]
    /\ gesture_detection_enabled (exec run w) = false
    /\ cap (result run w) = None
    /\ gesture_active (result run w) = false
    /\ current_time_minutes (result run w) = m.
Proof.
  intros edit back obs1 obs2 h c t w Hsid Hevt Hnear Hsidb Hevtb
         Hcap Hopen Hs Hhs Hhand Hq m run. subst run.
  unfold marker_session.
  rewrite (trace_bind (process_logic_and_broadcast edit)),
    (exec_bind (process_logic_and_broadcast edit)),
    (result_bind (process_logic_and_broadcast edit)).
  rewrite (trace_bind (hand_tracking_iteration obs1 t)),
    (exec_bind (hand_tracking_iteration obs1 t)),
    (result_bind (hand_tracking_iteration obs1 t)).
  rewrite (trace_bind (process_logic_and_broadcast back)),
    (exec_bind (process_logic_and_broadcast back)),
    (result_bind (process_logic_and_broadcast back)).
  rewrite !published_app.
  destruct (edit_add_run edit w Hsid Hevt) as (Hp1 & Hf1 & _).
  cbv zeta in Hp1, Hf1. rewrite Hnear in Hp1, Hf1. rewrite Hp1.
  set (w1 := exec (process_logic_and_broadcast edit) w) in *.
  pose proof (iteration_open_move obs1 t w1 c h Hf1 Hcap Hopen Hs Hhs
                Hhand Hq) as Hit.
  cbv zeta in Hit. fold m in Hit.
  assert (Hp2 : published (trace (hand_tracking_iteration obs1 t) w1)
                = if Rleb (broadcast_cooldown t)
                          (current_time obs1 - last_broadcast_time t)
                  then [gesture_time_update (time_str m) m] else []).
  { unfold trace. rewrite Hit.
    destruct (Rleb _ _); cbn [snd published]; [|reflexivity].
    apply published_broadcast. }
  assert (Hact : gesture_active
                   (result (hand_tracking_iteration obs1 t) w1) = true).
  { unfold result. rewrite Hit. now destruct (Rleb _ _). }
  assert (Hm : current_time_minutes
                 (result (hand_tracking_iteration obs1 t) w1) = m).
  { unfold result. rewrite Hit. now destruct (Rleb _ _). }
  rewrite Hp2.
  set (t1 := result (hand_tracking_iteration obs1 t) w1) in *.
  set (w2 := exec (hand_tracking_iteration obs1 t) w1) in *.
  destruct (back_add_run back w2 Hsidb Hevtb) as (Hp3 & Hf3 & _).
  cbv zeta in Hp3, Hf3. rewrite Hp3.
  set (w3 := exec (process_logic_and_broadcast back) w2) in *.
  pose proof (iteration_disabled_active obs2 t1 w3 Hf3 Hact) as Hend.
  unfold trace at 1. unfold exec at 1. unfold result.
  rewrite Hend. cbn [fst snd published cap gesture_active
                     current_time_minutes].
  rewrite published_broadcast, flag_broadcast.
  unfold final_of. rewrite Hm.
  repeat split; auto.
Qed.

Lemma X20_back_ends_session_witness :
  let edit := mkRecord Add EDIT_MEDICATIONS_SYMBOL (Some 4%Z)
                       (1 / 2) (1 / 2) 0 in
  let back := mkRecord Add BACK_SYMBOL (Some 5%Z) (1 / 2) (1 / 2) 0 in
  let obs1 := mkObservation (fun _ => true) true [open_hand 1] false 11 in
  let obs2 := mkObservation (fun _ => true) true [] false 12 in
  let run := marker_session edit back obs1 obs2 initial_tracker in
  existsb (fun entry : SessionId * TuioRecord =>
             (r_symbol_id (snd entry) =? NURSE_MODE_SYMBOL)%Z
             && near (snd entry) edit)
          (latest_objects (with_flag false gesture_world)) = false
  /\ open_camera (camera_works obs1) = Some 1%Z
  /\ is_fist (open_hand 1) = false
  /\ gesture_active (result run (with_flag false gesture_world)) = false
  /\ current_time_minutes (result run (with_flag false gesture_world))
     = adjusted_minutes 450 1.
Proof.
  intros edit back obs1 obs2 run.
  split; [reflexivity|]. split; [reflexivity|].
  split; [apply is_fist_open_hand|].
  destruct (X20_back_ends_session edit back obs1 obs2 (open_hand 1) 1%Z
              initial_tracker (with_flag false gesture_world)
              eq_refl eq_refl eq_refl eq_refl eq_refl eq_refl eq_refl
              eq_refl eq_refl (is_fist_open_hand 1) eq_refl)
    as (_ & _ & _ & Hact & Hm).
  split; [exact Hact|exact Hm].
Defined.

(** X21 is checked minute by minute. *)
Lemma time_str_table :
  forallb (fun n => String.eqb (time_str (Z.of_nat n)) (hh_mm (Z.of_nat n)))
          (seq 0 1440) = true.
Proof. vm_compute. reflexivity. Qed.

Lemma digit_inj a b :
  (0 <= a <= 9)%Z -> (0 <= b <= 9)%Z -> digit a = digit b -> a = b.
Proof.
  intros Ha Hb H. unfold digit in H.
  apply (f_equal nat_of_ascii) in H.
  rewrite !nat_ascii_embedding in H by lia. lia.
Qed.

(** X21.  The text of a time.  For every minute of the day, 0 to 1439,
    the text sent with it has five characters: two digits for the hour
    (0 to 23), a colon, and two digits for the minute; different minutes
    of the day give different texts. *)
Theorem X21_time_text :
  forall m : Z,
    (0 <= m <= 1439)%Z ->
    time_str m = hh_mm m
    /\ String.length (time_str m) = 5%nat
    /\ (0 <= m / 60 <= 23)%Z
    /\ (forall m' : Z, (0 <= m' <= 1439)%Z ->
          time_str m' = time_str m -> m' = m).
Proof.
  assert (Htext : forall m, (0 <= m <= 1439)%Z -> time_str m = hh_mm m).
  { intros m Hm.
    pose proof time_str_table as Htable.
    rewrite forallb_forall in Htable.
    specialize (Htable (Z.to_nat m)).
    rewrite Z2Nat.id in Htable by lia.
    apply String.eqb_eq, Htable, in_seq. lia. }
  intros m Hm. split; [now apply Htext|]. split; [|split].
  - rewrite Htext by exact Hm. reflexivity.
  - clear - Hm. Z.to_euclidean_division_equations. lia.
  - intros m' Hm' Heq.
    rewrite !Htext in Heq by assumption.
    unfold hh_mm in Heq.
    inversion Heq as [[H1 H2 H3 H4]].
    assert (B1 : (0 <= m / 600 <= 9)%Z /\ (0 <= m' / 600 <= 9)%Z)
      by (clear - Hm Hm'; Z.to_euclidean_division_equations; lia).
    assert (B2 : (0 <= m / 60 mod 10 <= 9)%Z /\ (0 <= m' / 60 mod 10 <= 9)%Z)
      by (clear - Hm Hm'; Z.to_euclidean_division_equations; lia).
    assert (B3 : (0 <= m mod 60 / 10 <= 9)%Z /\ (0 <= m' mod 60 / 10 <= 9)%Z)
      by (clear - Hm Hm'; Z.to_euclidean_division_equations; lia).
    assert (B4 : (0 <= m mod 10 <= 9)%Z /\ (0 <= m' mod 10 <= 9)%Z)
      by (clear - Hm Hm'; Z.to_euclidean_division_equations; lia).
    apply digit_inj in H1; [|apply B1|apply B1].
    apply digit_inj in H2; [|apply B2|apply B2].
    apply digit_inj in H3; [|apply B3|apply B3].
    apply digit_inj in H4; [|apply B4|apply B4].
    clear - Hm Hm' H1 H2 H3 H4.
    Z.to_euclidean_division_equations. lia.
Qed.

Lemma X21_time_text_witness :
  (0 <= 690 <= 1439)%Z /\ time_str 690 = "11:30"%string.
Proof.
  assert (Hm : (0 <= 690 <= 1439)%Z) by lia.
  split; [exact Hm|].
  destruct (X21_time_text 690 Hm) as (Htext & _).
  rewrite Htext. reflexivity.
Defined.

(* ------------------------------------------------------------------ *)
(** ** The closed palm *)

Lemma distance_3d_translate dx dy dz h i j :
  distance_3d (translate dx dy dz h i) (translate dx dy dz h j)
  = distance_3d (h i) (h j).
Proof.
  unfold distance_3d, translate. cbn [l_x l_y l_z]. f_equal. ring.
Qed.


(* ------------------------------------------------------------------ *)
(** ** The quit key *)

(** X23.  The quit key.  With a session running, a frame without hands
    on which the key q is pressed clears the gesture flag and sends
    nothing; the turn after it sends [gesture_time_final] with the time
    stored and closes the session.  The clients are sent no
    [gesture_mode_toggled]. *)
Theorem X23_quit_key :
  forall (obs1 obs2 : Observation) (t : Tracker) (w : World) (c : Z),
    gesture_detection_enabled w = true ->
    cap t = Some c -> hands t = true -> gesture_active t = true ->
    success obs1 = true -> multi_hand_landmarks obs1 = [] ->
    key_is_q obs1 = true ->
    let first := hand_tracking_iteration obs1 t in
    let run := hand_tracking_thread [obs1; obs2] t in
    published (trace first w) = []
    /\ gesture_detection_enabled (exec first w) = false
    /\ gesture_active (result first w) = true
    /\ published (trace run w) = [final_of t]
    /\ gesture_detection_enabled (exec run w) = false
    /\ cap (result run w) = None
    /\ gesture_active (result run w) = false.
Proof.
  intros obs1 obs2 t w c Hf Hc Hh Ha Hs Hhs Hq first run.
  subst first run.
  assert (Hfirst : hand_tracking_iteration obs1 t w
            = (count_frame t, with_flag false w,
               [Acquire gesture_detection_lock;
                Release gesture_detection_lock;
                Acquire gesture_detection_lock;
                Release gesture_detection_lock])).
  { rewrite (iteration_frame obs1 t w c) by assumption. cbv zeta.
    rewrite Hhs, Hq. reflexivity. }
  assert (Hsecond : hand_tracking_iteration obs2 (count_frame t)
                      (with_flag false w)
            = (mkTracker (base_time_minutes t) (current_time_minutes t)
                 (last_broadcast_time t) (broadcast_cooldown t)
                 None (hands t) false (frame_count t + 1),
               exec (broadcast (final_of t)) (with_flag false w),
               Acquire gesture_detection_lock
                 :: Release gesture_detection_lock
                 :: trace (broadcast (final_of t)) (with_flag false w))).
  { now rewrite iteration_disabled_active. }
  split; [|split; [|split]].
  - unfold trace. now rewrite Hfirst.
  - unfold exec. now rewrite Hfirst.
  - unfold result. now rewrite Hfirst.
  - assert (Hrun : hand_tracking_thread [obs1; obs2] t w
              = (mkTracker (base_time_minutes t) (current_time_minutes t)
                   (last_broadcast_time t) (broadcast_cooldown t)
                   None (hands t) false (frame_count t + 1),
                 exec (broadcast (final_of t)) (with_flag false w),
                 [Acquire gesture_detection_lock;
                  Release gesture_detection_lock;
                  Acquire gesture_detection_lock;
                  Release gesture_detection_lock]
                 ++ (Acquire gesture_detection_lock
                       :: Release gesture_detection_lock
                       :: trace (broadcast (final_of t)) (with_flag false w))
                 ++ [])).
    { rewrite thread_cons, Hfirst, thread_cons, Hsecond. reflexivity. }
    unfold trace at 1, exec at 1, result. rewrite Hrun.
    cbn [fst snd cap gesture_active]. rewrite app_nil_r.
    cbn [app published]. rewrite published_broadcast, flag_broadcast.
    repeat split.
Qed.

Lemma X23_quit_key_witness :
  let obs := mkObservation (fun _ => true) true [] true 12 in
  let t := mkTracker 450 690 11 (1 / 2) (Some 1%Z) true true 2 in
  gesture_detection_enabled gesture_world = true
  /\ cap t = Some 1%Z /\ hands t = true /\ gesture_active t = true
  /\ success obs = true /\ multi_hand_landmarks obs = [] /\ key_is_q obs = true
  /\ published (trace (hand_tracking_thread [obs; obs] t) gesture_world)
     = [gesture_time_final (time_str 690) 690].
Proof.
  intros obs t. do 7 (split; [reflexivity|]).
  destruct (X23_quit_key obs obs t gesture_world 1%Z
              eq_refl eq_refl eq_refl eq_refl eq_refl eq_refl eq_refl)
    as (_ & _ & _ & Hpub & _).
  exact Hpub.
Defined.


(* ------------------------------------------------------------------ *)
(** ** Who switches gesture detection *)

Lemma kf_ret {A} (a : A) : keeps_flag (ret a).
Proof. intros w; reflexivity. Qed.

Lemma kf_tell t : keeps_flag (tell t).
Proof. intros w; reflexivity. Qed.

Lemma kf_get : keeps_flag get.
Proof. intros w; reflexivity. Qed.

Lemma kf_bind {A B} (m : M A) (k : A -> M B) :
  keeps_flag m -> (forall a, keeps_flag (k a)) -> keeps_flag (bind m k).
Proof. intros Hm Hk w. rewrite exec_bind, Hk, Hm. reflexivity. Qed.

Lemma kf_when b m : keeps_flag m -> keeps_flag (when b m).
Proof. destruct b; [easy|intros _; apply kf_ret]. Qed.

Lemma kf_with_lock {A} l (m : M A) :
  keeps_flag m -> keeps_flag (with_lock l m).
Proof. intros Hm w. rewrite exec_with_lock. apply Hm. Qed.

Lemma kf_for_each {A} (l : list A) (body : A -> M unit) :
  (forall a, keeps_flag (body a)) -> keeps_flag (for_each l body).
Proof.
  intros Hb; induction l as [|a l IH]; cbn [for_each].
  - apply kf_ret.
  - apply kf_bind; auto.
Qed.

Lemma kf_broadcast obj : keeps_flag (broadcast obj).
Proof. intros w. apply flag_broadcast. Qed.

Ltac kf_tac :=
  repeat first
    [ apply kf_broadcast
    | apply kf_when
    | apply kf_with_lock
    | apply kf_for_each; intros [? ?]
    | apply kf_ret
    | apply kf_get
    | apply kf_tell
    | apply kf_bind; [|intros ?]
    | match goal with
      | |- keeps_flag (let '(_, _) := ?p in _) => destruct p
      | |- keeps_flag (if ?b then _ else _) => destruct b
      end ].

(** Records other than the two that the flag rules react to. *)
Lemma kf_process_logic record :
  (r_symbol_id record =? BACK_SYMBOL)%Z && is_add (r_event record) = false ->
  (r_symbol_id record =? EDIT_MEDICATIONS_SYMBOL)%Z
  && is_add (r_event record) = false ->
  keeps_flag (process_logic_and_broadcast record).
Proof.
  intros Hback Hedit. unfold process_logic_and_broadcast. cbv zeta.
  rewrite Hback, Hedit. cbn [when]. kf_tac.
Qed.

(** X24.  Who switches gesture detection.  Handling a marker record never
    changes the registry.  It switches gesture detection on only for an
    add of the edit-medications marker, and off only for an add of the
    back marker; every other record, and every update or remove, leaves
    the flag as it was. *)
Theorem X24_who_switches_gestures :
  forall (record : TuioRecord) (w : World),
    let run := process_logic_and_broadcast record in
    latest_objects (exec run w) = latest_objects w
    /\ (gesture_detection_enabled w = false ->
        gesture_detection_enabled (exec run w) = true ->
        r_symbol_id record = EDIT_MEDICATIONS_SYMBOL /\ r_event record = Add)
    /\ (gesture_detection_enabled w = true ->
        gesture_detection_enabled (exec run w) = false ->
        r_symbol_id record = BACK_SYMBOL /\ r_event record = Add)
    /\ (r_event record <> Add ->
        gesture_detection_enabled (exec run w) = gesture_detection_enabled w).
Proof.
  intros record w run; subst run.
  split; [apply keeps_process_logic|].
  assert (Hadd : forall e, is_add e = true -> e = Add)
    by (intros [] H; [reflexivity|discriminate|discriminate]).
  destruct ((r_symbol_id record =? BACK_SYMBOL)%Z && is_add (r_event record))
    eqn:Hback.
  - apply andb_prop in Hback as [Hsid Hevt].
    apply Z.eqb_eq in Hsid. apply Hadd in Hevt.
    destruct (back_add_run record w Hsid Hevt) as (_ & Hflag & _).
    cbv zeta in Hflag. rewrite Hflag.
    split; [discriminate|]. split; [auto|]. intros Hne. contradiction.
  - destruct ((r_symbol_id record =? EDIT_MEDICATIONS_SYMBOL)%Z
              && is_add (r_event record)) eqn:Hedit.
    + apply andb_prop in Hedit as [Hsid Hevt].
      apply Z.eqb_eq in Hsid. apply Hadd in Hevt.
      destruct (edit_add_run record w Hsid Hevt) as (_ & Hflag & _).
      cbv zeta in Hflag. rewrite Hflag.
      split; [auto|]. split; [|intros Hne; contradiction].
      intros Hon Hoff. destruct (existsb _ _); congruence.
    + rewrite (kf_process_logic record Hback Hedit w).
      split; [congruence|]. split; [congruence|reflexivity].
Qed.

(* ------------------------------------------------------------------ *)
(** ** One lock at a time *)

Lemma lockless_ret {A} (a : A) : lockless (ret a).
Proof. intros w held; reflexivity. Qed.

Lemma lockless_get : lockless get.
Proof. intros w held; reflexivity. Qed.

Lemma lockless_set_clients cs : lockless (set_clients cs).
Proof. intros w held; reflexivity. Qed.

Lemma lockless_set_flag b : lockless (set_gesture_detection_enabled b).
Proof. intros w held; reflexivity. Qed.

Lemma lockless_bind {A B} (m : M A) (k : A -> M B) :
  lockless m -> (forall a, lockless (k a)) -> lockless (bind m k).
Proof.
  intros Hm Hk w held. rewrite trace_bind, lock_run_app, Hm. apply Hk.
Qed.

Lemma lockless_when b m : lockless m -> lockless (when b m).
Proof. destruct b; [easy|intros _; apply lockless_ret]. Qed.

Lemma ol_ret {A} (a : A) : one_lock (ret a).
Proof. intros w; reflexivity. Qed.

Lemma ol_bind {A B} (m : M A) (k : A -> M B) :
  one_lock m -> (forall a, one_lock (k a)) -> one_lock (bind m k).
Proof.
  intros Hm Hk w. rewrite trace_bind, lock_run_app, Hm. apply Hk.
Qed.

Lemma ol_when b m : one_lock m -> one_lock (when b m).
Proof. destruct b; [easy|intros _; apply ol_ret]. Qed.

Lemma ol_locked {A} l (m : M A) : lockless m -> one_lock (with_lock l m).
Proof.
  intros Hm w. rewrite trace_with_lock.
  cbn [lock_run lock_step single]. rewrite lock_run_app, Hm.
  cbn [lock_run lock_step]. now destruct l.
Qed.

Lemma ol_broadcast obj : one_lock (broadcast obj).
Proof.
  intros w; unfold trace; rewrite broadcast_run; cbn [snd].
  cbn [lock_run lock_step single].
  rewrite lock_run_app, lock_run_sends. reflexivity.
Qed.

Ltac lockless_tac :=
  repeat first
    [ apply lockless_ret | apply lockless_get | apply lockless_set_clients
    | apply lockless_set_flag | apply lockless_when
    | apply lockless_bind; [|intros ?] ].

Ltac ol_tac :=
  repeat first
    [ apply ol_broadcast
    | apply ol_when
    | apply ol_locked; lockless_tac
    | apply ol_ret
    | apply ol_bind; [|intros ?]
    | match goal with
      | |- one_lock (if ?b then _ else _) => destruct b
      | |- one_lock (match ?x with _ => _ end) => destruct x
      end ].

Lemma ol_per_hand now h t : one_lock (per_hand now h t).
Proof. unfold per_hand. ol_tac. Qed.

Lemma ol_for_hands now hs : forall t, one_lock (for_hands now hs t).
Proof.
  induction hs as [|h hs IH]; intros t; cbn [for_hands].
  - apply ol_ret.
  - apply ol_bind; [apply ol_per_hand|exact IH].
Qed.

Lemma ol_iteration obs t : one_lock (hand_tracking_iteration obs t).
Proof.
  unfold hand_tracking_iteration.
  apply ol_bind; [apply ol_locked, lockless_get|]. intros w0.
  destruct (negb (gesture_detection_enabled w0)).
  - destruct (gesture_active t); ol_tac.
  - assert (Hframe : forall t1,
              one_lock
                (if hands t1
                 then
                   if negb (success obs) then ret t1
                   else
                     t3 <- for_hands (current_time obs)
                             (multi_hand_landmarks obs)
                             (mkTracker (base_time_minutes t1)
                                (current_time_minutes t1)
                                (last_broadcast_time t1)
                                (broadcast_cooldown t1) (cap t1) (hands t1)
                                (gesture_active t1) (frame_count t1 + 1)) ;;
                     when (key_is_q obs)
                       (with_lock gesture_detection_lock
                          (set_gesture_detection_enabled false)) ;;
                     ret t3
                 else ret t1)).
    { intros t1.
      destruct (hands t1); [|apply ol_ret].
      destruct (negb (success obs)); [apply ol_ret|].
      apply ol_bind; [apply ol_for_hands|]. intros t3. ol_tac. }
    destruct (cap t) as [c|].
    + apply Hframe.
    + destruct (open_camera (camera_works obs)) as [c|]; [|apply ol_ret].
      apply Hframe.
Qed.

(** X25.  One lock at a time.  The hand-tracking loop, over any number of
    turns, and the handlers that accept and drop a connection, never take
    a lock while they hold one, and release every lock they take: the
    loop reads the flag and counts the clients under a lock that it
    gives back before it calls [broadcast], which takes the clients'
    lock itself. *)
Theorem X25_one_lock_at_a_time :
  forall (observations : list Observation) (t : Tracker) (conn : Client)
         (w : World),
    lock_run single [] (trace (hand_tracking_thread observations t) w)
    = Some []
    /\ lock_run single [] (trace (accept_client conn) w) = Some []
    /\ lock_run single [] (trace (client_reader_exit conn) w) = Some [].
Proof.
  intros observations t conn w. split; [|split].
  - revert t w.
    induction observations as [|obs rest IH]; intros t w.
    + reflexivity.
    + cbn [hand_tracking_thread].
      apply ol_bind; [apply ol_iteration|]. intros t1 w1. apply IH.
  - unfold accept_client. apply ol_locked. lockless_tac.
  - unfold client_reader_exit. apply ol_locked. lockless_tac.
Qed.
